(** * Griselbrand: the daemon lifecycle and duplex messaging layer

    A shallow embedding of the [Daemon] class of griselbrand (the TypeScript
    source of the library) and of its two error-codec functions, followed by
    the properties established about them.

    Conventions of the embedding.

    - JavaScript values that the daemon only forwards ([data] fields, thrown
      non-errors, command arguments) are kept opaque and identified by their
      [JSON.stringify] rendering.
    - Awaiting a promise yields a [settle]: it fulfils, rejects, or never
      settles.  Everything the outside world decides (connection attempts,
      forked children, user hooks and handlers, frames on the wire, random
      draws) is read from an environment, so that the functions below are
      total and can be evaluated.
    - Every observable action is appended to a trace, in program order.
    - The diagnostic [log] helper of the source only prints when
      [DEBUG_DAEMON] is set; it is left out. *)

From stdpp Require Import base option list strings gmap.
From Stdlib Require Import ZArith Lia.

Open Scope string_scope.
Open Scope list_scope.

(** ** JavaScript runtime values *)
Module Js.

(** A value that is never inspected, only rendered. *)
Record jsval := JsVal { JSON_stringify : string }.

(** The class of an error object: [Error], clipanion's [UsageError], or a
    user-defined subclass of either. *)
Inductive ErrorClass :=
| ErrorK
| UsageErrorK
| SubclassK (name : string) (parent : ErrorClass).

(** [e instanceof UsageError] walks the prototype chain. *)
Fixpoint instanceof_UsageError (k : ErrorClass) : bool :=
  match k with
  | ErrorK => false
  | UsageErrorK => true
  | SubclassK _ parent => instanceof_UsageError parent
  end.

Record JsError := mkError {
  klass : ErrorClass;
  message : string;
  stack : option string;
}.

(** What a [throw] or a rejection can carry: [data instanceof Error]
    separates the two cases. *)
Inductive thrown :=
| ThrownError (e : JsError)
| ThrownValue (v : jsval).

(** The engine fills in [stack] when an error is constructed; which text it
    captures is up to the engine. *)
Class Runtime := { captureStackTrace : ErrorClass -> string -> option string }.

(** [new Error(msg)] and [new UsageError(msg)]. *)
Definition new_error `{Runtime} (k : ErrorClass) (msg : string) : JsError :=
  {| klass := k; message := msg; stack := captureStackTrace k msg |}.

(** [error.stack = s]. *)
Definition set_stack (s : option string) (e : JsError) : JsError :=
  {| klass := klass e; message := message e; stack := s |}.

(** The outcome of awaiting a promise. *)
Inductive settle (E A : Type) :=
| Fulfilled (a : A)
| Rejected (e : E)
| Pending.
Arguments Fulfilled {E A} a.
Arguments Rejected {E A} e.
Arguments Pending {E A}.

End Js.
Import Js.

(** ** The error codec *)

(** [type SerializedError]. *)
Module Serialized.
Record t := mk {
  message : string;
  stack : option string;
  isUsage : bool;
}.
End Serialized.
Abbreviation SerializedError := Serialized.t.

(** [function errorToSerializable(data: unknown)]. *)
Definition errorToSerializable `{Runtime} (data : thrown) : SerializedError :=
  let error :=
    match data with
    | ThrownError e => e
    | ThrownValue v => new_error ErrorK ("Not an error: " ++ JSON_stringify v)%string
    end in
  {| Serialized.message := message error;
     Serialized.stack := stack error;
     Serialized.isUsage := instanceof_UsageError (klass error) |}.

(** [function serializableToError(data: SerializedError)]. *)
Definition serializableToError `{Runtime} (data : SerializedError) : JsError :=
  let ErrorKlass := if Serialized.isUsage data then UsageErrorK else ErrorK in
  let error := new_error ErrorKlass (Serialized.message data) in
  set_stack (Serialized.stack data) error.

(** ** The wire protocol *)
Module Wire.

(** What [JSON.parse] gives for a frame, by its [type] tag: the records
    exchanged over the WebSocket; [Untagged] is any other value, whose
    [type] matches no case; [JsonNull] is the JSON text [null], which has
    no properties, so that reading its [type] throws.  The [version] of a
    [cli] record is what [register] writes there, the client's
    [cli.binaryVersion]: a string, or nothing when the client declares none
    ([JSON.stringify] drops an undefined field). *)
Inductive payload :=
| Status (version : option string)
| Stop
| Cli (args : jsval) (version : option string) (context : jsval)
| Stdout (data : string)
| Exit (exitCode : Z)
| Error (error : SerializedError)
| Message (id : Z) (data : jsval)
| MessageYield (id : Z) (data : jsval)
| MessageResolve (id : Z) (data : jsval)
| MessageReject (id : Z) (error : SerializedError)
| Untagged (type : string)
| JsonNull.

(** A frame as it arrives: text that [JSON.parse] accepts, or not. *)
Inductive frame :=
| Json (p : payload)
| Malformed (raw : string).

(** [JSON.parse(message)]: [None] stands for the [SyntaxError]. *)
Definition JSON_parse (f : frame) : option payload :=
  match f with
  | Json p => Some p
  | Malformed _ => None
  end.

End Wire.
Import Wire.

(** ** Insertion-ordered sets of callbacks *)
Module JsSet.

(** A JavaScript [Set]: no duplicates, iterated in insertion order. *)
Definition add {A} `{EqDecision A} (x : A) (s : list A) : list A :=
  if decide (x ∈ s) then s else s ++ [x].

(** How a [for (const fn of set) await fn(arg)] loop ends. *)
Inductive loop_end (E : Type) :=
| Completed
| Aborted (e : E)
| Blocked.
Arguments Completed {E}.
Arguments Aborted {E} e.
Arguments Blocked {E}.

(** [for (const fn of s) await fn()]: each callback is started only once
    the previous one has fulfilled; a rejection leaves the loop (and the
    enclosing async function), a promise that never settles keeps the loop
    waiting for ever.  Returns the callbacks that were started, in order.
    The loop is taken over the set as it stands when it begins. *)
Fixpoint for_of_await {A E} (call : A -> settle E unit) (s : list A)
  : list A * loop_end E :=
  match s with
  | [] => ([], Completed)
  | fn :: rest =>
      match call fn with
      | Fulfilled _ =>
          let '(started, e) := for_of_await call rest in (fn :: started, e)
      | Rejected err => ([fn], Aborted err)
      | Pending => ([fn], Blocked)
      end
  end.

End JsSet.

(** ** The [Daemon] class *)
Module Daemon.

(** Sockets, user callbacks, promises and [Set] objects are referred to by
    number. *)
Definition Conn := nat.
Definition Hook := nat.
Definition PromiseId := nat.
Definition SetRef := nat.

(** The value [undefined], as template literals render it. *)
Definition undefined : jsval := JsVal "undefined".

(** A [Buffer] of command output; only its base64 text goes on the wire. *)
Record Buffer := mkBuffer { toString_base64 : string }.

(** What one call of [daemon.onMessage] does: the partial results it hands
    to [sendClientMessage], the disconnect hooks it adds, how it ends. *)
Record HandlerRun := mkHandlerRun {
  h_sent : list jsval;
  h_hooked : list Hook;
  h_result : settle thrown jsval;
}.

(** What one call of [cli.run] does: the chunks written to [stdout], the
    disconnect hooks added, how it ends. *)
Record CliRun := mkCliRun {
  c_written : list Buffer;
  c_hooked : list Hook;
  c_result : settle thrown Z;
}.

(** Everything decided outside the class. *)
Class Env := {
  (** [process.env.CLIPANION_DAEMON === `1`] *)
  isInsideDaemon : bool;
  (** the n-th [new WebSocket]: ['open'], ['error'] with its error, or
      neither *)
  connect_outcome : nat -> settle JsError unit;
  (** the n-th forked child: its handshake message, ['error'], or neither *)
  fork_outcome : nat -> settle JsError unit;
  (** the n-th [Math.floor(Math.random() * 0x100000000)] *)
  random_id : nat -> Z;
  (** the frames the peer delivers on a socket while the caller waits for
      its reply; for [status], those that arrive within the 3000ms of its
      timer *)
  frames_received : Conn -> list frame;
  (** a callback of a request's [onMessage] set, applied to a partial
      result *)
  stream_handler : Hook -> jsval -> settle thrown unit;
  (** [cli.binaryVersion] *)
  binaryVersion : option string;
  (** [daemon.onMessage], when assigned *)
  onMessage_handler : option (jsval -> HandlerRun);
  (** [cli.run(args, context)] *)
  cli_run : jsval -> jsval -> CliRun;
  (** [daemon.onStart], [daemon.onStop] and what calling a hook gives *)
  onStart : list Hook;
  onStop : list Hook;
  hook_outcome : Hook -> settle thrown unit;
}.

(** An entry of [this.messages].  [resolve] and [reject] are the two
    resolving functions of a promise, named by that promise. *)
Record Entry := mkEntry {
  onMessage : SetRef;
  resolve : PromiseId;
  reject : PromiseId;
}.

(** What a promise made by the class can fulfil with. *)
Inductive jsresult :=
| Data (v : jsval)
| Version (v : option string)
| Code (exitCode : Z).

(** A promise: its state and, for [send], the socket that
    [done.finally(() => ws.close())] closes. *)
Record PromiseRec := mkPromise {
  p_state : settle JsError jsresult;
  p_finally : option Conn;
}.

(** [ClientStatus] and the [onClientDisconnect] set of one accepted
    connection. *)
Record Session := mkSession {
  connected : bool;
  onClientDisconnect : list Hook;
}.

Inductive EventName := OnOpen | OnError | OnMessage | OnClose.

(** The listener bodies of the source, by where they are attached. *)
Inductive Listener :=
| RequestError
| RequestOpen
| RequestMessage
| StatusMessage (p : PromiseId)
| RegisterMessage (p : PromiseId).

Inductive Effect :=
| NewWebSocket (port : Z) (c : Conn)
| Fork
| WsSend (c : Conn) (p : payload)
| WsClose (c : Conn)
| CallResolve (p : PromiseId) (v : jsresult)
| CallReject (p : PromiseId) (e : JsError)
| CallStream (h : Hook) (data : jsval)
| StdoutWrite (base64 : string)
| Uncaught
| NewWebSocketServer (port : Z)
| ServerClose
| ProcessSendReady
| ClientStatusConnected (c : Conn) (b : bool)
| CallHook (h : Hook)
| CallOnMessage (data : jsval)
| CallCliRun (args context : jsval)
| CallCliRunExit
| PrintError (e : JsError)
| ResolveRunExit.

Record World := mkWorld {
  port : Z;
  wss : option Z;
  rebootInProgress : bool;
  messages : gmap Z Entry;
  sessions : gmap Conn Session;
  stream_sets : list (list Hook);
  promises : list PromiseRec;
  listeners : list (Conn * EventName * Listener);
  sockets : nat;
  children : nat;
  draws : nat;
  crashed : bool;
  trace : list Effect;
}.

(** [new Daemon({port})]. *)
Definition new_Daemon (port : Z) : World :=
  {| port := port; wss := None; rebootInProgress := false;
     messages := ∅; sessions := ∅; stream_sets := []; promises := [];
     listeners := []; sockets := 0; children := 0; draws := 0;
     crashed := false; trace := [] |}.

Definition set_wss (v : option Z) (w : World) : World :=
  mkWorld (port w) v (rebootInProgress w) (messages w) (sessions w)
    (stream_sets w) (promises w) (listeners w) (sockets w) (children w)
    (draws w) (crashed w) (trace w).
Definition set_rebootInProgress (v : bool) (w : World) : World :=
  mkWorld (port w) (wss w) v (messages w) (sessions w)
    (stream_sets w) (promises w) (listeners w) (sockets w) (children w)
    (draws w) (crashed w) (trace w).
Definition set_messages (v : gmap Z Entry) (w : World) : World :=
  mkWorld (port w) (wss w) (rebootInProgress w) v (sessions w)
    (stream_sets w) (promises w) (listeners w) (sockets w) (children w)
    (draws w) (crashed w) (trace w).
Definition set_sessions (v : gmap Conn Session) (w : World) : World :=
  mkWorld (port w) (wss w) (rebootInProgress w) (messages w) v
    (stream_sets w) (promises w) (listeners w) (sockets w) (children w)
    (draws w) (crashed w) (trace w).
Definition set_stream_sets (v : list (list Hook)) (w : World) : World :=
  mkWorld (port w) (wss w) (rebootInProgress w) (messages w) (sessions w)
    v (promises w) (listeners w) (sockets w) (children w)
    (draws w) (crashed w) (trace w).
Definition set_promises (v : list PromiseRec) (w : World) : World :=
  mkWorld (port w) (wss w) (rebootInProgress w) (messages w) (sessions w)
    (stream_sets w) v (listeners w) (sockets w) (children w)
    (draws w) (crashed w) (trace w).
Definition set_listeners (v : list (Conn * EventName * Listener)) (w : World) : World :=
  mkWorld (port w) (wss w) (rebootInProgress w) (messages w) (sessions w)
    (stream_sets w) (promises w) v (sockets w) (children w)
    (draws w) (crashed w) (trace w).
Definition set_sockets (v : nat) (w : World) : World :=
  mkWorld (port w) (wss w) (rebootInProgress w) (messages w) (sessions w)
    (stream_sets w) (promises w) (listeners w) v (children w)
    (draws w) (crashed w) (trace w).
Definition set_children (v : nat) (w : World) : World :=
  mkWorld (port w) (wss w) (rebootInProgress w) (messages w) (sessions w)
    (stream_sets w) (promises w) (listeners w) (sockets w) v
    (draws w) (crashed w) (trace w).
Definition set_draws (v : nat) (w : World) : World :=
  mkWorld (port w) (wss w) (rebootInProgress w) (messages w) (sessions w)
    (stream_sets w) (promises w) (listeners w) (sockets w) (children w)
    v (crashed w) (trace w).
Definition set_crashed (v : bool) (w : World) : World :=
  mkWorld (port w) (wss w) (rebootInProgress w) (messages w) (sessions w)
    (stream_sets w) (promises w) (listeners w) (sockets w) (children w)
    (draws w) v (trace w).
Definition set_trace (v : list Effect) (w : World) : World :=
  mkWorld (port w) (wss w) (rebootInProgress w) (messages w) (sessions w)
    (stream_sets w) (promises w) (listeners w) (sockets w) (children w)
    (draws w) (crashed w) v.

(** Append to the trace. *)
Definition emit_effects (es : list Effect) (w : World) : World :=
  set_trace (trace w ++ es) w.
Definition effect (e : Effect) : World -> World := emit_effects [e].

(** An exception leaves an event listener, or the promise of an async
    listener rejects with nobody to handle it: with its default settings
    Node terminates the process. *)
Definition uncaught (w : World) : World := set_crashed true (effect Uncaught w).

(** *** Async functions

    An async function runs on the world and settles, unless it waits for
    ever.  A rejection skips the rest of the function up to the nearest
    [catch]; so does a wait that never ends. *)
Definition Async (A : Type) : Type := World -> settle JsError A * World.

Definition ret {A} (a : A) : Async A := fun w => (Fulfilled a, w).
Definition throw {A} (e : JsError) : Async A := fun w => (Rejected e, w).
Definition bind {A B} (m : Async A) (k : A -> Async B) : Async B :=
  fun w =>
    match m w with
    | (Fulfilled a, w') => k a w'
    | (Rejected e, w') => (Rejected e, w')
    | (Pending, w') => (Pending, w')
    end.
Definition do (f : World -> World) : Async unit := fun w => (Fulfilled tt, f w).

Notation "x <- m ;; k" := (bind m (fun x => k))
  (at level 60, m at next level, right associativity).
Notation "m ;;; k" := (bind m (fun _ => k))
  (at level 60, right associativity).

(** [try { m } catch (err) { handler }]. *)
Definition try_catch {A} (m : Async A) (handler : JsError -> Async A) : Async A :=
  fun w =>
    match m w with
    | (Rejected err, w') => handler err w'
    | r => r
    end.

(** [try { m } finally { f }], for a synchronous [f]. *)
Definition try_finally {A} (m : Async A) (f : World -> World) : Async A :=
  fun w =>
    match m w with
    | (Pending, w') => (Pending, w')
    | (r, w') => (r, f w')
    end.

(** [err.message.startsWith(`connect ECONNREFUSED`)]. *)
Definition is_ECONNREFUSED (err : JsError) : bool :=
  String.prefix "connect ECONNREFUSED" (message err).

(** [ws.on(name, listener)]. *)
Definition ws_on (c : Conn) (name : EventName) (l : Listener) (w : World) : World :=
  set_listeners (listeners w ++ [(c, name, l)]) w.

Definition ws_send (c : Conn) (p : payload) : World -> World := effect (WsSend c p).
Definition ws_close (c : Conn) : World -> World := effect (WsClose c).

(** [this.wss?.close()]. *)
Definition wss_close (w : World) : World :=
  match wss w with
  | Some _ => effect ServerClose w
  | None => w
  end.

(** [private async request()]. *)
Definition request `{Env} : Async Conn :=
  fun w =>
    let ws := sockets w in
    let w := set_sockets (S ws) (effect (NewWebSocket (port w) ws) w) in
    let w := ws_on ws OnOpen RequestOpen (ws_on ws OnError RequestError w) in
    match connect_outcome ws with
    | Fulfilled _ => (Fulfilled ws, ws_on ws OnMessage RequestMessage w)
    | Rejected err => (Rejected err, w)
    | Pending => (Pending, w)
    end.

(** [private async spawn()]. *)
Definition spawn `{Env} : Async unit :=
  fun w =>
    let child := children w in
    let w := set_children (S child) (effect Fork w) in
    match fork_outcome child with
    | Fulfilled _ => (Fulfilled tt, w)
    | Rejected err => (Rejected err, w)
    | Pending => (Pending, w)
    end.

(** [private async open({autoSpawn = true})]. *)
Definition open `{Env} (autoSpawn : bool) : Async Conn :=
  try_catch request (fun err =>
    if is_ECONNREFUSED err && autoSpawn then
      spawn ;;; request
    else
      throw err).

(** [request] up to the [await] of its connection promise: the executor of
    the promise has created the socket and attached its two listeners. *)
Definition request_start (w : World) : Conn * World :=
  let ws := sockets w in
  let w := set_sockets (S ws) (effect (NewWebSocket (port w) ws) w) in
  (ws, ws_on ws OnOpen RequestOpen (ws_on ws OnError RequestError w)).

(** [request] from that [await] on, when the connection attempt on [ws] has
    settled. *)
Definition request_finish `{Env} (ws : Conn) : Async Conn :=
  fun w =>
    match connect_outcome ws with
    | Fulfilled _ => (Fulfilled ws, ws_on ws OnMessage RequestMessage w)
    | Rejected err => (Rejected err, w)
    | Pending => (Pending, w)
    end.

(** [open] from the [await] of its first [request] on. *)
Definition open_finish `{Env} (autoSpawn : bool) (ws : Conn) : Async Conn :=
  try_catch (request_finish ws) (fun err =>
    if is_ECONNREFUSED err && autoSpawn then
      spawn ;;; request
    else
      throw err).

(** *** Promises made with [new Promise] *)

Definition new_promise (fin : option Conn) (w : World) : PromiseId * World :=
  (length (promises w), set_promises (promises w ++ [mkPromise Pending fin]) w).

(** A promise settles once; a [finally] callback runs when it does. *)
Definition settle_promise (p : PromiseId) (r : settle JsError jsresult) (w : World) : World :=
  match promises w !! p with
  | Some (mkPromise Pending fin) =>
      let w := set_promises (<[p := mkPromise r fin]> (promises w)) w in
      match fin with
      | Some ws => ws_close ws w
      | None => w
      end
  | _ => w
  end.

(** Calling the [resolve] / [reject] function of promise [p]. *)
Definition call_resolve (p : PromiseId) (v : jsresult) (w : World) : World :=
  settle_promise p (Fulfilled v) (effect (CallResolve p v) w).
Definition call_reject (p : PromiseId) (e : JsError) (w : World) : World :=
  settle_promise p (Rejected e) (effect (CallReject p e) w).

(** [await p]; nothing resumes in a process that has terminated. *)
Definition await (p : PromiseId) : Async jsresult :=
  fun w =>
    if crashed w then (Pending, w)
    else match promises w !! p with
         | Some pr => (p_state pr, w)
         | None => (Pending, w)
         end.

Definition is_settled (p : PromiseId) (w : World) : bool :=
  match promises w !! p with
  | Some (mkPromise Pending _) | None => false
  | Some _ => true
  end.

(** *** Client-side socket listeners *)

(** The ['message'] listener attached by [request]. *)
Definition request_on_message `{Runtime} `{Env} (f : frame) (w : World) : World :=
  match JSON_parse f with
  | None => uncaught w
  | Some (MessageYield id data) =>
      match messages w !! id with
      | None => w
      | Some message =>
          let fns := default [] (stream_sets w !! onMessage message) in
          let '(started, e) :=
            JsSet.for_of_await (fun fn => stream_handler fn data) fns in
          let w := emit_effects (map (fun fn => CallStream fn data) started) w in
          match e with
          | JsSet.Aborted _ => uncaught w
          | _ => w
          end
      end
  | Some (MessageResolve id data) =>
      match messages w !! id with
      | None => w
      | Some message =>
          let w := set_messages (delete id (messages w)) w in
          call_resolve (resolve message) (Data data) w
      end
  | Some (MessageReject id error) =>
      match messages w !! id with
      | None => w
      | Some message =>
          let w := set_messages (delete id (messages w)) w in
          call_reject (reject message) (serializableToError error) w
      end
  | Some JsonNull => uncaught w
  | Some _ => w
  end.

(** The ['message'] listener attached by [status]. *)
Definition status_on_message (p : PromiseId) (f : frame) (w : World) : World :=
  match JSON_parse f with
  | None => uncaught w
  | Some (Status version) => call_resolve p (Version version) w
  | Some JsonNull => uncaught w
  | Some _ => w
  end.

(** The ['message'] listener attached by a command wrapped with
    [register]. *)
Definition register_on_message `{Runtime} (ws : Conn) (p : PromiseId) (f : frame)
    (w : World) : World :=
  match JSON_parse f with
  | None => uncaught w
  | Some (Stdout data) => effect (StdoutWrite data) w
  | Some (Error error) => call_reject p (serializableToError error) (ws_close ws w)
  | Some (Exit exitCode) => call_resolve p (Code exitCode) (ws_close ws w)
  | Some JsonNull => uncaught w
  | Some _ => w
  end.

Inductive Event :=
| EvOpen
| EvError (e : JsError)
| EvMessage (f : frame)
| EvClose.

Definition event_name (ev : Event) : EventName :=
  match ev with
  | EvOpen => OnOpen
  | EvError _ => OnError
  | EvMessage _ => OnMessage
  | EvClose => OnClose
  end.

#[global] Instance EventName_eq_dec : EqDecision EventName.
Proof. solve_decision. Defined.

(** The two listeners of [request]'s connection promise settle it (see
    [connect_outcome]); called again later they find it settled. *)
Definition run_listener `{Runtime} `{Env} (ws : Conn) (l : Listener) (ev : Event)
    (w : World) : World :=
  match l, ev with
  | RequestMessage, EvMessage f => request_on_message f w
  | StatusMessage p, EvMessage f => status_on_message p f w
  | RegisterMessage p, EvMessage f => register_on_message ws p f w
  | _, _ => w
  end.

(** The listeners attached to socket [ws] for an event, oldest first. *)
Definition listeners_of (ws : Conn) (name : EventName) (w : World) : list Listener :=
  omap (fun '(c, n, l) =>
          if bool_decide (c = ws) && bool_decide (n = name) then Some l else None)
       (listeners w).

(** The socket [ws] emits [ev]. *)
Definition emit `{Runtime} `{Env} (ws : Conn) (ev : Event) (w : World) : World :=
  foldl (fun w l => if crashed w then w else run_listener ws l ev w)
        w (listeners_of ws (event_name ev) w).

(** Frames reaching [ws] while the caller awaits [p]: once [p] is settled
    the caller resumes and closes the socket. *)
Fixpoint deliver_until_settled `{Runtime} `{Env} (ws : Conn) (p : PromiseId)
    (frames : list frame) (w : World) : World :=
  match frames with
  | [] => w
  | f :: rest =>
      let w := emit ws (EvMessage f) w in
      if crashed w || is_settled p w then w
      else deliver_until_settled ws p rest w
  end.

(** *** Public operations *)

(** What [status] returns: [null], or the [version] field of the reply. *)
Inductive StatusAnswer :=
| Null
| VersionField (version : option string).

Definition as_status_answer (r : jsresult) : StatusAnswer :=
  match r with
  | Version v => VersionField v
  | _ => VersionField None
  end.

(** [status] once its socket is open: the request, the promise with its
    3000ms timer and its ['message'] listener, and the [finally] that
    closes the socket.  The timer calls [reject] after the frames of
    [frames_received] have come in, unless the function has returned by
    then. *)
Definition status_query `{Runtime} `{Env} (ws : Conn) : Async StatusAnswer :=
  fun w =>
    let w := ws_send ws (Status None) w in
    let '(p, w) := new_promise None w in
    let w := ws_on ws OnMessage (StatusMessage p) w in
    let w := deliver_until_settled ws p (frames_received ws) w in
    let w :=
      if crashed w || is_settled p w then w
      else call_reject p (new_error ErrorK "Timeout reached") w in
    try_finally (v <- await p ;; ret (as_status_answer v)) (ws_close ws) w.

(** [async status()]. *)
Definition status `{Runtime} `{Env} : Async StatusAnswer :=
  fun w =>
    match open false w with
    | (Rejected err, w) =>
        if is_ECONNREFUSED err then (Fulfilled Null, w) else (Rejected err, w)
    | (Pending, w) => (Pending, w)
    | (Fulfilled ws, w) => status_query ws w
    end.

(** [async start()]. *)
Definition start `{Runtime} `{Env} : Async unit :=
  if isInsideDaemon then
    throw (new_error ErrorK "Cannot call .start() from within the daemon process")
  else
    ws <- open true ;;
    do (ws_close ws).

(** The loop [do { id = ... } while (this.messages.has(id))] of [send],
    cut off after [fuel] draws. *)
Fixpoint allocate `{Env} (fuel : nat) (w : World) : option Z * World :=
  match fuel with
  | O => (None, w)
  | S fuel =>
      let id := random_id (draws w) in
      let w := set_draws (S (draws w)) w in
      if bool_decide (is_Some (messages w !! id)) then allocate fuel w
      else (Some id, w)
  end.

(** [send] up to its call of [open]: the id and the fresh [onMessage]
    set. *)
Definition send_begin `{Runtime} `{Env} (fuel : nat) : Async (Z * SetRef) :=
  if isInsideDaemon then
    throw (new_error ErrorK "Cannot call .message() from within the daemon process")
  else
    fun w =>
      match allocate fuel w with
      | (None, w) => (Pending, w)
      | (Some id, w) =>
          let onMessage := length (stream_sets w) in
          (Fulfilled (id, onMessage), set_stream_sets (stream_sets w ++ [[]]) w)
      end.

(** The [then] callback of [send], run once the socket is open. *)
Definition send_then (id : Z) (onMessage : SetRef) (data : jsval) (ws : Conn)
    (w : World) : PromiseId * World :=
  let '(done, w) := new_promise (Some ws) w in
  let w := set_messages (<[id := mkEntry onMessage done done]> (messages w)) w in
  (done, ws_send ws (Message id data) w).

(** [async send(data, {autoSpawn = false})] up to its return: the id, the
    fresh [onMessage] set, and the call of [open], which runs up to the
    [await] of its connection attempt.  Nothing is registered yet.  The
    result names the set and, for [done], the request under way: its id
    and the socket being opened. *)
Definition send `{Runtime} `{Env} (fuel : nat) (data : jsval) (autoSpawn : bool)
  : Async (Z * SetRef * Conn) :=
  bind (send_begin fuel) (fun '(id, onMessage) =>
    (fun w =>
       let '(ws, w) := request_start w in
       (Fulfilled (id, onMessage, ws), w))).

(** What a [send] leaves to be run later, when the connection attempt on
    [ws] has settled: the rest of [open], then the [then] callback.  The
    result is the promise that [done] follows from then on; a failure of
    [open], with which the source rejects [done], is the rejection here. *)
Definition send_opened `{Env} (id : Z) (onMessage : SetRef) (data : jsval)
    (autoSpawn : bool) (ws : Conn) : Async PromiseId :=
  ws <- open_finish autoSpawn ws ;;
  (fun w =>
     let '(done, w) := send_then id onMessage data ws w in
     (Fulfilled done, w)).

(** [request.onMessage.add(fn)], by the caller of [send]. *)
Definition onMessage_add (s : SetRef) (fn : Hook) (w : World) : World :=
  set_stream_sets (alter (JsSet.add fn) s (stream_sets w)) w.

(** [async stop()]. *)
Definition stop `{Runtime} `{Env} : Async unit :=
  if isInsideDaemon then
    do wss_close
  else
    fun w =>
      match open false w with
      | (Rejected err, w) =>
          if is_ECONNREFUSED err then (Fulfilled tt, w) else (Rejected err, w)
      | (Pending, w) => (Pending, w)
      | (Fulfilled ws, w) => (Fulfilled tt, ws_close ws (ws_send ws Stop w))
      end.

(** [async restart()]. *)
Definition restart `{Runtime} `{Env} : Async unit :=
  if isInsideDaemon then
    fun w =>
      if negb (rebootInProgress w) then
        let w := set_rebootInProgress true w in
        let w := wss_close w in
        spawn w
      else
        (Fulfilled tt, w)
  else
    stop ;;; start.

(** [register(fn)], called: inside the daemon the command body itself,
    otherwise the request to the daemon.  The client's arguments, context
    and [cli.binaryVersion] are those of the calling command. *)
Definition register `{Runtime} `{Env} (fn : Async jsresult)
    (args context : jsval) (version : option string) : Async jsresult :=
  if isInsideDaemon then
    fn
  else
    ws <- open true ;;
    (fun w =>
       let w := ws_send ws (Cli args version context) w in
       let '(p, w) := new_promise None w in
       let w := ws_on ws OnMessage (RegisterMessage p) w in
       let w := deliver_until_settled ws p (frames_received ws) w in
       await p w).

(** *** The server started by [runExit] *)

(** [async runExit(cli, argv, context)] up to the moment it hands back its
    promise; the server's listeners are [server_event] below. *)
Definition runExit `{Runtime} `{Env} : Async unit :=
  if negb isInsideDaemon then
    do (effect CallCliRunExit)
  else
    fun w =>
      match wss w with
      | Some _ => (Rejected (new_error ErrorK "Daemons can only start once"), w)
      | None =>
          (Fulfilled tt, set_wss (Some (port w)) (effect (NewWebSocketServer (port w)) w))
      end.

(** [for (const fn of fns) await fn()] over hooks. *)
Definition run_hooks `{Env} (fns : list Hook) (w : World)
  : JsSet.loop_end thrown * World :=
  let '(started, e) := JsSet.for_of_await hook_outcome fns in
  (e, emit_effects (map CallHook started) w).

(** The rest of an async listener after such a loop. *)
Definition after_loop (e : JsSet.loop_end thrown) (k : World -> World) (w : World) : World :=
  match e with
  | JsSet.Completed => k w
  | JsSet.Aborted _ => uncaught w
  | JsSet.Blocked => w
  end.

(** A template literal renders a missing version as [undefined]. *)
Definition template (v : option string) : string := default "undefined" v.

Definition sendError `{Runtime} (ws : Conn) (error : thrown) : World -> World :=
  ws_send ws (Error (errorToSerializable error)).

(** [onClientDisconnect.add(fn)] for each hook a handler registers. *)
Definition add_hooks (ws : Conn) (fns : list Hook) (w : World) : World :=
  let add_all s :=
    mkSession (connected s)
      (foldl (fun acc fn => JsSet.add fn acc) (onClientDisconnect s) fns) in
  set_sessions (alter add_all ws (sessions w)) w.

(** [wss.on(`listening`, ...)]. *)
Definition on_listening `{Env} (w : World) : World :=
  let '(e, w) := run_hooks onStart w in
  after_loop e (effect ProcessSendReady) w.

(** [wss.on(`connection`, ws => ...)]: the two locals of the closure. *)
Definition on_connection (ws : Conn) (w : World) : World :=
  set_sessions (<[ws := mkSession true []]> (sessions w)) w.

(** [ws.on(`close`, ...)]. *)
Definition on_socket_close `{Env} (ws : Conn) (w : World) : World :=
  match sessions w !! ws with
  | None => w
  | Some s =>
      let w := effect (ClientStatusConnected ws false) w in
      let w := set_sessions (<[ws := mkSession false (onClientDisconnect s)]> (sessions w)) w in
      let '(e, w) := run_hooks (onClientDisconnect s) w in
      after_loop e (effect ResolveRunExit) w
  end.

(** [ws.on(`message`, ...)]. *)
Definition on_socket_message `{Runtime} `{Env} (ws : Conn) (message : frame)
    (w : World) : World :=
  match JSON_parse message with
  | None => ws_close ws w
  | Some (Message id data) =>
      match onMessage_handler with
      | None => ws_send ws (MessageResolve id undefined) w
      | Some handler =>
          let run := handler data in
          let w := effect (CallOnMessage data) w in
          let w := emit_effects
                     (map (fun d => WsSend ws (MessageYield id d)) (h_sent run)) w in
          let w := add_hooks ws (h_hooked run) w in
          match h_result run with
          | Fulfilled res => ws_send ws (MessageResolve id res) w
          | Rejected error =>
              ws_send ws (MessageReject id (errorToSerializable error)) w
          | Pending => w
          end
      end
  | Some (Status _) =>
      ws_send ws (Status (Some (default "<unknown>" binaryVersion))) w
  | Some Stop => effect ServerClose w
  | Some (Cli args version context) =>
      if bool_decide (version ≠ binaryVersion) then
        sendError ws
          (ThrownError
             (new_error UsageErrorK
                ("Mismatched binary versions (cli is " ++ template version
                 ++ ", whereas the daemon is " ++ template binaryVersion ++ ")")%string))
          w
      else
        let run := cli_run args context in
        let w := effect (CallCliRun args context) w in
        let w := emit_effects
                   (map (fun b => WsSend ws (Stdout (toString_base64 b)))
                      (c_written run)) w in
        let w := add_hooks ws (c_hooked run) w in
        match c_result run with
        | Fulfilled exitCode => ws_send ws (Exit exitCode) w
        | Rejected err => sendError ws err w
        | Pending => w
        end
  | Some JsonNull => uncaught w
  | Some _ => w
  end.

(** [wss.on(`close`, ...)]. *)
Definition on_server_close `{Env} (w : World) : World :=
  let '(e, w) := run_hooks onStop w in
  after_loop e (effect ResolveRunExit) w.

Inductive ServerEvent :=
| Listening
| Connection (ws : Conn)
| SocketClose (ws : Conn)
| SocketMessage (ws : Conn) (message : frame)
| ServerError (error : JsError)
| ServerClosed.

Definition server_event `{Runtime} `{Env} (ev : ServerEvent) (w : World) : World :=
  match ev with
  | Listening => on_listening w
  | Connection ws => on_connection ws w
  | SocketClose ws => on_socket_close ws w
  | SocketMessage ws message => on_socket_message ws message w
  | ServerError error => effect (PrintError error) w
  | ServerClosed => on_server_close w
  end.

(** *** Runs *)

(** What can happen in a daemon process, one thing at a time: a call of a
    public method, or an event of the server. *)
Inductive DaemonStep :=
| CallRunExit
| CallRestart
| CallStop
| CallStatus
| CallStart
| CallSend (fuel : nat) (data : jsval) (autoSpawn : bool)
| Server (ev : ServerEvent).

Definition daemon_step `{Runtime} `{Env} (s : DaemonStep) (w : World) : World :=
  if crashed w then w
  else match s with
       | CallRunExit => (runExit w).2
       | CallRestart => (restart w).2
       | CallStop => (stop w).2
       | CallStatus => (status w).2
       | CallStart => (start w).2
       | CallSend fuel data autoSpawn => (send fuel data autoSpawn w).2
       | Server ev => server_event ev w
       end.

Definition daemon_run `{Runtime} `{Env} (steps : list DaemonStep) (w : World) : World :=
  foldl (fun w s => daemon_step s w) w steps.

(** What can happen in a client process, one thing at a time: a call of a
    public method (a wrapped command included), the connection attempt of
    an earlier [send] settling (on a socket that has been created), a
    callback added to the [onMessage] set of a request, an event of a
    socket. *)
Inductive ClientStep :=
| DoStatus
| DoStart
| DoStop
| DoRestart
| DoSend (fuel : nat) (data : jsval) (autoSpawn : bool)
| SendOpened (id : Z) (onMessage : SetRef) (data : jsval) (autoSpawn : bool) (ws : Conn)
| DoCommand (args context : jsval) (version : option string)
| DoAdd (s : SetRef) (fn : Hook)
| Socket (ws : Conn) (ev : Event).

Definition client_step `{Runtime} `{Env} (s : ClientStep) (w : World) : World :=
  if crashed w then w
  else match s with
       | DoStatus => (status w).2
       | DoStart => (start w).2
       | DoStop => (stop w).2
       | DoRestart => (restart w).2
       | DoSend fuel data autoSpawn => (send fuel data autoSpawn w).2
       | SendOpened id onMessage data autoSpawn ws =>
           if bool_decide (ws < sockets w) then
             (send_opened id onMessage data autoSpawn ws w).2
           else w
       | DoCommand args context version =>
           (register (ret (Code 0)) args context version w).2
       | DoAdd s fn => onMessage_add s fn w
       | Socket ws ev => emit ws ev w
       end.

Definition client_run `{Runtime} `{Env} (steps : list ClientStep) (w : World) : World :=
  foldl (fun w s => client_step s w) w steps.

(** What can happen to the table [this.messages] of a client: the [then]
    callback of a [send] registers an entry, the listener of [request]
    receives a frame. *)
Inductive TableStep :=
| Register (id : Z) (onMessage : SetRef) (data : jsval) (ws : Conn)
| Receive (f : frame).

Definition table_step `{Runtime} `{Env} (s : TableStep) (w : World) : World :=
  if crashed w then w
  else match s with
       | Register id onMessage data ws => (send_then id onMessage data ws w).2
       | Receive f => request_on_message f w
       end.

Definition table_run `{Runtime} `{Env} (steps : list TableStep) (w : World) : World :=
  foldl (fun w s => table_step s w) w steps.

(** The calls of [resolve] and [reject] functions in a trace, by promise. *)
Definition settle_calls (tr : list Effect) : list PromiseId :=
  omap (fun e => match e with
                 | CallResolve p _ | CallReject p _ => Some p
                 | _ => None
                 end) tr.

(** The number of children forked in a trace. *)
Definition count_forks (tr : list Effect) : nat :=
  length (omap (fun e => match e with Fork => Some tt | _ => None end) tr).

End Daemon.
Import Daemon.

(** ** Concrete environments *)
Module Scenario.

(** An engine that records a one-line stack. *)
Definition engine : Runtime :=
  {| captureStackTrace := fun _ msg => Some ("Error: " ++ msg ++ " at <anonymous>")%string |}.

Definition ECONNREFUSED : JsError :=
  mkError ErrorK "connect ECONNREFUSED 127.0.0.1:6532" None.
Definition ETIMEDOUT : JsError :=
  mkError ErrorK "connect ETIMEDOUT 127.0.0.1:6532" None.
Definition ENOENT : JsError :=
  mkError ErrorK "spawn /usr/bin/node ENOENT" None.

(** A client process: how its connection attempts and its forks end, and
    what comes back on a socket. *)
Definition client (connect fork : nat -> settle JsError unit)
    (draw : nat -> Z) (frames : Conn -> list frame) : Env :=
  {| isInsideDaemon := false;
     connect_outcome := connect;
     fork_outcome := fork;
     random_id := draw;
     frames_received := frames;
     stream_handler := fun _ _ => Fulfilled tt;
     binaryVersion := Some "1.0.0";
     onMessage_handler := None;
     cli_run := fun _ _ => mkCliRun [] [] (Fulfilled 0%Z);
     onStart := [];
     onStop := [];
     hook_outcome := fun _ => Fulfilled tt |}.

(** A daemon process: its declared version, how forks end, what its
    hooks and its commands do. *)
Definition worker (version : option string) (fork : nat -> settle JsError unit)
    (hook : Hook -> settle thrown unit) (run : jsval -> jsval -> CliRun) : Env :=
  {| isInsideDaemon := true;
     connect_outcome := fun _ => Rejected ECONNREFUSED;
     fork_outcome := fork;
     random_id := fun n => Z.of_nat n;
     frames_received := fun _ => [];
     stream_handler := fun _ _ => Fulfilled tt;
     binaryVersion := version;
     onMessage_handler := None;
     cli_run := run;
     onStart := [];
     onStop := [];
     hook_outcome := hook |}.

(** The same daemon with [daemon.onMessage] assigned. *)
Definition worker_with_handler (handler : jsval -> HandlerRun) : Env :=
  {| isInsideDaemon := true;
     connect_outcome := fun _ => Rejected ECONNREFUSED;
     fork_outcome := fun _ => Pending;
     random_id := fun n => Z.of_nat n;
     frames_received := fun _ => [];
     stream_handler := fun _ _ => Fulfilled tt;
     binaryVersion := Some "1.0.0";
     onMessage_handler := Some handler;
     cli_run := fun _ _ => mkCliRun [] [] (Fulfilled 0%Z);
     onStart := [];
     onStop := [];
     hook_outcome := fun _ => Fulfilled tt |}.

(** A command that writes nothing, registers hooks 1 and 2, and exits
    with 0. *)
Definition command : jsval -> jsval -> CliRun :=
  fun _ _ => mkCliRun [] [1; 2] (Fulfilled 0%Z).

Definition argv : jsval := JsVal "[]".
Definition context : jsval := JsVal "{}".

End Scenario.

(** ** The control commands *)
Module Control.

(** The four classes returned by [getControlCommands], told apart by their
    path (the source names the first two alike, [StartCommand]); [json] is
    the [--json] option of the first one. *)
Inductive Command :=
| StatusCommand (json : bool)
| StartCommand
| StopCommand
| RestartCommand.

Definition name (c : Command) : string :=
  match c with
  | StatusCommand _ => "status"
  | StartCommand => "start"
  | StopCommand => "stop"
  | RestartCommand => "restart"
  end.

(** [static paths = [[...mountPath, name]]]. *)
Definition paths (mountPath : list string) (c : Command) : list (list string) :=
  [mountPath ++ [name c]].

(** The line feed that ends each line the commands write. *)
Definition newline : string := String (Ascii.ascii_of_nat 10) EmptyString.

(** What the [status] command writes for an answer of [daemon.status()].
    [quote] is [JSON.stringify] on strings; [JSON.stringify(null)] is
    [null], and a template literal renders [undefined] as such. *)
Definition status_text (quote : string -> string) (json : bool) (version : StatusAnswer)
  : string :=
  if json then
    match version with
    | Null => "null" ++ newline
    | VersionField (Some v) => quote v ++ newline
    | VersionField None => "undefined" ++ newline
    end%string
  else
    match version with
    | Null => "The daemon is down" ++ newline
    | VersionField v => template v ++ newline
    end%string.

(** [async execute()]: the texts written to [this.context.stdout]. *)
Definition execute `{Runtime} `{Env} (quote : string -> string) (c : Command)
  : Async (list string) :=
  match c with
  | StatusCommand json =>
      version <- status ;;
      ret [status_text quote json version]
  | StartCommand => start ;;; ret []
  | StopCommand => stop ;;; ret []
  | RestartCommand => restart ;;; ret []
  end.

End Control.

(** ** The two ends of a socket *)

(** The records sent on socket [ws] in a trace, in order. *)
Definition sent_on (ws : Conn) (tr : list Effect) : list payload :=
  omap (fun e => match e with
                 | WsSend c p => if bool_decide (c = ws) then Some p else None
                 | _ => None
                 end) tr.

(** What going from [w] to [w'] added to the trace. *)
Definition new_effects (w w' : World) : list Effect :=
  drop (length (trace w)) (trace w').

(** What the daemon sends back on socket [ws] for a frame received on it. *)
Definition daemon_replies `{Runtime} `{Env} (ws : Conn) (f : frame) (w : World)
  : list payload :=
  sent_on ws (new_effects w (on_socket_message ws f w)).

(** The listener of [request] receives records one after the other, each
    one handled to its end (the callbacks it awaits included) before the
    next one arrives. *)
Definition client_receives `{Runtime} `{Env} (records : list payload) (w : World) : World :=
  table_run (map (fun p => Receive (Json p)) records) w.

(** What settling a promise adds to the trace after the call of its
    resolving function: the [finally] callback, if any. *)
Definition closing (fin : option Conn) : list Effect :=
  match fin with
  | Some ws => [WsClose ws]
  | None => []
  end.

(** The message of the [UsageError] with which the daemon refuses a command
    of another version. *)
Definition mismatch (version daemon : option string) : string :=
  ("Mismatched binary versions (cli is " ++ template version
   ++ ", whereas the daemon is " ++ template daemon ++ ")")%string.

(** The hooks that handling a frame adds to the [onClientDisconnect] set of
    its connection: those that the handler of a custom message, or the
    command of a [cli] record of the daemon's version, registers. *)
Definition registers `{Env} (f : frame) : list Hook :=
  match JSON_parse f with
  | Some (Message _ data) =>
      match onMessage_handler with
      | Some handler => h_hooked (handler data)
      | None => []
      end
  | Some (Cli args version context) =>
      if bool_decide (version ≠ binaryVersion) then []
      else c_hooked (cli_run args context)
  | _ => []
  end.

(** The sockets created in a trace. *)
Definition count_sockets (tr : list Effect) : nat :=
  length (omap (fun e => match e with NewWebSocket _ _ => Some tt | _ => None end) tr).

(** ** Vocabulary of the properties *)

(** [steady w w']: going from [w] to [w'] forks nothing, attaches no
    listener, creates no socket and leaves the server and the restart guard
    as they are. *)
Definition steady (w w' : World) : Prop :=
  port w' = port w
  /\ wss w' = wss w
  /\ rebootInProgress w' = rebootInProgress w
  /\ listeners w' = listeners w
  /\ sockets w' = sockets w
  /\ children w' = children w
  /\ count_forks (trace w') = count_forks (trace w).

Definition not_fork (e : Effect) : Prop :=
  match e with Fork => False | _ => True end.

(** [quiet w w']: going from [w] to [w'] forks nothing and leaves the
    restart guard as it is. *)
Definition quiet (w w' : World) : Prop :=
  rebootInProgress w' = rebootInProgress w
  /\ children w' = children w
  /\ count_forks (trace w') = count_forks (trace w).

(** [attaches w w']: the listeners attached on the way from [w] to [w']
    are for events other than ['close']. *)
Definition not_on_close (l : Conn * EventName * Listener) : Prop := l.1.2 <> OnClose.

Definition attaches (w w' : World) : Prop :=
  exists new, listeners w' = listeners w ++ new /\ Forall not_on_close new.

(** Every listener of the world sits on a socket that has been created. *)
Definition sockets_fresh (w : World) : Prop :=
  Forall (fun l : Conn * EventName * Listener => l.1.1 < sockets w) (listeners w).

(** A frame that the two listeners of a [status] socket let pass: it
    parses, to something other than [null]; it is not a [status] reply; and
    if it is one of the three [message/...] records, its id is not in the
    table. *)
Definition passes (w : World) (f : frame) : Prop :=
  match f with
  | Json (Status _) | Json JsonNull | Malformed _ => False
  | Json (MessageYield id _) | Json (MessageResolve id _)
  | Json (MessageReject id _) => messages w !! id = None
  | Json _ => True
  end.

(** [grows w w']: on the way from [w] to [w'] sockets are only created, and
    listeners are only attached to sockets that exist. *)
Definition grows (w w' : World) : Prop :=
  sockets w <= sockets w'
  /\ exists new, listeners w' = listeners w ++ new
       /\ Forall (fun l : Conn * EventName * Listener => l.1.1 < sockets w') new.

(** The [onClientDisconnect] set of every session is duplicate-free. *)
Definition sessions_ok (w : World) : Prop :=
  forall c s, sessions w !! c = Some s -> NoDup (onClientDisconnect s).

(** The hooks called in a trace, in order. *)
Definition hook_calls (tr : list Effect) : list Hook :=
  omap (fun e => match e with CallHook h => Some h | _ => None end) tr.

(** The invariant of the table: the two callbacks of an entry belong to one
    promise, which no other entry shares and which has not been settled
    through the table. *)
Record table_ok (w : World) : Prop := {
  entry_promise : forall id m, messages w !! id = Some m ->
      reject m = resolve m
      /\ resolve m < length (promises w)
      /\ resolve m ∉ settle_calls (trace w);
  entry_unshared : forall id1 id2 m1 m2,
      messages w !! id1 = Some m1 -> messages w !! id2 = Some m2 ->
      resolve m1 = resolve m2 -> id1 = id2;
  calls_once : NoDup (settle_calls (trace w));
  calls_known : forall p, p ∈ settle_calls (trace w) -> p < length (promises w);
}.

(** * Properties *)

(** ** Error codec *)

Lemma serializableToError_fields `{Runtime} (d : SerializedError) :
  message (serializableToError d) = Serialized.message d
  /\ stack (serializableToError d) = Serialized.stack d
  /\ instanceof_UsageError (klass (serializableToError d)) = Serialized.isUsage d.
Proof.
  unfold serializableToError. destruct d as [m s u]; simpl.
  repeat split. now destruct u.
Qed.

(** C2.  Encoding a failure with [errorToSerializable] and decoding it with
    [serializableToError] keeps its kind.  For an error object, the decoded
    error is a [UsageError] exactly when the original was one, and it
    carries the original message and the original stack trace (whether
    user-facing or not); a thrown value that is not an error comes back as a
    plain, not user-facing [Error]. *)
Theorem error_codec_roundtrip `{Runtime} :
  (forall e : JsError,
      let e' := serializableToError (errorToSerializable (ThrownError e)) in
      instanceof_UsageError (klass e') = instanceof_UsageError (klass e)
      /\ klass e' = (if instanceof_UsageError (klass e) then UsageErrorK else ErrorK)
      /\ message e' = message e
      /\ stack e' = stack e)
  /\ (forall v : jsval,
      let e' := serializableToError (errorToSerializable (ThrownValue v)) in
      instanceof_UsageError (klass e') = false
      /\ message e' = ("Not an error: " ++ JSON_stringify v)%string).
Proof.
  split.
  - intros e e'.
    destruct (serializableToError_fields (errorToSerializable (ThrownError e)))
      as (Hm & Hs & Hk).
    split; [exact Hk|]. split; [|split; [exact Hm | exact Hs]].
    subst e'. unfold serializableToError, errorToSerializable; cbn.
    now destruct (instanceof_UsageError (klass e)).
  - intros v e'. split; reflexivity.
Qed.

(** ** Frames received by the daemon *)

(** C9.  The daemon answers a [status] frame with one [status] record whose
    [version] field is always present: the declared [cli.binaryVersion], or
    the text [<unknown>] when the CLI declares none. *)
Theorem status_reply_version `{Runtime} `{Env} (ws : Conn) (v : option string) (w : World) :
  server_event (SocketMessage ws (Json (Status v))) w
  = set_trace
      (trace w ++ [WsSend ws (Status (Some match binaryVersion with
                                            | Some declared => declared
                                            | None => "<unknown>"
                                            end))]) w.
Proof.
  cbn. unfold ws_send, effect, emit_effects. now destruct binaryVersion.
Qed.

(** The ['close'] listener of a socket only writes to the session of that
    socket. *)
Lemma on_socket_close_other `{Env} (ws c : Conn) (w : World) :
  c <> ws -> sessions (on_socket_close ws w) !! c = sessions w !! c.
Proof.
  intros Hc. unfold on_socket_close, run_hooks.
  destruct (sessions w !! ws) as [s|]; [|reflexivity].
  destruct (JsSet.for_of_await hook_outcome (onClientDisconnect s)) as [started []];
    cbn; now rewrite lookup_insert_ne.
Qed.

(** C10.  A frame that is not JSON makes the daemon close the socket it came
    from, and nothing else: the world is the same but for one [ws.close()]
    in the trace, so no reply is sent, neither [daemon.onMessage] nor
    [cli.run] nor a hook is called, and the server, the restart guard and
    every session are as they were.  When the ['close'] event of that socket
    follows, the sessions of the other sockets are still as they were. *)
Theorem malformed_frame_closes_socket `{Runtime} `{Env} (ws : Conn) (raw : string) (w : World) :
  let w' := server_event (SocketMessage ws (Malformed raw)) w in
  w' = set_trace (trace w ++ [WsClose ws]) w
  /\ sessions w' = sessions w
  /\ wss w' = wss w
  /\ rebootInProgress w' = rebootInProgress w
  /\ crashed w' = crashed w
  /\ (forall c, c <> ws ->
        sessions (server_event (SocketClose ws) w') !! c = sessions w !! c).
Proof.
  intros w'. assert (Hw : w' = set_trace (trace w ++ [WsClose ws]) w) by reflexivity.
  split; [exact Hw|]. rewrite Hw. do 4 (split; [reflexivity|]).
  intros c Hc. cbn [server_event]. now rewrite on_socket_close_other.
Qed.

(** C5.  A [cli] frame whose version differs from the daemon's
    [cli.binaryVersion] is answered with a single [error] record that
    carries a [UsageError] about the mismatch, and [cli.run] is not called;
    when the versions agree, [cli.run] is called with the arguments and the
    context of the frame. *)
Theorem cli_version_gate `{Runtime} `{Env}
    (ws : Conn) (args context : jsval) (version : option string) (w : World) :
  let w' := server_event (SocketMessage ws (Json (Cli args version context))) w in
  (version <> binaryVersion ->
     exists error,
       w' = set_trace (trace w ++ [WsSend ws (Error error)]) w
       /\ Serialized.isUsage error = true
       /\ Serialized.message error =
            ("Mismatched binary versions (cli is " ++ template version
             ++ ", whereas the daemon is " ++ template binaryVersion ++ ")")%string)
  /\ (version = binaryVersion ->
     exists rest,
       trace w' = trace w ++ CallCliRun args context :: rest).
Proof.
  cbn. split; intros Hv.
  - rewrite bool_decide_eq_true_2 by assumption.
    eexists. split; [reflexivity|]. split; reflexivity.
  - rewrite bool_decide_eq_false_2 by (intros Hne; now apply Hne).
    unfold add_hooks, ws_send, sendError, ws_send, effect, emit_effects.
    destruct (c_result (cli_run args context)); cbn;
      rewrite <- ?app_assoc; cbn; eexists; reflexivity.
Qed.

Lemma cli_version_gate_witness :
  let env := Scenario.worker (Some "1.0.0") (fun _ => Pending) (fun _ => Fulfilled tt)
               Scenario.command in
  let on_frame version :=
    trace (server_event (H := Scenario.engine) (H0 := env)
             (SocketMessage 0 (Json (Cli Scenario.argv version Scenario.context)))
             (on_connection 0 (new_Daemon 6532))) in
  (exists error, on_frame (Some "0.9.0") = [WsSend 0 (Error error)]
                 /\ Serialized.isUsage error = true)
  /\ (exists rest, on_frame (Some "1.0.0")
                   = CallCliRun Scenario.argv Scenario.context :: rest).
Proof.
  intros env on_frame. split.
  - destruct (proj1 (cli_version_gate (H := Scenario.engine) (H0 := env) 0
                       Scenario.argv Scenario.context (Some "0.9.0")
                       (on_connection 0 (new_Daemon 6532))))
      as (error & Hw & Hu & _).
    + discriminate.
    + exists error. split; [|exact Hu]. unfold on_frame. now rewrite Hw.
  - destruct (proj2 (cli_version_gate (H := Scenario.engine) (H0 := env) 0
                       Scenario.argv Scenario.context (Some "1.0.0")
                       (on_connection 0 (new_Daemon 6532))))
      as (rest & Hw).
    + reflexivity.
    + exists rest. exact Hw.
Defined.

(** A custom message whose handler hands out two partial results and
    returns: two [message/yield] records, then [message/resolve]. *)
Example custom_message_run :
  let handler := fun data : jsval =>
    mkHandlerRun [JsVal "1"; JsVal "2"] [] (Fulfilled (JsVal "3")) in
  let env := Scenario.worker_with_handler handler in
  trace (daemon_run (H := Scenario.engine) (H0 := env)
           [CallRunExit; Server (Connection 0);
            Server (SocketMessage 0 (Json (Message 7 (JsVal "0"))))]
           (new_Daemon 6532))
  = [NewWebSocketServer 6532; CallOnMessage (JsVal "0");
     WsSend 0 (MessageYield 7 (JsVal "1")); WsSend 0 (MessageYield 7 (JsVal "2"));
     WsSend 0 (MessageResolve 7 (JsVal "3"))].
Proof. reflexivity. Qed.

(** A custom message whose handler throws a [UsageError]: the rejection
    keeps the kind of the failure. *)
Example custom_message_failure :
  let oops := mkError UsageErrorK "bad input" (Some "UsageError: bad input") in
  let handler := fun data : jsval =>
    mkHandlerRun [] [] (Rejected (ThrownError oops)) in
  let env := Scenario.worker_with_handler handler in
  trace (server_event (H := Scenario.engine) (H0 := env)
           (SocketMessage 0 (Json (Message 7 (JsVal "0"))))
           (new_Daemon 6532))
  = [CallOnMessage (JsVal "0");
     WsSend 0 (MessageReject 7
                 (Serialized.mk "bad input" (Some "UsageError: bad input") true))].
Proof. reflexivity. Qed.

(** ** Opening a connection *)

(** The outcome of a connection attempt, as [request] reports it. *)
Lemma request_spec `{Env} (w : World) :
  request w =
    (match connect_outcome (sockets w) with
     | Fulfilled _ => Fulfilled (sockets w)
     | Rejected err => Rejected err
     | Pending => Pending
     end,
     let w1 := set_sockets (S (sockets w))
                 (effect (NewWebSocket (port w) (sockets w)) w) in
     let w2 := ws_on (sockets w) OnOpen RequestOpen
                 (ws_on (sockets w) OnError RequestError w1) in
     match connect_outcome (sockets w) with
     | Fulfilled _ => ws_on (sockets w) OnMessage RequestMessage w2
     | _ => w2
     end).
Proof. unfold request. now destruct (connect_outcome (sockets w)). Qed.

Lemma spawn_spec `{Env} (w : World) :
  spawn w =
    (match fork_outcome (children w) with
     | Fulfilled _ => Fulfilled tt
     | Rejected err => Rejected err
     | Pending => Pending
     end,
     set_children (S (children w)) (effect Fork w)).
Proof. unfold spawn. now destruct (fork_outcome (children w)). Qed.

(** C1, as the code has it.  When the first connection attempt of [open]
    fails: if the failure is a refusal and [autoSpawn] is set, one child is
    forked; once its handshake has arrived the connection is attempted
    exactly once more and the outcome of that second attempt is the outcome
    of [open], a second failure being passed on with no further fork or
    attempt; if the fork fails or the handshake never comes, that is the
    outcome and no second attempt is made.  If [autoSpawn] is not set the
    refusal is passed on without forking, and any other failure is passed
    on without forking whatever [autoSpawn] says. *)
Theorem open_after_failed_connect `{Runtime} `{Env}
    (autoSpawn : bool) (w : World) (err : JsError) :
  connect_outcome (sockets w) = Rejected err ->
  let n := sockets w in
  let r := (open autoSpawn w).1 in
  let w' := (open autoSpawn w).2 in
  (is_ECONNREFUSED err = true -> autoSpawn = true ->
     (fork_outcome (children w) = Fulfilled tt ->
        trace w' = trace w ++ [NewWebSocket (port w) n; Fork; NewWebSocket (port w) (S n)]
        /\ r = match connect_outcome (S n) with
               | Fulfilled _ => Fulfilled (S n)
               | Rejected err2 => Rejected err2
               | Pending => Pending
               end)
     /\ (forall failure, fork_outcome (children w) = Rejected failure ->
        trace w' = trace w ++ [NewWebSocket (port w) n; Fork]
        /\ r = Rejected failure)
     /\ (fork_outcome (children w) = Pending ->
        trace w' = trace w ++ [NewWebSocket (port w) n; Fork]
        /\ r = Pending))
  /\ (is_ECONNREFUSED err = true -> autoSpawn = false ->
     trace w' = trace w ++ [NewWebSocket (port w) n]
     /\ children w' = children w
     /\ r = Rejected err)
  /\ (is_ECONNREFUSED err = false ->
     trace w' = trace w ++ [NewWebSocket (port w) n]
     /\ children w' = children w
     /\ r = Rejected err).
Proof.
  intros Hc n r w'. subst r w'.
  unfold open, try_catch. rewrite request_spec, Hc.
  set (w2 := ws_on _ OnOpen _ _).
  assert (Hw2 : trace w2 = trace w ++ [NewWebSocket (port w) n]
                /\ children w2 = children w /\ sockets w2 = S n
                /\ port w2 = port w) by (repeat split).
  destruct Hw2 as (Ht & Hch & Hs & Hp).
  split; [|split].
  - intros -> ->. cbv [andb]. unfold bind. rewrite spawn_spec, Hch.
    set (w3 := set_children _ _).
    assert (Hw3 : trace w3 = trace w ++ [NewWebSocket (port w) n; Fork]
                  /\ sockets w3 = S n /\ port w3 = port w).
    { subst w3. unfold set_children, effect, emit_effects, set_trace; cbn.
      rewrite <- app_assoc. now repeat split. }
    destruct Hw3 as (Ht3 & Hs3 & Hp3).
    split; [|split].
    + intros ->. rewrite request_spec, Hs3, Hp3.
      destruct (connect_outcome (S n)); cbn; rewrite <- !app_assoc; now split.
    + intros failure ->. now split.
    + intros ->. now split.
  - intros -> ->. cbn. repeat split.
  - intros ->. cbn. repeat split.
Qed.

(** The daemon is absent, one is forked and signals that it is ready, yet
    the second attempt is refused as well: [open] gives up there. *)
Lemma open_after_failed_connect_witness :
  let env := Scenario.client (fun _ => Rejected Scenario.ECONNREFUSED)
               (fun _ => Fulfilled tt) (fun _ => 7%Z) (fun _ => []) in
  let run := open (H := env) true (new_Daemon 6532) in
  trace run.2 = [NewWebSocket 6532 0; Fork; NewWebSocket 6532 1]
  /\ run.1 = Rejected Scenario.ECONNREFUSED.
Proof.
  intros env run.
  destruct (open_after_failed_connect (H := Scenario.engine) (H0 := env)
              true (new_Daemon 6532) Scenario.ECONNREFUSED eq_refl)
    as [Hspawn _].
  destruct (Hspawn eq_refl eq_refl) as [Hready _].
  exact (Hready eq_refl).
Defined.

(** C1 as stated does not hold: the first attempt is refused and
    [autoSpawn] is set, but the fork fails; the connection is then not
    attempted a second time, and the failure of the fork is what [open]
    reports. *)
Lemma open_does_not_retry_when_spawn_fails :
  let env := Scenario.client (fun _ => Rejected Scenario.ECONNREFUSED)
               (fun _ => Rejected Scenario.ENOENT) (fun _ => 7%Z) (fun _ => []) in
  let run := open (H := env) true (new_Daemon 6532) in
  is_ECONNREFUSED Scenario.ECONNREFUSED = true
  /\ trace run.2 = [NewWebSocket 6532 0; Fork]
  /\ sockets run.2 = 1
  /\ ~ (exists c, NewWebSocket 6532 c ∈ trace run.2 /\ c <> 0)
  /\ run.1 = Rejected Scenario.ENOENT.
Proof.
  cbn. repeat split.
  intros (c & Hin & Hc).
  apply list_elem_of_In in Hin. cbn in Hin.
  destruct Hin as [Heq|[Heq|[]]]; [|discriminate]. injection Heq as <-. now apply Hc.
Qed.

(** ** What the operations leave alone *)

Lemma steady_refl (w : World) : steady w w.
Proof. now repeat split. Qed.

Lemma steady_trans (w1 w2 w3 : World) : steady w1 w2 -> steady w2 w3 -> steady w1 w3.
Proof.
  unfold steady. intros (?&?&?&?&?&?&?) (?&?&?&?&?&?&?).
  repeat split; congruence.
Qed.

Lemma count_forks_app (l1 l2 : list Effect) :
  count_forks (l1 ++ l2) = count_forks l1 + count_forks l2.
Proof. unfold count_forks. now rewrite omap_app, length_app. Qed.

Lemma count_forks_none (es : list Effect) : Forall not_fork es -> count_forks es = 0.
Proof.
  induction 1 as [|e es He _ IH]; [reflexivity|].
  unfold count_forks in *. destruct e; cbn; solve [exact IH | destruct He].
Qed.

Lemma steady_emit_effects (es : list Effect) (w : World) :
  Forall not_fork es -> steady w (emit_effects es w).
Proof.
  intros Hes. unfold steady. do 6 (split; [reflexivity|]).
  unfold emit_effects, set_trace. cbn [trace].
  rewrite count_forks_app, (count_forks_none es Hes). lia.
Qed.

Lemma steady_effect (e : Effect) (w : World) : not_fork e -> steady w (effect e w).
Proof. intros He. apply steady_emit_effects. now constructor. Qed.

Lemma Forall_not_fork_map {A} (f : A -> Effect) (l : list A) :
  (forall x, not_fork (f x)) -> Forall not_fork (map f l).
Proof. intros Hf. apply Forall_forall. intros e (x & -> & _)%list_elem_of_fmap. apply Hf. Qed.

Lemma steady_foldl {A} (f : World -> A -> World) (l : list A) (w : World) :
  (forall w x, steady w (f w x)) -> steady w (foldl f w l).
Proof.
  intros Hf. revert w. induction l as [|x l IH]; intros w; cbn.
  - apply steady_refl.
  - eapply steady_trans; [apply Hf | apply IH].
Qed.

Create HintDb steady discriminated.
#[local] Hint Resolve steady_refl steady_effect steady_emit_effects : steady.
#[local] Hint Extern 1 (not_fork _) => exact I : steady.
#[local] Hint Extern 1 (Forall not_fork (map _ _)) =>
  apply Forall_not_fork_map; intros; exact I : steady.

(** Peels the outermost update off [steady w (f w')], leaving
    [steady w w']. *)
Ltac steady_step :=
  lazymatch goal with
  | |- steady ?w ?w => apply steady_refl
  | |- steady ?w (?f ?w') =>
      apply (steady_trans w w');
      [|solve [auto with steady | now repeat split]]
  end.

Lemma steady_ws_send (c : Conn) (p : payload) (w : World) : steady w (ws_send c p w).
Proof. now apply steady_effect. Qed.

Lemma steady_ws_close (c : Conn) (w : World) : steady w (ws_close c w).
Proof. now apply steady_effect. Qed.
#[local] Hint Resolve steady_ws_send steady_ws_close : steady.

Lemma steady_uncaught (w : World) : steady w (uncaught w).
Proof. unfold uncaught. repeat steady_step. Qed.
#[local] Hint Resolve steady_uncaught : steady.

Lemma steady_settle_promise (p : PromiseId) r (w : World) :
  steady w (settle_promise p r w).
Proof.
  unfold settle_promise.
  destruct (promises w !! p) as [[[] [c|]]|]; repeat steady_step.
Qed.

#[local] Hint Resolve steady_settle_promise : steady.

Lemma steady_call_resolve (p : PromiseId) v (w : World) : steady w (call_resolve p v w).
Proof. unfold call_resolve. repeat steady_step. Qed.

Lemma steady_call_reject (p : PromiseId) e (w : World) : steady w (call_reject p e w).
Proof. unfold call_reject. repeat steady_step. Qed.
#[local] Hint Resolve steady_call_resolve steady_call_reject : steady.

Lemma steady_request_on_message `{Runtime} `{Env} (f : frame) (w : World) :
  steady w (request_on_message f w).
Proof.
  unfold request_on_message.
  destruct (JSON_parse f) as [[]|]; try solve [repeat steady_step].
  - destruct (messages w !! id); [|apply steady_refl].
    destruct (JsSet.for_of_await _ _) as [started []]; repeat steady_step.
  - destruct (messages w !! id); repeat steady_step.
  - destruct (messages w !! id); repeat steady_step.
Qed.

Lemma steady_status_on_message (p : PromiseId) (f : frame) (w : World) :
  steady w (status_on_message p f w).
Proof. unfold status_on_message. destruct (JSON_parse f) as [[]|]; repeat steady_step. Qed.

Lemma steady_register_on_message `{Runtime} (ws : Conn) (p : PromiseId) (f : frame)
    (w : World) :
  steady w (register_on_message ws p f w).
Proof. unfold register_on_message. destruct (JSON_parse f) as [[]|]; repeat steady_step. Qed.
#[local] Hint Resolve steady_request_on_message steady_status_on_message
  steady_register_on_message : steady.

Lemma steady_run_listener `{Runtime} `{Env} (ws : Conn) (l : Listener) (ev : Event)
    (w : World) :
  steady w (run_listener ws l ev w).
Proof. destruct l, ev; cbn; auto with steady. Qed.

Lemma steady_emit `{Runtime} `{Env} (ws : Conn) (ev : Event) (w : World) :
  steady w (emit ws ev w).
Proof.
  unfold emit. apply steady_foldl. intros w0 l.
  destruct (crashed w0); [apply steady_refl | apply steady_run_listener].
Qed.
#[local] Hint Resolve steady_emit : steady.

Lemma steady_deliver_until_settled `{Runtime} `{Env} (ws : Conn) (p : PromiseId)
    (frames : list frame) (w : World) :
  steady w (deliver_until_settled ws p frames w).
Proof.
  revert w. induction frames as [|f frames IH]; intros w; cbn.
  - apply steady_refl.
  - destruct (_ || _).
    + apply steady_emit.
    + eapply steady_trans; [apply steady_emit | apply IH].
Qed.
#[local] Hint Resolve steady_deliver_until_settled : steady.

Lemma steady_run_hooks `{Env} (fns : list Hook) (w : World) :
  steady w (run_hooks fns w).2.
Proof.
  unfold run_hooks. destruct (JsSet.for_of_await _ _) as [started e]. cbn.
  repeat steady_step.
Qed.

Lemma steady_after_loop (e : JsSet.loop_end thrown) (k : World -> World) (w : World) :
  steady w (k w) -> steady w (after_loop e k w).
Proof. intros Hk. destruct e; cbn; auto with steady. Qed.

Lemma steady_hooks_then `{Env} (fns : list Hook) (k : World -> World) (w : World) :
  (forall w, steady w (k w)) ->
  steady w (let '(e, w) := run_hooks fns w in after_loop e k w).
Proof.
  intros Hk. pose proof (steady_run_hooks fns w) as Hrun.
  destruct (run_hooks fns w) as [e w1]. cbn in Hrun.
  eapply steady_trans; [exact Hrun|]. apply steady_after_loop, Hk.
Qed.

Lemma steady_on_socket_message `{Runtime} `{Env} (ws : Conn) (f : frame) (w : World) :
  steady w (on_socket_message ws f w).
Proof.
  unfold on_socket_message, sendError.
  destruct (JSON_parse f) as [[]|]; try solve [repeat steady_step].
  - destruct (bool_decide _); [repeat steady_step|].
    destruct (c_result _); repeat steady_step.
  - destruct onMessage_handler as [handler|]; [|repeat steady_step].
    destruct (h_result _); repeat steady_step.
Qed.

Lemma steady_server_event `{Runtime} `{Env} (ev : ServerEvent) (w : World) :
  steady w (server_event ev w).
Proof.
  destruct ev; cbn.
  - apply steady_hooks_then. intros; now apply steady_effect.
  - unfold on_connection. repeat steady_step.
  - unfold on_socket_close. destruct (sessions w !! ws); [|apply steady_refl].
    eapply steady_trans; [|apply steady_hooks_then; intros; now apply steady_effect].
    repeat steady_step.
  - apply steady_on_socket_message.
  - now apply steady_effect.
  - apply steady_hooks_then. intros; now apply steady_effect.
Qed.

Lemma quiet_refl (w : World) : quiet w w.
Proof. now repeat split. Qed.

Lemma quiet_trans (w1 w2 w3 : World) : quiet w1 w2 -> quiet w2 w3 -> quiet w1 w3.
Proof. unfold quiet. intros (?&?&?) (?&?&?). repeat split; congruence. Qed.

Lemma steady_quiet (w w' : World) : steady w w' -> quiet w w'.
Proof. unfold steady, quiet. tauto. Qed.

Lemma attaches_refl (w : World) : attaches w w.
Proof. exists []. now rewrite app_nil_r. Qed.

Lemma attaches_trans (w1 w2 w3 : World) : attaches w1 w2 -> attaches w2 w3 -> attaches w1 w3.
Proof.
  intros (n1 & H1 & F1) (n2 & H2 & F2). exists (n1 ++ n2).
  split; [now rewrite H2, H1, app_assoc | now apply Forall_app].
Qed.

Lemma steady_attaches (w w' : World) : steady w w' -> attaches w w'.
Proof. intros (_&_&_&Hl&_). exists []. now rewrite app_nil_r. Qed.

Lemma request_quiet `{Env} (w : World) : quiet w (request w).2.
Proof.
  rewrite request_spec. cbn [snd].
  destruct (connect_outcome (sockets w)); unfold quiet; cbn;
    (split; [reflexivity|]; split; [reflexivity|]);
    unfold count_forks; now rewrite omap_app, length_app, Nat.add_0_r.
Qed.

Lemma request_attaches `{Env} (w : World) : attaches w (request w).2.
Proof.
  rewrite request_spec. cbn [snd].
  destruct (connect_outcome (sockets w)); unfold attaches, ws_on; cbn;
    rewrite <- ?app_assoc; eexists; (split; [reflexivity|]);
    repeat constructor; discriminate.
Qed.

Lemma spawn_attaches `{Env} (w : World) : attaches w (spawn w).2.
Proof. rewrite spawn_spec. exists []. cbn. now rewrite app_nil_r. Qed.

Lemma open_false_quiet `{Env} (w : World) : quiet w (open false w).2.
Proof.
  unfold open, try_catch. pose proof (request_quiet w) as Hq.
  destruct (request w) as [[c|err|] w1]; cbn in *; try exact Hq.
  now rewrite andb_false_r.
Qed.

Lemma open_attaches `{Env} (autoSpawn : bool) (w : World) :
  attaches w (open autoSpawn w).2.
Proof.
  unfold open, try_catch. pose proof (request_attaches w) as Ha.
  destruct (request w) as [[c|err|] w1]; cbn in *; try exact Ha.
  destruct (_ && _); [|exact Ha].
  unfold bind. pose proof (spawn_attaches w1) as Hs.
  destruct (spawn w1) as [[[]|err2|] w2]; cbn in *;
    try (eapply attaches_trans; [exact Ha | exact Hs]).
  eapply attaches_trans; [exact Ha|].
  eapply attaches_trans; [exact Hs | apply request_attaches].
Qed.

Lemma await_finally_world {A} (p : PromiseId) (g : jsresult -> A)
    (f : World -> World) (w : World) :
  (try_finally (v <- await p ;; ret (g v)) f w).2 = w
  \/ (try_finally (v <- await p ;; ret (g v)) f w).2 = f w.
Proof.
  unfold try_finally, bind, await, ret.
  destruct (crashed w); [now left|].
  destruct (promises w !! p) as [[[] ?]|]; cbn; auto.
Qed.

Lemma status_query_shape `{Runtime} `{Env} (ws : Conn) (w : World) :
  exists w1,
    steady (ws_on ws OnMessage (StatusMessage (length (promises w)))
              (new_promise None (ws_send ws (Status None) w)).2) w1
    /\ ((status_query ws w).2 = w1 \/ (status_query ws w).2 = ws_close ws w1).
Proof.
  unfold status_query, new_promise. cbv beta iota zeta. cbn [fst snd].
  match goal with
  | |- context [deliver_until_settled ?a ?b ?c ?d] =>
      set (w1 := deliver_until_settled a b c d);
      assert (Hd : steady d w1) by apply steady_deliver_until_settled
  end.
  match goal with
  | |- context [if ?c then w1 else ?e] =>
      set (w2 := if c then w1 else e);
      assert (Ht : steady w1 w2) by (subst w2; destruct c; auto with steady)
  end.
  exists w2. split; [|apply await_finally_world].
  eapply steady_trans; [exact Hd | exact Ht].
Qed.

Lemma status_query_quiet `{Runtime} `{Env} (ws : Conn) (w : World) :
  quiet w (status_query ws w).2.
Proof.
  destruct (status_query_shape ws w) as (w1 & Hs & Hw).
  assert (Hq : quiet w w1).
  { eapply quiet_trans; [|apply steady_quiet, Hs].
    unfold quiet, ws_on, ws_send, effect, emit_effects; cbn.
    repeat split. unfold count_forks. now rewrite omap_app, length_app, Nat.add_0_r. }
  destruct Hw as [-> | ->]; [exact Hq|].
  eapply quiet_trans; [exact Hq | apply steady_quiet, steady_ws_close].
Qed.

Lemma status_query_attaches `{Runtime} `{Env} (ws : Conn) (w : World) :
  attaches w (status_query ws w).2.
Proof.
  destruct (status_query_shape ws w) as (w1 & Hs & Hw).
  assert (Ha : attaches w w1).
  { eapply attaches_trans; [|apply steady_attaches, Hs].
    eexists. split; [reflexivity|]. repeat constructor. discriminate. }
  destruct Hw as [-> | ->]; [exact Ha|].
  eapply attaches_trans; [exact Ha | apply steady_attaches, steady_ws_close].
Qed.

Lemma status_quiet `{Runtime} `{Env} (w : World) : quiet w (status w).2.
Proof.
  unfold status. pose proof (open_false_quiet w) as Hq.
  destruct (open false w) as [[ws|err|] w1]; cbn in *; try exact Hq.
  - eapply quiet_trans; [exact Hq | apply status_query_quiet].
  - now destruct (is_ECONNREFUSED err).
Qed.

Lemma status_attaches `{Runtime} `{Env} (w : World) : attaches w (status w).2.
Proof.
  unfold status. pose proof (open_attaches false w) as Ha.
  destruct (open false w) as [[ws|err|] w1]; cbn in *; try exact Ha.
  - eapply attaches_trans; [exact Ha | apply status_query_attaches].
  - now destruct (is_ECONNREFUSED err).
Qed.

(** ** [status] *)

Lemma listeners_of_fresh (ws : Conn) (name : EventName) (ls : list (Conn * EventName * Listener)) :
  Forall (fun l : Conn * EventName * Listener => l.1.1 < ws) ls ->
  omap (fun '(c, n, l) =>
          if bool_decide (c = ws) && bool_decide (n = name) then Some l else None) ls = [].
Proof.
  induction 1 as [|[[c n] l] ls Hc _ IH]; [reflexivity|].
  cbn in *. rewrite IH. rewrite (bool_decide_eq_false_2 (c = ws)) by lia. reflexivity.
Qed.

Lemma emit_passes `{Runtime} `{Env} (ws : Conn) (p : PromiseId) (f : frame) (w : World) :
  listeners_of ws OnMessage w = [RequestMessage; StatusMessage p] ->
  passes w f ->
  emit ws (EvMessage f) w = w.
Proof.
  intros Hl Hf. unfold emit. cbn [event_name]. rewrite Hl. cbn.
  destruct f as [[]|]; cbn in Hf; try contradiction;
    destruct (crashed w) eqn:Hcr; cbn; try rewrite Hf; rewrite ?Hcr; reflexivity.
Qed.

Lemma deliver_passes `{Runtime} `{Env} (ws : Conn) (p : PromiseId)
    (frames : list frame) (w : World) :
  listeners_of ws OnMessage w = [RequestMessage; StatusMessage p] ->
  Forall (passes w) frames ->
  deliver_until_settled ws p frames w = w.
Proof.
  intros Hl. induction 1 as [|f frames Hf _ IH]; cbn; [reflexivity|].
  rewrite (emit_passes ws p f w Hl Hf), IH. now destruct (_ || _).
Qed.

(** With its socket open and only frames that pass coming in, [status]
    waits until the timer rejects its promise. *)
Lemma status_timeout `{Runtime} `{Env} (w : World) :
  connect_outcome (sockets w) = Fulfilled tt ->
  crashed w = false ->
  sockets_fresh w ->
  Forall (passes w) (frames_received (sockets w)) ->
  let ws := sockets w in
  let p := length (promises w) in
  let timeout := new_error ErrorK "Timeout reached" in
  (status w).1 = Rejected timeout
  /\ trace (status w).2 =
       trace w ++ [NewWebSocket (port w) ws; WsSend ws (Status None);
                   CallReject p timeout; WsClose ws].
Proof.
  intros Hc Hcr Hfresh Hframes ws p timeout.
  unfold status, open, try_catch. rewrite request_spec, Hc. cbn [fst snd].
  fold ws. set (w1 := ws_on ws OnMessage RequestMessage _).
  unfold status_query, new_promise. cbv beta iota zeta.
  set (w4 := ws_on ws OnMessage (StatusMessage _) _).
  assert (Hl : listeners_of ws OnMessage w4 = [RequestMessage; StatusMessage p]).
  { unfold listeners_of. subst w4 w1. cbn [listeners ws_on set_listeners ws_send effect
      emit_effects set_trace set_promises set_sockets].
    rewrite <- !app_assoc, omap_app, (listeners_of_fresh ws OnMessage _ Hfresh).
    cbn. rewrite bool_decide_eq_true_2 by reflexivity. reflexivity. }
  rewrite (deliver_passes ws _ _ w4 Hl Hframes).
  assert (Hp : promises w4 = promises w ++ [mkPromise Pending None]) by reflexivity.
  assert (Hcr4 : crashed w4 = false) by exact Hcr.
  assert (Hs : is_settled (length (promises w)) w4 = false).
  { unfold is_settled. rewrite Hp, lookup_app_r, Nat.sub_diag by lia. reflexivity. }
  change (length (promises (ws_send ws (Status None) w1))) with p in *.
  fold p in Hs. rewrite Hcr4, Hs. cbn [orb].
  unfold call_reject, settle_promise, effect, emit_effects.
  cbn [promises set_trace]. rewrite Hp, lookup_app_r, Nat.sub_diag by (subst p; lia).
  cbn [lookup list_lookup].
  unfold try_finally, bind, await, ret.
  cbn [crashed set_promises set_trace promises]. rewrite Hcr4.
  rewrite list_lookup_insert_eq by (rewrite length_app; cbn; subst p; lia).
  cbn. split; [reflexivity|].
  rewrite <- !app_assoc. reflexivity.
Qed.

(** C6.  [status] never forks a child.  When its connection attempt is
    refused it returns [null] after that single attempt; any other failure
    of the attempt is passed on.  When the socket opens and, during the
    3000ms of the timer, no [status] reply comes in (the frames that do come
    in being JSON the socket does not react to), it fails with the error
    [Timeout reached], which is not the [null] answer, after closing the
    socket. *)
Theorem status_policy `{Runtime} `{Env} (w : World) :
  let r := (status w).1 in
  let w' := (status w).2 in
  (children w' = children w /\ count_forks (trace w') = count_forks (trace w))
  /\ (forall err, connect_outcome (sockets w) = Rejected err ->
        trace w' = trace w ++ [NewWebSocket (port w) (sockets w)]
        /\ (is_ECONNREFUSED err = true -> r = Fulfilled Null)
        /\ (is_ECONNREFUSED err = false -> r = Rejected err))
  /\ (connect_outcome (sockets w) = Fulfilled tt ->
      crashed w = false ->
      sockets_fresh w ->
      Forall (passes w) (frames_received (sockets w)) ->
        r = Rejected (new_error ErrorK "Timeout reached")
        /\ r <> Fulfilled Null
        /\ trace w' =
             trace w ++ [NewWebSocket (port w) (sockets w);
                         WsSend (sockets w) (Status None);
                         CallReject (length (promises w))
                           (new_error ErrorK "Timeout reached");
                         WsClose (sockets w)]).
Proof.
  intros r w'. split; [|split].
  - destruct (status_quiet w) as (_ & Hc & Hf). now split.
  - intros err Hc. subst r w'.
    unfold status, open, try_catch. rewrite request_spec, Hc. cbn [fst snd].
    rewrite andb_false_r. unfold throw.
    destruct (is_ECONNREFUSED err); cbn; repeat split; discriminate.
  - intros Hc Hcr Hfresh Hframes.
    destruct (status_timeout w Hc Hcr Hfresh Hframes) as [Hr Ht].
    subst r w'. rewrite Hr. repeat split; [discriminate | exact Ht].
Qed.

(** No daemon listens: [status] answers [null].  The host does not answer:
    the failure is passed on.  A daemon accepts the connection but only
    sends a frame of command output: [status] times out. *)
Lemma status_policy_witness :
  let absent := Scenario.client (fun _ => Rejected Scenario.ECONNREFUSED)
                  (fun _ => Fulfilled tt) (fun _ => 7%Z) (fun _ => []) in
  let unreachable := Scenario.client (fun _ => Rejected Scenario.ETIMEDOUT)
                  (fun _ => Fulfilled tt) (fun _ => 7%Z) (fun _ => []) in
  let silent := Scenario.client (fun _ => Fulfilled tt)
                  (fun _ => Fulfilled tt) (fun _ => 7%Z)
                  (fun _ => [Json (Stdout "aGk=")]) in
  (status (H := Scenario.engine) (H0 := absent) (new_Daemon 6532)).1 = Fulfilled Null
  /\ (status (H := Scenario.engine) (H0 := unreachable) (new_Daemon 6532)).1
     = Rejected Scenario.ETIMEDOUT
  /\ (status (H := Scenario.engine) (H0 := silent) (new_Daemon 6532)).1
     = Rejected (new_error (H := Scenario.engine) ErrorK "Timeout reached").
Proof.
  intros absent unreachable silent. split; [|split].
  - destruct (status_policy (H := Scenario.engine) (H0 := absent) (new_Daemon 6532))
      as (_ & Hrefused & _).
    destruct (Hrefused Scenario.ECONNREFUSED eq_refl) as (_ & Hnull & _).
    exact (Hnull eq_refl).
  - destruct (status_policy (H := Scenario.engine) (H0 := unreachable) (new_Daemon 6532))
      as (_ & Hfailed & _).
    destruct (Hfailed Scenario.ETIMEDOUT eq_refl) as (_ & _ & Hother).
    exact (Hother eq_refl).
  - destruct (status_policy (H := Scenario.engine) (H0 := silent) (new_Daemon 6532))
      as (_ & _ & Htimeout).
    apply Htimeout.
    + reflexivity.
    + reflexivity.
    + constructor.
    + repeat constructor.
Defined.

(** When the reply does come in, [status] returns its [version] field. *)
Example status_running :
  let running := Scenario.client (fun _ => Fulfilled tt)
                   (fun _ => Fulfilled tt) (fun _ => 7%Z)
                   (fun _ => [Json (Status (Some "1.0.0"))]) in
  let run := status (H := Scenario.engine) (H0 := running) (new_Daemon 6532) in
  run.1 = Fulfilled (VersionField (Some "1.0.0"))
  /\ trace run.2 = [NewWebSocket 6532 0; WsSend 0 (Status None);
                    CallResolve 0 (Version (Some "1.0.0")); WsClose 0].
Proof. split; reflexivity. Qed.

(** ** [restart] inside the daemon *)

Lemma stop_quiet `{Runtime} `{Env} (w : World) : quiet w (stop w).2.
Proof.
  unfold stop. destruct isInsideDaemon.
  - unfold do, wss_close; cbn. destruct (wss w); apply steady_quiet; auto with steady.
  - pose proof (open_false_quiet w) as Hq.
    destruct (open false w) as [[ws|err|] w1]; cbn in *; try exact Hq.
    + eapply quiet_trans; [exact Hq|]. apply steady_quiet. repeat steady_step.
    + now destruct (is_ECONNREFUSED err).
Qed.

Lemma runExit_quiet `{Runtime} `{Env} (w : World) : quiet w (runExit w).2.
Proof.
  unfold runExit. destruct isInsideDaemon; cbn.
  - destruct (wss w); cbn; [apply quiet_refl|].
    unfold quiet; cbn. repeat split.
    unfold count_forks. now rewrite omap_app, length_app, Nat.add_0_r.
  - apply steady_quiet. now apply steady_effect.
Qed.

(** Inside the daemon, [start] and [send] throw at once. *)
Lemma start_inside `{Runtime} `{Env} (w : World) :
  isInsideDaemon = true -> (start w).2 = w.
Proof. intros Hin. unfold start. now rewrite Hin. Qed.

Lemma send_inside `{Runtime} `{Env} (fuel : nat) (data : jsval) (autoSpawn : bool)
    (w : World) :
  isInsideDaemon = true -> (send fuel data autoSpawn w).2 = w.
Proof. intros Hin. unfold send, send_begin, bind. now rewrite Hin. Qed.

(** Inside the daemon, a call of [restart] that finds the guard unset sets
    it, closes the server if there is one, and forks. *)
Lemma restart_first `{Runtime} `{Env} (w : World) :
  isInsideDaemon = true ->
  rebootInProgress w = false ->
  rebootInProgress (restart w).2 = true
  /\ trace (restart w).2
     = trace w ++ match wss w with Some _ => [ServerClose] | None => [] end ++ [Fork]
  /\ children (restart w).2 = S (children w).
Proof.
  intros Hin Hg. unfold restart. rewrite Hin, Hg. cbn [negb].
  rewrite spawn_spec. unfold wss_close. cbn [snd wss set_rebootInProgress].
  destruct (wss w); cbn; rewrite <- ?app_assoc; now repeat split.
Qed.

Lemma restart_later `{Runtime} `{Env} (w : World) :
  isInsideDaemon = true ->
  rebootInProgress w = true ->
  restart w = (Fulfilled tt, w).
Proof. intros Hin Hg. unfold restart. now rewrite Hin, Hg. Qed.

(** Once the guard is set, no step of the daemon forks or clears it. *)
Lemma daemon_step_guarded `{Runtime} `{Env} (s : DaemonStep) (w : World) :
  isInsideDaemon = true ->
  rebootInProgress w = true ->
  quiet w (daemon_step s w).
Proof.
  intros Hin Hg. unfold daemon_step. destruct (crashed w); [apply quiet_refl|].
  destruct s.
  - apply runExit_quiet.
  - rewrite (restart_later w Hin Hg). apply quiet_refl.
  - apply stop_quiet.
  - apply status_quiet.
  - rewrite (start_inside w Hin). apply quiet_refl.
  - rewrite (send_inside fuel data autoSpawn w Hin). apply quiet_refl.
  - apply steady_quiet, steady_server_event.
Qed.

Lemma daemon_run_guarded `{Runtime} `{Env} (steps : list DaemonStep) (w : World) :
  isInsideDaemon = true ->
  rebootInProgress w = true ->
  quiet w (daemon_run steps w).
Proof.
  intros Hin. revert w. induction steps as [|s steps IH]; intros w Hg; cbn.
  - apply quiet_refl.
  - pose proof (daemon_step_guarded s w Hin Hg) as Hq.
    eapply quiet_trans; [exact Hq|]. apply IH.
    destruct Hq as (-> & _). exact Hg.
Qed.

(** Whatever the daemon does, starting with the guard unset, at most one
    child is forked. *)
Lemma daemon_run_forks_once `{Runtime} `{Env} (steps : list DaemonStep) (w : World) :
  isInsideDaemon = true ->
  rebootInProgress w = false ->
  count_forks (trace (daemon_run steps w)) <= count_forks (trace w) + 1.
Proof.
  intros Hin. revert w. induction steps as [|s steps IH]; intros w Hg; cbn; [lia|].
  assert (Hstep : quiet w (daemon_step s w)
                  \/ (s = CallRestart /\ crashed w = false)).
  { unfold daemon_step. destruct (crashed w); [left; apply quiet_refl|].
    destruct s; [left; apply runExit_quiet | right; now split | left; apply stop_quiet
                | left; apply status_quiet
                | left; rewrite (start_inside w Hin); apply quiet_refl
                | left; rewrite (send_inside fuel data autoSpawn w Hin); apply quiet_refl
                | left; apply steady_quiet, steady_server_event]. }
  destruct Hstep as [(Hg' & _ & Hf) | [-> Hcr]].
  - rewrite <- Hf. apply IH. congruence.
  - unfold daemon_step at 2. rewrite Hcr.
    destruct (restart_first w Hin Hg) as (Hg' & Ht & _).
    destruct (daemon_run_guarded steps (restart w).2 Hin Hg') as (_ & _ & Hf).
    unfold daemon_run in Hf. rewrite Hf, Ht, !count_forks_app.
    destruct (wss w); cbn; lia.
Qed.

(** C7.  Inside the daemon: a call of [restart] that finds the guard unset
    sets it, closes the listening server if there is one and forks exactly
    one child, all of it before the call first waits (the world below is the
    one in which it awaits the child, whether or not the child ever
    answers); a call that finds the guard set does nothing.  No step of the
    daemon clears the guard or forks once it is set, so a run of the daemon
    that starts with the guard unset forks at most one child, and any
    number of [restart] calls in a row amounts to the first of them. *)
Theorem restart_spawns_one_successor `{Runtime} `{Env} :
  isInsideDaemon = true ->
  (forall w, rebootInProgress w = false ->
     rebootInProgress (restart w).2 = true
     /\ trace (restart w).2
        = trace w ++ match wss w with Some _ => [ServerClose] | None => [] end ++ [Fork]
     /\ children (restart w).2 = S (children w))
  /\ (forall w, rebootInProgress w = true -> restart w = (Fulfilled tt, w))
  /\ (forall steps w, rebootInProgress w = true ->
        rebootInProgress (daemon_run steps w) = true
        /\ count_forks (trace (daemon_run steps w)) = count_forks (trace w))
  /\ (forall steps w, rebootInProgress w = false ->
        count_forks (trace (daemon_run steps w)) <= count_forks (trace w) + 1)
  /\ (forall n w, rebootInProgress w = false -> crashed w = false ->
        daemon_run (replicate (S n) CallRestart) w = (restart w).2).
Proof.
  intros Hin. split; [|split; [|split; [|split]]].
  - intros w Hg. now apply restart_first.
  - intros w Hg. now apply restart_later.
  - intros steps w Hg.
    destruct (daemon_run_guarded steps w Hin Hg) as (Hg' & _ & Hf).
    split; congruence.
  - intros steps w Hg. now apply daemon_run_forks_once.
  - intros n w Hg Hcr. cbn. unfold daemon_step at 2. rewrite Hcr.
    destruct (restart_first w Hin Hg) as (Hg' & _).
    assert (Hcr' : crashed (restart w).2 = false).
    { unfold restart. rewrite Hin, Hg. cbn [negb]. rewrite spawn_spec.
      unfold wss_close. cbn. now destruct (wss w). }
    generalize dependent (restart w).2. clear w Hg Hcr.
    induction n as [|n IH]; intros w Hg Hcr; cbn; [reflexivity|].
    unfold daemon_step at 2. rewrite Hcr, (restart_later w Hin Hg). cbn.
    now apply IH.
Qed.

(** A daemon listening on port 6532 receives three [restart] requests; its
    successor never answers.  One child is forked. *)
Lemma restart_spawns_one_successor_witness :
  let env := Scenario.worker (Some "1.0.0") (fun _ => Pending)
               (fun _ => Fulfilled tt) Scenario.command in
  let w := (runExit (H := Scenario.engine) (H0 := env) (new_Daemon 6532)).2 in
  trace (daemon_run (H := Scenario.engine) (H0 := env)
           [CallRestart; CallRestart; CallRestart] w)
  = [NewWebSocketServer 6532; ServerClose; Fork].
Proof.
  intros env w.
  destruct (restart_spawns_one_successor (H := Scenario.engine) (H0 := env) eq_refl)
    as (Hfirst & _ & _ & _ & Hcalls).
  destruct (Hfirst w eq_refl) as (_ & Htrace & _).
  exact (eq_trans (f_equal trace (Hcalls 2 w eq_refl eq_refl)) Htrace).
Defined.

(** ** Disconnect hooks *)

Lemma hook_calls_app (l1 l2 : list Effect) :
  hook_calls (l1 ++ l2) = hook_calls l1 ++ hook_calls l2.
Proof. apply omap_app. Qed.

Lemma hook_calls_map (hs : list Hook) : hook_calls (map CallHook hs) = hs.
Proof. induction hs as [|h hs IH]; cbn; [reflexivity | now f_equal]. Qed.

Lemma add_NoDup {A} `{EqDecision A} (x : A) (s : list A) :
  NoDup s -> NoDup (JsSet.add x s).
Proof.
  intros Hs. unfold JsSet.add. destruct (decide (x ∈ s)) as [|Hx]; [exact Hs|].
  apply NoDup_app. split; [exact Hs|]. split.
  - intros y Hy ->%list_elem_of_singleton. now apply Hx.
  - apply NoDup_singleton.
Qed.

(** A loop over callbacks that all fulfil calls each of them. *)
Lemma for_of_await_fulfilled {A E} (call : A -> settle E unit) (s : list A) :
  Forall (fun fn => call fn = Fulfilled tt) s ->
  JsSet.for_of_await call s = (s, JsSet.Completed).
Proof.
  induction 1 as [|fn s Hfn _ IH]; cbn; [reflexivity|]. now rewrite Hfn, IH.
Qed.

(** A loop stops at the first callback that does not fulfil. *)
Lemma for_of_await_stops {A E} (call : A -> settle E unit) (before after : list A) (fn : A) :
  Forall (fun fn => call fn = Fulfilled tt) before ->
  JsSet.for_of_await call (before ++ fn :: after) =
    match call fn with
    | Fulfilled _ =>
        (before ++ fn :: (JsSet.for_of_await call after).1,
         (JsSet.for_of_await call after).2)
    | Rejected err => (before ++ [fn], JsSet.Aborted err)
    | Pending => (before ++ [fn], JsSet.Blocked)
    end.
Proof.
  induction 1 as [|x before Hx _ IH]; cbn.
  - destruct (call fn); [|reflexivity|reflexivity].
    now destruct (JsSet.for_of_await call after).
  - rewrite Hx, IH. now destruct (call fn).
Qed.

Lemma for_of_await_prefix {A E} (call : A -> settle E unit) (s : list A) :
  (JsSet.for_of_await call s).1 `prefix_of` s.
Proof.
  induction s as [|fn s IH]; cbn; [reflexivity|].
  destruct (call fn).
  - destruct (JsSet.for_of_await call s) as [started e]. cbn in *.
    now apply prefix_cons.
  - apply (prefix_cons fn [] s), prefix_nil.
  - apply (prefix_cons fn [] s), prefix_nil.
Qed.

(** The shape of the world after a socket of the daemon has closed. *)
Lemma on_socket_close_spec `{Env} (ws : Conn) (s : Session) (w : World) :
  sessions w !! ws = Some s ->
  let loop := JsSet.for_of_await hook_outcome (onClientDisconnect s) in
  sessions (on_socket_close ws w)
    = <[ws := mkSession false (onClientDisconnect s)]> (sessions w)
  /\ trace (on_socket_close ws w)
     = trace w ++ ClientStatusConnected ws false :: map CallHook loop.1
         ++ match loop.2 with
            | JsSet.Completed => [ResolveRunExit]
            | JsSet.Aborted _ => [Uncaught]
            | JsSet.Blocked => []
            end.
Proof.
  intros Hs loop. unfold on_socket_close, run_hooks. rewrite Hs. fold loop.
  destruct loop as [started []]; cbn; rewrite <- ?app_assoc, ?app_nil_r; now split.
Qed.

(** The [onClientDisconnect] sets stay duplicate-free. *)
Lemma add_hooks_NoDup (ws c : Conn) (fns : list Hook) (s : Session) (w : World) :
  (forall c s, sessions w !! c = Some s -> NoDup (onClientDisconnect s)) ->
  sessions (add_hooks ws fns w) !! c = Some s ->
  NoDup (onClientDisconnect s).
Proof.
  intros Hw. unfold add_hooks. cbn. rewrite lookup_alter.
  destruct (decide (ws = c)) as [->|]; [|apply Hw].
  destruct (sessions w !! c) as [s0|] eqn:Hs0; [|discriminate].
  intros [= <-]. cbn. specialize (Hw c s0 Hs0). clear Hs0.
  revert Hw. generalize (onClientDisconnect s0).
  induction fns as [|fn fns IH]; intros l Hl; cbn; [exact Hl|].
  apply IH. now apply add_NoDup.
Qed.

(** C8, as the code has it.  When a socket of the daemon closes, the flag
    [connected] of its session is cleared first; then the hooks of its
    [onClientDisconnect] set are called in insertion order, each one only
    after the previous one has fulfilled.  If they all fulfil, each hook of
    the set has been called exactly once and the promise of [runExit] is
    resolved.  If one of them rejects or never settles, it is the last hook
    called: those after it in the set are not called at all. *)
Theorem disconnect_hooks_in_order `{Env} (ws : Conn) (s : Session) (w : World) :
  sessions w !! ws = Some s ->
  NoDup (onClientDisconnect s) ->
  let hooks := onClientDisconnect s in
  let w' := on_socket_close ws w in
  connected <$> (sessions w' !! ws) = Some false
  /\ (exists started rest,
        started `prefix_of` hooks
        /\ hook_calls rest = []
        /\ trace w' = trace w ++ ClientStatusConnected ws false
                        :: map CallHook started ++ rest)
  /\ (Forall (fun fn => hook_outcome fn = Fulfilled tt) hooks ->
        trace w' = trace w ++ ClientStatusConnected ws false
                     :: map CallHook hooks ++ [ResolveRunExit]
        /\ forall fn, fn ∈ hooks ->
             exists l1 l2, hooks = l1 ++ fn :: l2 /\ (fn ∉ l1) /\ (fn ∉ l2))
  /\ (forall before fn after,
        hooks = before ++ fn :: after ->
        Forall (fun fn => hook_outcome fn = Fulfilled tt) before ->
        hook_outcome fn <> Fulfilled tt ->
        hook_calls (trace w') = hook_calls (trace w) ++ before ++ [fn]
        /\ ResolveRunExit ∉ drop (length (trace w)) (trace w')).
Proof.
  intros Hs Hnd hooks w'.
  destruct (on_socket_close_spec ws s w Hs) as [Hsess Htrace].
  fold w' hooks in Hsess, Htrace.
  split; [|split; [|split]].
  - rewrite Hsess, lookup_insert_eq. reflexivity.
  - refine (ex_intro _ _ (ex_intro _ _ (conj _ (conj _ Htrace)))).
    + apply for_of_await_prefix.
    + now destruct (JsSet.for_of_await hook_outcome hooks).2.
  - intros Hall. rewrite (for_of_await_fulfilled _ _ Hall) in Htrace. split; [exact Htrace|].
    intros fn (l1 & l2 & Heq)%list_elem_of_split. exists l1, l2. split; [exact Heq|].
    fold hooks in Hnd. rewrite Heq in Hnd.
    apply NoDup_app in Hnd as (_ & Hdisj & Hnd2).
    apply NoDup_cons in Hnd2 as [Hfn _]. split; [|exact Hfn].
    intros Hin. apply (Hdisj fn Hin). now left.
  - intros before fn after Heq Hbefore Hfn.
    rewrite Heq, (for_of_await_stops _ _ _ _ Hbefore) in Htrace.
    destruct (hook_outcome fn) as [[]| |]; [congruence| |]; cbn [fst snd] in Htrace;
      rewrite Htrace, drop_app_length; split;
      try (rewrite hook_calls_app; cbn; rewrite hook_calls_app, hook_calls_map, ?app_nil_r;
           reflexivity).
    + intros Hin. apply list_elem_of_In in Hin. cbn in Hin. destruct Hin as [|Hin]; [discriminate|].
      apply in_app_or in Hin as [Hin|[|[]]]; [|discriminate].
      apply in_map_iff in Hin as (? & ? & _). discriminate.
    + intros Hin. apply list_elem_of_In in Hin. cbn in Hin. destruct Hin as [|Hin]; [discriminate|].
      apply in_app_or in Hin as [Hin|[]].
      apply in_map_iff in Hin as (? & ? & _). discriminate.
Qed.

(** A client runs a command that registers hooks 1 and 2, then goes away:
    both hooks are called, in that order, after the flag is cleared. *)
Lemma disconnect_hooks_in_order_witness :
  let env := Scenario.worker (Some "1.0.0") (fun _ => Pending)
               (fun _ => Fulfilled tt) Scenario.command in
  let w := daemon_run (H := Scenario.engine) (H0 := env)
             [CallRunExit; Server (Connection 0);
              Server (SocketMessage 0
                        (Json (Cli Scenario.argv (Some "1.0.0") Scenario.context)))]
             (new_Daemon 6532) in
  trace (on_socket_close (H := env) 0 w)
  = trace w ++ [ClientStatusConnected 0 false; CallHook 1; CallHook 2; ResolveRunExit].
Proof.
  intros env w.
  assert (Hnd : NoDup [1; 2]).
  { apply NoDup_cons. split; [|apply NoDup_singleton].
    intros Hin%list_elem_of_singleton. discriminate. }
  destruct (disconnect_hooks_in_order (H := env) 0 (mkSession true [1; 2]) w
              eq_refl Hnd) as (_ & _ & Hall & _).
  destruct (Hall ltac:(repeat constructor)) as [Htrace _].
  exact Htrace.
Defined.

(** C8 as stated does not hold: the same client, but hook 1 rejects.  Hook
    2, registered in the same set, is never called. *)
Lemma disconnect_hook_failure_skips_the_rest :
  let boom := ThrownError (mkError ErrorK "boom" None) in
  let env := Scenario.worker (Some "1.0.0") (fun _ => Pending)
               (fun h => if Nat.eqb h 1 then Rejected boom else Fulfilled tt)
               Scenario.command in
  let w := daemon_run (H := Scenario.engine) (H0 := env)
             [CallRunExit; Server (Connection 0);
              Server (SocketMessage 0
                        (Json (Cli Scenario.argv (Some "1.0.0") Scenario.context)))]
             (new_Daemon 6532) in
  let w' := on_socket_close (H := env) 0 w in
  sessions w !! 0 = Some (mkSession true [1; 2])
  /\ trace w' = trace w ++ [ClientStatusConnected 0 false; CallHook 1; Uncaught]
  /\ CallHook 2 ∉ trace w'.
Proof.
  intros boom env w w'. split; [reflexivity|]. split; [reflexivity|].
  intros Hin. apply list_elem_of_In in Hin. vm_compute in Hin.
  repeat (destruct Hin as [Hin|Hin]; [discriminate|]). exact Hin.
Qed.

(** ** The client's table of pending requests *)

Lemma attaches_bind {A B} (m : Async A) (k : A -> Async B) (w : World) :
  attaches w (m w).2 ->
  (forall a w1, attaches w1 (k a w1).2) ->
  attaches w (bind m k w).2.
Proof.
  intros Hm Hk. unfold bind. specialize (Hk).
  destruct (m w) as [[a|err|] w1]; cbn in *; try exact Hm.
  eapply attaches_trans; [exact Hm | apply Hk].
Qed.

Lemma start_attaches `{Runtime} `{Env} (w : World) : attaches w (start w).2.
Proof.
  unfold start. destruct isInsideDaemon; [apply attaches_refl|].
  apply attaches_bind; [apply open_attaches|].
  intros ws w1. apply steady_attaches, steady_ws_close.
Qed.

Lemma stop_attaches `{Runtime} `{Env} (w : World) : attaches w (stop w).2.
Proof.
  unfold stop. destruct isInsideDaemon.
  - unfold do, wss_close; cbn. destruct (wss w); apply steady_attaches; auto with steady.
  - pose proof (open_attaches false w) as Ha.
    destruct (open false w) as [[ws|err|] w1]; cbn in *; try exact Ha.
    now destruct (is_ECONNREFUSED err).
Qed.

Lemma restart_attaches `{Runtime} `{Env} (w : World) : attaches w (restart w).2.
Proof.
  unfold restart. destruct isInsideDaemon.
  - destruct (rebootInProgress w); cbn [negb]; [apply attaches_refl|].
    eapply attaches_trans; [|apply spawn_attaches].
    unfold wss_close. cbn. destruct (wss w); exists []; cbn; now rewrite app_nil_r.
  - apply attaches_bind; [apply stop_attaches | intros; apply start_attaches].
Qed.

Lemma steady_allocate `{Env} (fuel : nat) (w : World) : steady w (allocate fuel w).2.
Proof.
  revert w. induction fuel as [|fuel IH]; intros w; cbn; [apply steady_refl|].
  destruct (bool_decide _).
  - eapply steady_trans; [|apply IH]. now repeat split.
  - now repeat split.
Qed.

Lemma steady_send_then (id : Z) (s : SetRef) (data : jsval) (ws : Conn) (w : World) :
  steady w (send_then id s data ws w).2.
Proof. unfold send_then, new_promise. cbn. repeat steady_step. Qed.

Lemma request_start_attaches (w : World) : attaches w (request_start w).2.
Proof.
  unfold request_start, attaches, ws_on. cbn. rewrite <- ?app_assoc.
  eexists. split; [reflexivity|]. repeat constructor; discriminate.
Qed.

Lemma request_finish_attaches `{Env} (ws : Conn) (w : World) :
  attaches w (request_finish ws w).2.
Proof.
  unfold request_finish.
  destruct (connect_outcome ws); cbn; try apply attaches_refl.
  eexists. split; [reflexivity|]. repeat constructor. discriminate.
Qed.

Lemma send_attaches `{Runtime} `{Env} (fuel : nat) (data : jsval) (autoSpawn : bool)
    (w : World) :
  attaches w (send fuel data autoSpawn w).2.
Proof.
  unfold send. apply attaches_bind.
  - unfold send_begin. destruct isInsideDaemon; [apply attaches_refl|].
    pose proof (steady_allocate fuel w) as Hs.
    destruct (allocate fuel w) as [[id|] w1]; cbn in *; apply steady_attaches; [|exact Hs].
    eapply steady_trans; [exact Hs|]. now repeat split.
  - intros [id s] w1. apply request_start_attaches.
Qed.

Lemma open_finish_attaches `{Env} (autoSpawn : bool) (ws : Conn) (w : World) :
  attaches w (open_finish autoSpawn ws w).2.
Proof.
  unfold open_finish, try_catch.
  pose proof (request_finish_attaches ws w) as Ha.
  destruct (request_finish ws w) as [[c|err|] w1]; cbn in *; try exact Ha.
  destruct (_ && _); [|exact Ha].
  unfold bind. pose proof (spawn_attaches w1) as Hs.
  destruct (spawn w1) as [[[]|err2|] w2]; cbn in *;
    try (eapply attaches_trans; [exact Ha | exact Hs]).
  eapply attaches_trans; [exact Ha|].
  eapply attaches_trans; [exact Hs | apply request_attaches].
Qed.

Lemma send_opened_attaches `{Env} (id : Z) (s : SetRef) (data : jsval)
    (autoSpawn : bool) (ws : Conn) (w : World) :
  attaches w (send_opened id s data autoSpawn ws w).2.
Proof.
  unfold send_opened. apply attaches_bind; [apply open_finish_attaches|].
  intros ws' w2. pose proof (steady_send_then id s data ws' w2) as Hs.
  destruct (send_then id s data ws' w2) as [done w3]. cbn in *.
  now apply steady_attaches.
Qed.

Lemma register_attaches `{Runtime} `{Env} (args context : jsval)
    (version : option string) (w : World) :
  attaches w (register (ret (Code 0)) args context version w).2.
Proof.
  unfold register. destruct isInsideDaemon; [apply attaches_refl|].
  apply attaches_bind; [apply open_attaches|].
  intros ws w1. unfold new_promise, await. cbv beta iota zeta.
  match goal with
  | |- context [deliver_until_settled ?a ?b ?c ?d] =>
      pose proof (steady_deliver_until_settled a b c d) as Hd;
      set (w2 := deliver_until_settled a b c d) in *;
      assert (Ha : attaches w1 d)
  end.
  { eexists. split; [reflexivity|]. repeat constructor. discriminate. }
  assert (Hw2 : attaches w1 w2)
    by (eapply attaches_trans; [exact Ha | apply steady_attaches, Hd]).
  destruct (crashed w2); [exact Hw2|].
  now destruct (promises w2 !! _).
Qed.

Lemma client_step_attaches `{Runtime} `{Env} (s : ClientStep) (w : World) :
  attaches w (client_step s w).
Proof.
  unfold client_step. destruct (crashed w); [apply attaches_refl|].
  destruct s.
  - apply status_attaches.
  - apply start_attaches.
  - apply stop_attaches.
  - apply restart_attaches.
  - apply send_attaches.
  - destruct (bool_decide _); [apply send_opened_attaches | apply attaches_refl].
  - apply register_attaches.
  - apply steady_attaches. unfold onMessage_add. now repeat split.
  - apply steady_attaches, steady_emit.
Qed.

(** No client ever listens to the ['close'] event of a socket. *)
Lemma client_run_no_close_listener `{Runtime} `{Env} (steps : list ClientStep) (w : World) :
  Forall not_on_close (listeners w) ->
  Forall not_on_close (listeners (client_run steps w)).
Proof.
  revert w. induction steps as [|s steps IH]; intros w Hw; cbn; [exact Hw|].
  apply IH. destruct (client_step_attaches s w) as (new & -> & Hnew).
  now apply Forall_app.
Qed.

Lemma emit_close_without_listener `{Runtime} `{Env} (ws : Conn) (w : World) :
  Forall not_on_close (listeners w) ->
  emit ws EvClose w = w.
Proof.
  intros Hw. unfold emit, listeners_of. cbn [event_name].
  replace (omap _ (listeners w)) with (@nil Listener); [reflexivity|].
  symmetry. induction Hw as [|[[c n] l] ls Hn _ IH]; [reflexivity|].
  cbn. rewrite IH. unfold not_on_close in Hn. cbn in Hn.
  rewrite (bool_decide_eq_false_2 (n = OnClose)) by exact Hn.
  now rewrite andb_false_r.
Qed.

(** C3, as the code has it.  Whatever a client has done so far (calls of
    its methods, connections of earlier [send]s opening, callbacks added,
    events of its sockets), a ['close'] event on any of its sockets changes
    nothing: no listener is attached to that event, so every entry of
    [this.messages] stays where it is, neither of its callbacks is called
    and every promise stays in the state it was in. *)
Theorem close_leaves_pending_requests `{Runtime} `{Env}
    (steps : list ClientStep) (port : Z) (ws : Conn) :
  let w := client_run steps (new_Daemon port) in
  let w' := emit ws EvClose w in
  w' = w
  /\ (forall id, messages w' !! id = messages w !! id)
  /\ settle_calls (trace w') = settle_calls (trace w)
  /\ (forall p, (await p w').1 = (await p w).1).
Proof.
  intros w w'. assert (Hw : w' = w).
  { apply emit_close_without_listener, client_run_no_close_listener. constructor. }
  rewrite Hw. repeat split.
Qed.

(** C3 as stated does not hold: a client sends a request, which gets id 7
    and socket 0; the connection opens and the request is registered; the
    socket then closes.  The entry is still in the table, [reject] has not
    been called and the promise behind [done] is still pending. *)
Lemma pending_request_survives_close :
  let env := Scenario.client (fun _ => Fulfilled tt) (fun _ => Fulfilled tt)
               (fun _ => 7%Z) (fun _ => []) in
  let w := client_run (H := Scenario.engine) (H0 := env)
             [DoSend 1 (JsVal "42") false; SendOpened 7 0 (JsVal "42") false 0]
             (new_Daemon 6532) in
  let w' := emit (H := Scenario.engine) (H0 := env) 0 EvClose w in
  trace w = [NewWebSocket 6532 0; WsSend 0 (Message 7 (JsVal "42"))]
  /\ messages w !! 7%Z = Some (mkEntry 0 0 0)
  /\ messages w' !! 7%Z = Some (mkEntry 0 0 0)
  /\ settle_calls (trace w') = []
  /\ (await 0 w').1 = Pending.
Proof. vm_compute. repeat split. Qed.

(** *** Terminal frames and the table *)

Lemma settle_calls_app (l1 l2 : list Effect) :
  settle_calls (l1 ++ l2) = settle_calls l1 ++ settle_calls l2.
Proof. apply omap_app. Qed.

Lemma settle_promise_spec (p : PromiseId) r (w : World) :
  messages (settle_promise p r w) = messages w
  /\ crashed (settle_promise p r w) = crashed w
  /\ length (promises (settle_promise p r w)) = length (promises w)
  /\ settle_calls (trace (settle_promise p r w)) = settle_calls (trace w).
Proof.
  unfold settle_promise.
  destruct (promises w !! p) as [[[] [c|]]|]; cbn;
    rewrite ?length_insert, ?settle_calls_app, ?app_nil_r; repeat split.
Qed.

Lemma call_resolve_spec (p : PromiseId) v (w : World) :
  messages (call_resolve p v w) = messages w
  /\ crashed (call_resolve p v w) = crashed w
  /\ length (promises (call_resolve p v w)) = length (promises w)
  /\ settle_calls (trace (call_resolve p v w)) = settle_calls (trace w) ++ [p].
Proof.
  unfold call_resolve.
  destruct (settle_promise_spec p (Fulfilled v) (effect (CallResolve p v) w))
    as (-> & -> & -> & ->).
  cbn. rewrite settle_calls_app. repeat split.
Qed.

Lemma call_reject_spec (p : PromiseId) e (w : World) :
  messages (call_reject p e w) = messages w
  /\ crashed (call_reject p e w) = crashed w
  /\ length (promises (call_reject p e w)) = length (promises w)
  /\ settle_calls (trace (call_reject p e w)) = settle_calls (trace w) ++ [p].
Proof.
  unfold call_reject.
  destruct (settle_promise_spec p (Rejected e) (effect (CallReject p e) w))
    as (-> & -> & -> & ->).
  cbn. rewrite settle_calls_app. repeat split.
Qed.

Lemma settle_calls_streams (fns : list Hook) (data : jsval) :
  settle_calls (map (fun fn => CallStream fn data) fns) = [].
Proof. induction fns as [|fn fns IH]; [reflexivity | exact IH]. Qed.

(** A frame that is not a terminal frame for a pending id leaves the table
    alone and calls neither [resolve] nor [reject]. *)
Lemma request_on_message_other `{Runtime} `{Env} (f : frame) (w : World) :
  match JSON_parse f with
  | Some (MessageResolve id _) | Some (MessageReject id _) => messages w !! id = None
  | _ => True
  end ->
  messages (request_on_message f w) = messages w
  /\ promises (request_on_message f w) = promises w
  /\ settle_calls (trace (request_on_message f w)) = settle_calls (trace w).
Proof.
  unfold request_on_message.
  destruct (JSON_parse f) as [[]|]; intros Hf; try (now repeat split).
  - destruct (messages w !! id); [|now repeat split].
    destruct (JsSet.for_of_await _ _) as [started []]; cbn;
      rewrite !settle_calls_app, settle_calls_streams, ?app_nil_r; now repeat split.
  - rewrite Hf. now repeat split.
  - rewrite Hf. now repeat split.
  - cbn. rewrite settle_calls_app, app_nil_r. now repeat split.
  - cbn. rewrite settle_calls_app, app_nil_r. now repeat split.
Qed.

(** A terminal frame for a pending id removes the entry, then calls the
    matching callback of the entry, once. *)
Lemma request_on_message_resolve `{Runtime} `{Env} (id : Z) (data : jsval)
    (m : Entry) (w : World) :
  messages w !! id = Some m ->
  let w' := request_on_message (Json (MessageResolve id data)) w in
  w' = call_resolve (resolve m) (Data data) (set_messages (delete id (messages w)) w)
  /\ messages w' = delete id (messages w)
  /\ settle_calls (trace w') = settle_calls (trace w) ++ [resolve m].
Proof.
  intros Hm w'. subst w'. unfold request_on_message. cbn [JSON_parse]. rewrite Hm.
  split; [reflexivity|].
  destruct (call_resolve_spec (resolve m) (Data data)
              (set_messages (delete id (messages w)) w)) as (-> & _ & _ & ->).
  now split.
Qed.

Lemma request_on_message_reject `{Runtime} `{Env} (id : Z) (error : SerializedError)
    (m : Entry) (w : World) :
  messages w !! id = Some m ->
  let w' := request_on_message (Json (MessageReject id error)) w in
  w' = call_reject (reject m) (serializableToError error)
         (set_messages (delete id (messages w)) w)
  /\ messages w' = delete id (messages w)
  /\ settle_calls (trace w') = settle_calls (trace w) ++ [reject m].
Proof.
  intros Hm w'. subst w'. unfold request_on_message. cbn [JSON_parse]. rewrite Hm.
  split; [reflexivity|].
  destruct (call_reject_spec (reject m) (serializableToError error)
              (set_messages (delete id (messages w)) w)) as (-> & _ & _ & ->).
  now split.
Qed.

Lemma table_ok_new (port : Z) : table_ok (new_Daemon port).
Proof.
  split; cbn.
  - intros id m Hm. now rewrite lookup_empty in Hm.
  - intros id1 id2 m1 m2 Hm. now rewrite lookup_empty in Hm.
  - constructor.
  - intros p Hp. now apply not_elem_of_nil in Hp.
Qed.

Lemma table_ok_same (w w' : World) :
  table_ok w ->
  messages w' = messages w ->
  length (promises w') = length (promises w) ->
  settle_calls (trace w') = settle_calls (trace w) ->
  table_ok w'.
Proof.
  intros [Ha Hb Hc Hd] Hm Hp Ht. split; rewrite ?Hm, ?Hp, ?Ht; assumption.
Qed.

Lemma table_ok_settled (id : Z) (m : Entry) (w w' : World) :
  table_ok w ->
  messages w !! id = Some m ->
  messages w' = delete id (messages w) ->
  length (promises w') = length (promises w) ->
  settle_calls (trace w') = settle_calls (trace w) ++ [resolve m] ->
  table_ok w'.
Proof.
  intros [Ha Hb Hc Hd] Hid Hm Hp Ht.
  destruct (Ha id m Hid) as (_ & Hlt & Hfresh).
  split; rewrite ?Hm, ?Hp, ?Ht.
  - intros id' m' Hm'. apply lookup_delete_Some in Hm' as [Hne Hm'].
    destruct (Ha id' m' Hm') as (Hrr & Hlt' & Hfresh'). repeat split; try assumption.
    intros [Hin|Hin%list_elem_of_singleton]%elem_of_app; [now apply Hfresh'|].
    apply Hne. symmetry. now apply (Hb id' id m' m).
  - intros id1 id2 m1 m2 [_ H1]%lookup_delete_Some [_ H2]%lookup_delete_Some.
    now apply Hb.
  - apply NoDup_app. split; [exact Hc|]. split; [|apply NoDup_singleton].
    intros p Hp1 ->%list_elem_of_singleton. now apply Hfresh.
  - intros p [Hin| ->%list_elem_of_singleton]%elem_of_app; [now apply Hd | exact Hlt].
Qed.

Lemma send_then_spec (id : Z) (s : SetRef) (data : jsval) (ws : Conn) (w : World) :
  let p := length (promises w) in
  let w' := (send_then id s data ws w).2 in
  (send_then id s data ws w).1 = p
  /\ messages w' = <[id := mkEntry s p p]> (messages w)
  /\ length (promises w') = S (length (promises w))
  /\ settle_calls (trace w') = settle_calls (trace w).
Proof.
  unfold send_then, new_promise. cbn.
  rewrite length_app, Nat.add_1_r.
  change (omap _ (trace w ++ ?l)) with (settle_calls (trace w ++ l)).
  rewrite settle_calls_app. cbn. rewrite app_nil_r. now repeat split.
Qed.

Lemma table_ok_register (id : Z) (s : SetRef) (data : jsval) (ws : Conn) (w : World) :
  table_ok w -> table_ok (send_then id s data ws w).2.
Proof.
  intros [Ha Hb Hc Hd].
  destruct (send_then_spec id s data ws w) as (_ & Hm & Hp & Ht).
  split; rewrite ?Hm, ?Hp, ?Ht.
  - intros id' m'. rewrite lookup_insert. destruct (decide (id = id')) as [->|Hne].
    + intros [= <-]. cbn. repeat split; [lia|].
      intros Hin%Hd. lia.
    + intros Hm'. destruct (Ha id' m' Hm') as (Hrr & Hlt & Hfresh).
      repeat split; [assumption | lia | assumption].
  - intros id1 id2 m1 m2. rewrite !lookup_insert.
    destruct (decide (id = id1)) as [E1|H1], (decide (id = id2)) as [E2|H2].
    + congruence.
    + intros [= <-] Hm2 Heq. cbn in Heq. destruct (Ha id2 m2 Hm2) as (_ & Hlt & _). lia.
    + intros Hm1 [= <-] Heq. cbn in Heq. destruct (Ha id1 m1 Hm1) as (_ & Hlt & _). lia.
    + apply Hb.
  - exact Hc.
  - intros p Hp'%Hd. lia.
Qed.

Lemma table_ok_receive `{Runtime} `{Env} (f : frame) (w : World) :
  table_ok w -> table_ok (request_on_message f w).
Proof.
  intros Hw.
  assert (Hcases :
    (exists id data m, f = Json (MessageResolve id data) /\ messages w !! id = Some m)
    \/ (exists id error m, f = Json (MessageReject id error) /\ messages w !! id = Some m)
    \/ match JSON_parse f with
       | Some (MessageResolve id _) | Some (MessageReject id _) => messages w !! id = None
       | _ => True
       end).
  { destruct f as [[]|]; cbn; auto.
    - destruct (messages w !! id) as [m|] eqn:Hm; eauto 10.
    - destruct (messages w !! id) as [m|] eqn:Hm; eauto 10. }
  destruct Hcases as [(id & data & m & -> & Hm) | [(id & error & m & -> & Hm) | Hother]].
  - destruct (request_on_message_resolve id data m w Hm) as (_ & Hmsg & Hcalls).
    apply (table_ok_settled id m w _ Hw Hm Hmsg); [|exact Hcalls].
    unfold request_on_message. cbn [JSON_parse]. rewrite Hm.
    now destruct (call_resolve_spec (resolve m) (Data data)
                    (set_messages (delete id (messages w)) w)) as (_ & _ & -> & _).
  - destruct (request_on_message_reject id error m w Hm) as (_ & Hmsg & Hcalls).
    destruct (entry_promise w Hw id m Hm) as (Hrr & _).
    rewrite Hrr in Hcalls.
    apply (table_ok_settled id m w _ Hw Hm Hmsg); [|exact Hcalls].
    unfold request_on_message. cbn [JSON_parse]. rewrite Hm.
    now destruct (call_reject_spec (reject m) (serializableToError error)
                    (set_messages (delete id (messages w)) w)) as (_ & _ & -> & _).
  - destruct (request_on_message_other f w Hother) as (Hmsg & Hp & Hcalls).
    apply (table_ok_same w); [exact Hw | exact Hmsg | now rewrite Hp | exact Hcalls].
Qed.

Lemma table_ok_run `{Runtime} `{Env} (steps : list TableStep) (w : World) :
  table_ok w -> table_ok (table_run steps w).
Proof.
  revert w. induction steps as [|s steps IH]; intros w Hw; cbn; [exact Hw|].
  apply IH. unfold table_step. destruct (crashed w); [exact Hw|].
  destruct s; [now apply table_ok_register | now apply table_ok_receive].
Qed.

(** The allocator of [send] only returns an id that is not in the table,
    and it does return one as soon as a draw is free. *)
Lemma allocate_fresh `{Env} (fuel : nat) (w w' : World) (id : Z) :
  allocate fuel w = (Some id, w') ->
  messages w !! id = None /\ messages w' = messages w.
Proof.
  revert w. induction fuel as [|fuel IH]; intros w; cbn; [discriminate|].
  destruct (bool_decide _) eqn:Hd.
  - intros Hrec. apply IH in Hrec. exact Hrec.
  - intros [= <- <-]. apply bool_decide_eq_false in Hd. split; [|reflexivity].
    cbn in Hd. destruct (messages w !! random_id (draws w)); [|reflexivity].
    exfalso. apply Hd. eauto.
Qed.

Lemma allocate_returns `{Env} (k fuel : nat) (w : World) :
  messages w !! random_id (draws w + k) = None ->
  k < fuel ->
  exists id w', allocate fuel w = (Some id, w').
Proof.
  revert fuel w. induction k as [|k IH]; intros [|fuel] w Hfree Hlt; try lia; cbn.
  - rewrite Nat.add_0_r in Hfree. rewrite Hfree.
    rewrite bool_decide_eq_false_2 by (intros [? ?]; discriminate). eauto.
  - destruct (bool_decide _); [|eauto].
    apply IH; [|lia]. rewrite <- Hfree. cbn. do 2 f_equal. lia.
Qed.

(** C4.  A [message/resolve] (resp. [message/reject]) frame for an id of the
    table removes the entry and then calls its [resolve] (resp. [reject])
    callback, once, in a world where the entry is already gone; a terminal
    frame for an id that is not in the table does nothing.  Over any sequence
    of registrations and received frames, no promise has its [resolve] or
    [reject] function called more than once in total (so never both), and
    an entry still in the table has had neither called.  The allocator of
    [send] never returns an id that is in the table, and returns one as soon
    as one of its draws is free. *)
Theorem correlation_table_settles_once `{Runtime} `{Env} :
  (forall w id m data, messages w !! id = Some m ->
     let w' := request_on_message (Json (MessageResolve id data)) w in
     w' = call_resolve (resolve m) (Data data) (set_messages (delete id (messages w)) w)
     /\ messages w' !! id = None
     /\ settle_calls (trace w') = settle_calls (trace w) ++ [resolve m])
  /\ (forall w id m error, messages w !! id = Some m ->
     let w' := request_on_message (Json (MessageReject id error)) w in
     w' = call_reject (reject m) (serializableToError error)
            (set_messages (delete id (messages w)) w)
     /\ messages w' !! id = None
     /\ settle_calls (trace w') = settle_calls (trace w) ++ [reject m])
  /\ (forall w id data error, messages w !! id = None ->
     request_on_message (Json (MessageResolve id data)) w = w
     /\ request_on_message (Json (MessageReject id error)) w = w)
  /\ (forall steps port,
     let w := table_run steps (new_Daemon port) in
     NoDup (settle_calls (trace w))
     /\ forall id m, messages w !! id = Some m ->
          reject m = resolve m /\ resolve m ∉ settle_calls (trace w))
  /\ (forall fuel w id w', allocate fuel w = (Some id, w') -> messages w !! id = None)
  /\ (forall k fuel w, messages w !! random_id (draws w + k) = None -> k < fuel ->
     exists id w', allocate fuel w = (Some id, w')).
Proof.
  split; [|split; [|split; [|split; [|split]]]].
  - intros w id m data Hm w'.
    destruct (request_on_message_resolve id data m w Hm) as (Hw & Hmsg & Hcalls).
    fold w' in Hw, Hmsg, Hcalls. rewrite Hmsg, lookup_delete_eq. now repeat split.
  - intros w id m error Hm w'.
    destruct (request_on_message_reject id error m w Hm) as (Hw & Hmsg & Hcalls).
    fold w' in Hw, Hmsg, Hcalls. rewrite Hmsg, lookup_delete_eq. now repeat split.
  - intros w id data error Hm. unfold request_on_message. cbn [JSON_parse].
    now rewrite Hm.
  - intros steps port w.
    destruct (table_ok_run steps (new_Daemon port) (table_ok_new port))
      as [Ha _ Hc _].
    split; [exact Hc|]. intros id m Hm. destruct (Ha id m Hm) as (? & _ & ?). now split.
  - intros fuel w id w' Ha. now apply allocate_fresh in Ha.
  - intros k fuel w. apply allocate_returns.
Qed.

(** A request is registered under id 7; the daemon resolves it, and a late
    rejection for the same id is ignored. *)
Lemma correlation_table_settles_once_witness :
  let env := Scenario.client (fun _ => Fulfilled tt) (fun _ => Fulfilled tt)
               (fun _ => 7%Z) (fun _ => []) in
  let w := (send_then 7 0 (JsVal "42") 0 (new_Daemon 6532)).2 in
  let w' := request_on_message (H := Scenario.engine) (H0 := env)
              (Json (MessageResolve 7 (JsVal "84"))) w in
  settle_calls (trace w') = [0]
  /\ request_on_message (H := Scenario.engine) (H0 := env)
       (Json (MessageReject 7 (Serialized.mk "late" None false))) w' = w'
  /\ (exists id w1, allocate (H := env) 1 (new_Daemon 6532) = (Some id, w1)).
Proof.
  intros env w w'.
  destruct (correlation_table_settles_once (H := Scenario.engine) (H0 := env))
    as (Hresolve & _ & Hunknown & _ & _ & Hreturns).
  destruct (Hresolve w 7%Z (mkEntry 0 0 0) (JsVal "84") eq_refl) as (_ & Hgone & Hcalls).
  split; [exact Hcalls|]. split.
  - exact (proj2 (Hunknown w' 7%Z (JsVal "84") (Serialized.mk "late" None false) Hgone)).
  - apply (Hreturns 0 1 (new_Daemon 6532)); [reflexivity | lia].
Defined.

(** A wrapped command run from a client: the daemon is absent, one is
    forked, the command's output is written as it arrives and its exit code
    is the result. *)
Example command_through_daemon :
  let env := Scenario.client
               (fun n => if Nat.eqb n 0 then Rejected Scenario.ECONNREFUSED
                         else Fulfilled tt)
               (fun _ => Fulfilled tt) (fun _ => 7%Z)
               (fun _ => [Json (Stdout "aGk="); Json (Exit 0)]) in
  let run := register (H := Scenario.engine) (H0 := env) (ret (Code 1))
               Scenario.argv Scenario.context (Some "1.0.0") (new_Daemon 6532) in
  run.1 = Fulfilled (Code 0)
  /\ trace run.2
     = [NewWebSocket 6532 0; Fork; NewWebSocket 6532 1;
        WsSend 1 (Cli Scenario.argv (Some "1.0.0") Scenario.context);
        StdoutWrite "aGk="; WsClose 1; CallResolve 0 (Code 0)].
Proof. split; reflexivity. Qed.

(** A request sent to a running daemon, a callback added before the
    connection opens, one partial result, then the resolution: the entry
    leaves the table, [done] is fulfilled and the socket is closed. *)
Example request_through_daemon :
  let env := Scenario.client (fun _ => Fulfilled tt) (fun _ => Fulfilled tt)
               (fun _ => 7%Z) (fun _ => []) in
  let w := client_run (H := Scenario.engine) (H0 := env)
             [DoSend 1 (JsVal "42") false; DoAdd 0 5;
              SendOpened 7 0 (JsVal "42") false 0;
              Socket 0 (EvMessage (Json (MessageYield 7 (JsVal "1"))));
              Socket 0 (EvMessage (Json (MessageResolve 7 (JsVal "2"))))]
             (new_Daemon 6532) in
  trace w = [NewWebSocket 6532 0; WsSend 0 (Message 7 (JsVal "42"));
             CallStream 5 (JsVal "1"); CallResolve 0 (Data (JsVal "2")); WsClose 0]
  /\ messages w !! 7%Z = None
  /\ (await 0 w).1 = Fulfilled (Data (JsVal "2")).
Proof. vm_compute. repeat split. Qed.

(** ** The standing assumptions are invariants *)

(** The methods of the class and the listeners of a client socket never
    write to the sessions of the server. *)
Lemma sessions_settle_promise (p : PromiseId) r (w : World) :
  sessions (settle_promise p r w) = sessions w.
Proof. unfold settle_promise. now destruct (promises w !! p) as [[[] [c|]]|]. Qed.

Lemma sessions_request_on_message `{Runtime} `{Env} (f : frame) (w : World) :
  sessions (request_on_message f w) = sessions w.
Proof.
  unfold request_on_message, call_resolve, call_reject.
  destruct (JSON_parse f) as [[]|]; try reflexivity;
    destruct (messages w !! id); try reflexivity;
    rewrite ?sessions_settle_promise; try reflexivity.
  now destruct (JsSet.for_of_await _ _) as [started []].
Qed.

Lemma sessions_run_listener `{Runtime} `{Env} (ws : Conn) (l : Listener) (ev : Event)
    (w : World) :
  sessions (run_listener ws l ev w) = sessions w.
Proof.
  destruct l, ev; cbn; try reflexivity.
  - apply sessions_request_on_message.
  - unfold status_on_message, call_resolve.
    destruct (JSON_parse f) as [[]|]; rewrite ?sessions_settle_promise; reflexivity.
  - unfold register_on_message, call_resolve, call_reject.
    destruct (JSON_parse f) as [[]|]; rewrite ?sessions_settle_promise; reflexivity.
Qed.

Lemma sessions_emit `{Runtime} `{Env} (ws : Conn) (ev : Event) (w : World) :
  sessions (emit ws ev w) = sessions w.
Proof.
  unfold emit. generalize (listeners_of ws (event_name ev) w). intros ls. revert w.
  induction ls as [|l ls IH]; intros w; cbn; [reflexivity|].
  rewrite IH. destruct (crashed w); [reflexivity | apply sessions_run_listener].
Qed.

Lemma sessions_deliver_until_settled `{Runtime} `{Env} (ws : Conn) (p : PromiseId)
    (frames : list frame) (w : World) :
  sessions (deliver_until_settled ws p frames w) = sessions w.
Proof.
  revert w. induction frames as [|f frames IH]; intros w; cbn; [reflexivity|].
  destruct (_ || _); [|rewrite IH]; apply sessions_emit.
Qed.

Lemma sessions_open `{Env} (autoSpawn : bool) (w : World) :
  sessions (open autoSpawn w).2 = sessions w.
Proof.
  unfold open, try_catch. rewrite request_spec.
  destruct (connect_outcome (sockets w)) as [[]|err|]; try reflexivity.
  destruct (_ && _); [|reflexivity].
  unfold bind. rewrite spawn_spec.
  destruct (fork_outcome _) as [[]|err2|]; try reflexivity.
  rewrite request_spec. now destruct (connect_outcome _).
Qed.

Lemma sessions_status `{Runtime} `{Env} (w : World) : sessions (status w).2 = sessions w.
Proof.
  unfold status. pose proof (sessions_open false w) as Ho.
  destruct (open false w) as [[ws|err|] w1]; cbn in *; try exact Ho.
  - rewrite <- Ho. unfold status_query, new_promise. cbv beta iota zeta.
    match goal with
    | |- context [deliver_until_settled ?a ?b ?c ?d] =>
        pose proof (sessions_deliver_until_settled a b c d) as Hd;
        set (w2 := deliver_until_settled a b c d) in *
    end.
    match goal with
    | |- context [if ?c then w2 else ?e] =>
        set (w3 := if c then w2 else e);
        assert (H3 : sessions w3 = sessions w2)
          by (subst w3; destruct c; [reflexivity|];
              unfold call_reject; now rewrite sessions_settle_promise)
    end.
    match goal with
    | |- context [await ?p] =>
        destruct (await_finally_world p as_status_answer (ws_close ws) w3) as [-> | ->]
    end; cbn; now rewrite H3, Hd.
  - now destruct (is_ECONNREFUSED err).
Qed.

Lemma sessions_stop `{Runtime} `{Env} (w : World) : sessions (stop w).2 = sessions w.
Proof.
  unfold stop. destruct isInsideDaemon.
  - unfold do, wss_close; cbn. now destruct (wss w).
  - pose proof (sessions_open false w) as Ho.
    destruct (open false w) as [[ws|err|] w1]; cbn in *; try exact Ho.
    now destruct (is_ECONNREFUSED err).
Qed.

Lemma sessions_restart `{Runtime} `{Env} (w : World) :
  isInsideDaemon = true -> sessions (restart w).2 = sessions w.
Proof.
  intros Hin. unfold restart. rewrite Hin.
  destruct (rebootInProgress w); cbn [negb]; [reflexivity|].
  rewrite spawn_spec. unfold wss_close. cbn. now destruct (wss w).
Qed.

Lemma sessions_runExit `{Runtime} `{Env} (w : World) : sessions (runExit w).2 = sessions w.
Proof. unfold runExit. destruct isInsideDaemon; cbn; [now destruct (wss w) | reflexivity]. Qed.

Lemma sessions_ok_same (w w' : World) :
  sessions w' = sessions w -> sessions_ok w -> sessions_ok w'.
Proof. intros Hs Hw c s. rewrite Hs. apply Hw. Qed.

Lemma sessions_ok_server_event `{Runtime} `{Env} (ev : ServerEvent) (w : World) :
  sessions_ok w -> sessions_ok (server_event ev w).
Proof.
  intros Hw. destruct ev as [|ws|ws|ws f|error|]; cbn.
  - unfold on_listening, run_hooks.
    destruct (JsSet.for_of_await _ _) as [started []]; exact Hw.
  - intros c s. unfold on_connection. cbn. rewrite lookup_insert.
    destruct (decide (ws = c)); [intros [= <-]; constructor | apply Hw].
  - unfold on_socket_close, run_hooks.
    destruct (sessions w !! ws) as [s0|] eqn:Hs0; [|exact Hw].
    assert (Hins : sessions_ok
              (set_sessions (<[ws := mkSession false (onClientDisconnect s0)]> (sessions w)) w)).
    { intros c s. cbn. rewrite lookup_insert.
      destruct (decide (ws = c)); [intros [= <-]; apply (Hw ws s0 Hs0) | apply Hw]. }
    destruct (JsSet.for_of_await _ _) as [started []]; exact Hins.
  - unfold on_socket_message, sendError.
    destruct (JSON_parse f) as [[]|]; try exact Hw.
    + destruct (bool_decide _); [exact Hw|].
      assert (Hadd : sessions_ok (add_hooks ws (c_hooked (cli_run args context)) w))
        by (intros c s; now apply add_hooks_NoDup).
      destruct (c_result _); exact Hadd.
    + destruct onMessage_handler as [handler|]; [|exact Hw].
      assert (Hadd : sessions_ok (add_hooks ws (h_hooked (handler data)) w))
        by (intros c s; now apply add_hooks_NoDup).
      destruct (h_result _); exact Hadd.
  - exact Hw.
  - unfold on_server_close, run_hooks.
    destruct (JsSet.for_of_await _ _) as [started []]; exact Hw.
Qed.

(** In every world a daemon reaches, the hypothesis of
    [disconnect_hooks_in_order] on the set of hooks holds. *)
Lemma daemon_run_sessions_ok `{Runtime} `{Env} (steps : list DaemonStep) (port : Z) :
  isInsideDaemon = true ->
  sessions_ok (daemon_run steps (new_Daemon port)).
Proof.
  intros Hin. assert (Hnew : sessions_ok (new_Daemon port)).
  { intros c s. cbn. now rewrite lookup_empty. }
  revert Hnew. generalize (new_Daemon port).
  induction steps as [|s steps IH]; intros w Hw; cbn; [exact Hw|].
  apply IH. unfold daemon_step. destruct (crashed w); [exact Hw|].
  destruct s.
  - exact (sessions_ok_same w _ (sessions_runExit w) Hw).
  - exact (sessions_ok_same w _ (sessions_restart w Hin) Hw).
  - exact (sessions_ok_same w _ (sessions_stop w) Hw).
  - exact (sessions_ok_same w _ (sessions_status w) Hw).
  - now rewrite (start_inside w Hin).
  - now rewrite (send_inside fuel data autoSpawn w Hin).
  - now apply sessions_ok_server_event.
Qed.

Lemma grows_refl (w : World) : grows w w.
Proof. split; [lia|]. exists []. now rewrite app_nil_r. Qed.

Lemma grows_trans (w1 w2 w3 : World) : grows w1 w2 -> grows w2 w3 -> grows w1 w3.
Proof.
  intros (H12 & n1 & L1 & F1) (H23 & n2 & L2 & F2). split; [lia|].
  exists (n1 ++ n2). split; [now rewrite L2, L1, app_assoc|].
  apply Forall_app. split; [|exact F2].
  eapply Forall_impl; [exact F1|]. cbn. intros l Hl. lia.
Qed.

Lemma steady_grows (w w' : World) : steady w w' -> grows w w'.
Proof.
  intros (_ & _ & _ & Hl & Hs & _). split; [lia|]. exists []. now rewrite app_nil_r.
Qed.

Lemma grows_sockets_fresh (w w' : World) : grows w w' -> sockets_fresh w -> sockets_fresh w'.
Proof.
  intros (Hle & new & Hl & Hnew) Hw. unfold sockets_fresh. rewrite Hl.
  apply Forall_app. split; [|exact Hnew].
  eapply Forall_impl; [exact Hw|]. cbn. intros l Hlt. lia.
Qed.

Lemma request_grows `{Env} (w : World) :
  grows w (request w).2
  /\ forall ws, (request w).1 = Fulfilled ws -> ws < sockets (request w).2.
Proof.
  rewrite request_spec. cbn [fst snd].
  destruct (connect_outcome (sockets w)) as [[]|err|]; unfold grows, ws_on; cbn;
    rewrite <- ?app_assoc;
    (split; [split; [lia|]; eexists; (split; [reflexivity|]); repeat constructor; cbn; lia|]);
    intros ws [= <-]; lia.
Qed.

Lemma spawn_grows `{Env} (w : World) : grows w (spawn w).2.
Proof. rewrite spawn_spec. split; cbn; [lia|]. exists []. now rewrite app_nil_r. Qed.

Lemma open_grows `{Env} (autoSpawn : bool) (w : World) :
  grows w (open autoSpawn w).2
  /\ forall ws, (open autoSpawn w).1 = Fulfilled ws -> ws < sockets (open autoSpawn w).2.
Proof.
  unfold open, try_catch. destruct (request_grows w) as [Hg Hb].
  destruct (request w) as [[c|err|] w1]; cbn [fst snd] in *; try (split; [exact Hg|exact Hb]).
  destruct (_ && _); [|split; [exact Hg | intros ws [=]]].
  unfold bind. pose proof (spawn_grows w1) as Hs.
  destruct (spawn w1) as [[[]|err2|] w2]; cbn [fst snd] in *;
    try (split; [eapply grows_trans; [exact Hg | exact Hs] | intros ws [=]]).
  destruct (request_grows w2) as [Hg2 Hb2].
  split; [|exact Hb2].
  eapply grows_trans; [exact Hg|]. eapply grows_trans; [exact Hs | exact Hg2].
Qed.

Lemma ws_on_grows (ws : Conn) (name : EventName) (l : Listener) (w : World) :
  ws < sockets w -> grows w (ws_on ws name l w).
Proof.
  intros Hws. split; cbn; [lia|]. eexists. split; [reflexivity|].
  repeat constructor. exact Hws.
Qed.

Lemma status_query_grows `{Runtime} `{Env} (ws : Conn) (w : World) :
  ws < sockets w -> grows w (status_query ws w).2.
Proof.
  intros Hws. destruct (status_query_shape ws w) as (w1 & Hs & Hw).
  assert (Hg : grows w w1).
  { eapply grows_trans; [|apply steady_grows, Hs].
    apply (grows_trans _ (new_promise None (ws_send ws (Status None) w)).2).
    - apply steady_grows. unfold new_promise. cbn. repeat steady_step.
    - now apply ws_on_grows. }
  destruct Hw as [-> | ->]; [exact Hg|].
  eapply grows_trans; [exact Hg | apply steady_grows, steady_ws_close].
Qed.

Lemma status_grows `{Runtime} `{Env} (w : World) : grows w (status w).2.
Proof.
  unfold status. destruct (open_grows false w) as [Hg Hb].
  destruct (open false w) as [[ws|err|] w1]; cbn [fst snd] in *; try exact Hg.
  - eapply grows_trans; [exact Hg|]. apply status_query_grows. now apply Hb.
  - now destruct (is_ECONNREFUSED err).
Qed.

Lemma grows_bind {A B} (m : Async A) (k : A -> Async B) (w : World) :
  grows w (m w).2 ->
  (forall a, (m w).1 = Fulfilled a -> grows (m w).2 (k a (m w).2).2) ->
  grows w (bind m k w).2.
Proof.
  intros Hm Hk. unfold bind.
  destruct (m w) as [[a|err|] w1]; cbn [fst snd] in *; try exact Hm.
  eapply grows_trans; [exact Hm | now apply Hk].
Qed.

Lemma start_grows `{Runtime} `{Env} (w : World) : grows w (start w).2.
Proof.
  unfold start. destruct isInsideDaemon; [apply grows_refl|].
  apply grows_bind; [apply open_grows|].
  intros ws _. apply steady_grows, steady_ws_close.
Qed.

Lemma stop_grows `{Runtime} `{Env} (w : World) : grows w (stop w).2.
Proof.
  unfold stop. destruct isInsideDaemon.
  - unfold do, wss_close; cbn. destruct (wss w); apply steady_grows; auto with steady.
  - destruct (open_grows false w) as [Hg _].
    destruct (open false w) as [[ws|err|] w1]; cbn [fst snd] in *; try exact Hg.
    now destruct (is_ECONNREFUSED err).
Qed.

Lemma restart_grows `{Runtime} `{Env} (w : World) : grows w (restart w).2.
Proof.
  unfold restart. destruct isInsideDaemon.
  - destruct (rebootInProgress w); cbn [negb]; [apply grows_refl|].
    eapply grows_trans; [|apply spawn_grows].
    unfold wss_close. split; cbn; [now destruct (wss w)|].
    exists []. rewrite app_nil_r. now destruct (wss w).
  - apply grows_bind; [apply stop_grows | intros; apply start_grows].
Qed.

Lemma request_start_grows (w : World) : grows w (request_start w).2.
Proof.
  unfold request_start, grows, ws_on. cbn. rewrite <- ?app_assoc.
  split; [lia|]. eexists. split; [reflexivity|]. repeat constructor; cbn; lia.
Qed.

Lemma send_grows `{Runtime} `{Env} (fuel : nat) (data : jsval) (autoSpawn : bool)
    (w : World) :
  grows w (send fuel data autoSpawn w).2.
Proof.
  unfold send. apply grows_bind.
  - unfold send_begin. destruct isInsideDaemon; [apply grows_refl|].
    pose proof (steady_allocate fuel w) as Hs.
    destruct (allocate fuel w) as [[id|] w1]; cbn in *; apply steady_grows; [|exact Hs].
    eapply steady_trans; [exact Hs|]. now repeat split.
  - intros [id s] _. intros. apply request_start_grows.
Qed.

Lemma request_finish_grows `{Env} (ws : Conn) (w : World) :
  ws < sockets w ->
  grows w (request_finish ws w).2
  /\ forall ws', (request_finish ws w).1 = Fulfilled ws' ->
       ws' < sockets (request_finish ws w).2.
Proof.
  intros Hws. unfold request_finish.
  destruct (connect_outcome ws) as [[]|err|]; cbn [fst snd].
  - split; [now apply ws_on_grows | now intros ws' [= <-]].
  - split; [apply grows_refl | intros ws' [=]].
  - split; [apply grows_refl | intros ws' [=]].
Qed.

Lemma open_finish_grows `{Env} (autoSpawn : bool) (ws : Conn) (w : World) :
  ws < sockets w ->
  grows w (open_finish autoSpawn ws w).2
  /\ forall ws', (open_finish autoSpawn ws w).1 = Fulfilled ws' ->
       ws' < sockets (open_finish autoSpawn ws w).2.
Proof.
  intros Hws. unfold open_finish, try_catch.
  destruct (request_finish_grows ws w Hws) as [Hg Hb].
  destruct (request_finish ws w) as [[c|err|] w1]; cbn [fst snd] in *;
    try (split; [exact Hg|exact Hb]).
  destruct (_ && _); [|split; [exact Hg | intros ws' [=]]].
  unfold bind. pose proof (spawn_grows w1) as Hs.
  destruct (spawn w1) as [[[]|err2|] w2]; cbn [fst snd] in *;
    try (split; [eapply grows_trans; [exact Hg | exact Hs] | intros ws' [=]]).
  destruct (request_grows w2) as [Hg2 Hb2].
  split; [|exact Hb2].
  eapply grows_trans; [exact Hg|]. eapply grows_trans; [exact Hs | exact Hg2].
Qed.

Lemma send_opened_grows `{Env} (id : Z) (s : SetRef) (data : jsval)
    (autoSpawn : bool) (ws : Conn) (w : World) :
  ws < sockets w ->
  grows w (send_opened id s data autoSpawn ws w).2.
Proof.
  intros Hws. unfold send_opened, bind.
  destruct (open_finish_grows autoSpawn ws w Hws) as [Hg _].
  destruct (open_finish autoSpawn ws w) as [[ws'|err|] w1]; cbn [fst snd] in *;
    [|exact Hg|exact Hg].
  eapply grows_trans; [exact Hg|].
  apply steady_grows, (steady_send_then id s data ws' w1).
Qed.

Lemma register_grows `{Runtime} `{Env} (args context : jsval)
    (version : option string) (w : World) :
  grows w (register (ret (Code 0)) args context version w).2.
Proof.
  unfold register. destruct isInsideDaemon; [apply grows_refl|].
  apply grows_bind; [apply open_grows|].
  intros ws Hopen. apply (proj2 (open_grows true w)) in Hopen.
  set (w1 := (open true w).2) in *.
  unfold new_promise, await. cbv beta iota zeta.
  match goal with
  | |- context [deliver_until_settled ?a ?b ?c ?d] =>
      pose proof (steady_deliver_until_settled a b c d) as Hd;
      set (w2 := deliver_until_settled a b c d) in *;
      assert (Ha : grows w1 d)
  end.
  { match goal with
    | |- grows _ (ws_on _ _ _ ?w0) => apply (grows_trans _ w0)
    end.
    - apply steady_grows. repeat steady_step.
    - now apply ws_on_grows. }
  assert (Hw2 : grows w1 w2)
    by (eapply grows_trans; [exact Ha | apply steady_grows, Hd]).
  destruct (crashed w2); [exact Hw2|].
  now destruct (promises w2 !! _).
Qed.

Lemma client_step_grows `{Runtime} `{Env} (s : ClientStep) (w : World) :
  grows w (client_step s w).
Proof.
  unfold client_step. destruct (crashed w); [apply grows_refl|].
  destruct s.
  - apply status_grows.
  - apply start_grows.
  - apply stop_grows.
  - apply restart_grows.
  - apply send_grows.
  - destruct (bool_decide (ws < sockets w)) eqn:Hws; [|apply grows_refl].
    apply send_opened_grows. now apply bool_decide_eq_true in Hws.
  - apply register_grows.
  - apply steady_grows. unfold onMessage_add. now repeat split.
  - apply steady_grows, steady_emit.
Qed.

(** In every world a client reaches, the hypothesis of [status_policy] on
    the listeners holds. *)
Lemma client_run_sockets_fresh `{Runtime} `{Env} (steps : list ClientStep) (port : Z) :
  sockets_fresh (client_run steps (new_Daemon port)).
Proof.
  assert (Hnew : sockets_fresh (new_Daemon port)) by constructor.
  revert Hnew. generalize (new_Daemon port).
  induction steps as [|s steps IH]; intros w Hw; cbn; [exact Hw|].
  apply IH. exact (grows_sockets_fresh w _ (client_step_grows s w) Hw).
Qed.

(** * Further properties *)

(** ** The codec, the other way round *)

(** X1. Decoding a record and encoding the result gives the record back.
    Encoding an error and decoding the result gives the error back exactly
    when its class is [Error] or [UsageError] itself: a subclass comes back
    as one of these two. *)
Theorem error_codec_reencode `{Runtime} :
  (forall d : SerializedError,
      errorToSerializable (ThrownError (serializableToError d)) = d)
  /\ (forall e : JsError,
      serializableToError (errorToSerializable (ThrownError e)) = e
      <-> klass e = ErrorK \/ klass e = UsageErrorK).
Proof.
  split.
  - intros [m st u]. unfold errorToSerializable, serializableToError. cbn.
    now destruct u.
  - intros [k m st]. unfold errorToSerializable, serializableToError, set_stack. cbn.
    split.
    + intros [= Hk]. destruct (instanceof_UsageError k); auto.
    + intros [-> | ->]; reflexivity.
Qed.

(** ** The effects of [open] *)

(** What [open] adds to the trace, and which socket it returns. *)
Lemma open_effects `{Env} (autoSpawn : bool) (w : World) :
  let n := sockets w in
  let r := (open autoSpawn w).1 in
  let w' := (open autoSpawn w).2 in
  (new_effects w w' = [NewWebSocket (port w) n]
   /\ sockets w' = S n /\ children w' = children w
   /\ (forall ws, r = Fulfilled ws -> ws = n))
  \/ (new_effects w w' = [NewWebSocket (port w) n; Fork]
      /\ sockets w' = S n /\ children w' = S (children w)
      /\ (forall ws, r <> Fulfilled ws))
  \/ (new_effects w w' = [NewWebSocket (port w) n; Fork; NewWebSocket (port w) (S n)]
      /\ sockets w' = S (S n) /\ children w' = S (children w)
      /\ (forall ws, r = Fulfilled ws -> ws = S n)).
Proof.
  intros n r w'. subst r w'. unfold new_effects, open, try_catch.
  rewrite request_spec.
  destruct (connect_outcome (sockets w)) as [[]|err|] eqn:Hc; cbn [fst snd].
  - left. cbn. rewrite drop_app_length. repeat split. now intros ws [= <-].
  - destruct (is_ECONNREFUSED err && autoSpawn).
    + unfold bind. rewrite spawn_spec.
      destruct (fork_outcome _) as [[]|err2|]; cbn [fst snd].
      * right. right. rewrite request_spec.
        cbn [sockets port set_sockets set_children effect emit_effects set_trace
             ws_on set_listeners].
        destruct (connect_outcome (S (sockets w))) as [[]|err3|]; cbn;
          rewrite <- !app_assoc, drop_app_length; repeat split;
          intros ws [=]; now subst.
      * right. left. cbn. rewrite <- !app_assoc, drop_app_length. repeat split.
        intros ws [=].
      * right. left. cbn. rewrite <- !app_assoc, drop_app_length. repeat split.
        intros ws [=].
    + left. cbn. rewrite drop_app_length. repeat split. intros ws [=].
  - left. cbn. rewrite drop_app_length. repeat split. intros ws [=].
Qed.

(** [open] only appends to the trace. *)
Lemma open_trace `{Env} (autoSpawn : bool) (w : World) :
  trace (open autoSpawn w).2 = trace w ++ new_effects w (open autoSpawn w).2.
Proof.
  unfold new_effects, open, try_catch. rewrite request_spec.
  destruct (connect_outcome (sockets w)) as [[]|err|]; cbn [fst snd];
    try (cbn; now rewrite drop_app_length).
  destruct (is_ECONNREFUSED err && autoSpawn); [|cbn; now rewrite drop_app_length].
  unfold bind. rewrite spawn_spec.
  destruct (fork_outcome _) as [[]|err2|]; cbn [fst snd];
    try (cbn; now rewrite <- !app_assoc, drop_app_length).
  rewrite request_spec.
  cbn [sockets port set_sockets set_children effect emit_effects set_trace
       ws_on set_listeners].
  destruct (connect_outcome (S (sockets w))) as [[]|err3|]; cbn;
    now rewrite <- !app_assoc, drop_app_length.
Qed.

(** [open] writes to the sockets, the children, the listeners and the trace
    only. *)
Lemma open_keeps `{Env} (autoSpawn : bool) (w : World) :
  let w' := (open autoSpawn w).2 in
  messages w' = messages w /\ promises w' = promises w
  /\ stream_sets w' = stream_sets w /\ draws w' = draws w
  /\ crashed w' = crashed w /\ wss w' = wss w
  /\ rebootInProgress w' = rebootInProgress w /\ port w' = port w.
Proof.
  unfold open, try_catch. rewrite request_spec.
  destruct (connect_outcome (sockets w)) as [[]|err|]; cbn [fst snd];
    try (now repeat split).
  destruct (is_ECONNREFUSED err && autoSpawn); [|now repeat split].
  unfold bind. rewrite spawn_spec.
  destruct (fork_outcome _) as [[]|err2|]; cbn [fst snd]; try (now repeat split).
  rewrite request_spec.
  cbn [sockets port set_sockets set_children effect emit_effects set_trace
       ws_on set_listeners].
  destruct (connect_outcome (S (sockets w))) as [[]|err3|]; now repeat split.
Qed.

Lemma listeners_of_ws_on (ws c : Conn) (name n : EventName) (l : Listener) (w : World) :
  listeners_of ws name (ws_on c n l w)
  = listeners_of ws name w
      ++ (if bool_decide (c = ws) && bool_decide (n = name) then [l] else []).
Proof.
  unfold listeners_of, ws_on. destruct w; cbn [listeners set_listeners].
  rewrite omap_app. f_equal. cbn [omap list_omap].
  now destruct (bool_decide (c = ws) && bool_decide (n = name)).
Qed.

Lemma listeners_of_new (ws : Conn) (name : EventName) (w : World) :
  sockets_fresh w -> sockets w <= ws -> listeners_of ws name w = [].
Proof.
  intros Hfresh Hle. apply listeners_of_fresh.
  eapply Forall_impl; [exact Hfresh|]. cbn. intros; lia.
Qed.

Lemma listeners_of_ext (ws : Conn) (name : EventName) (w1 w2 : World) :
  listeners w1 = listeners w2 -> listeners_of ws name w1 = listeners_of ws name w2.
Proof. unfold listeners_of. now intros ->. Qed.

(** The socket that [open] returns carries the ['message'] listener of
    [request], once, and nothing for ['close']. *)
Lemma open_listeners `{Env} (autoSpawn : bool) (w : World) (ws : Conn) :
  sockets_fresh w ->
  (open autoSpawn w).1 = Fulfilled ws ->
  listeners_of ws OnMessage (open autoSpawn w).2 = [RequestMessage]
  /\ listeners_of ws OnClose (open autoSpawn w).2 = [].
Proof.
  intros Hfresh.
  unfold open, try_catch. rewrite request_spec.
  destruct (connect_outcome (sockets w)) as [[]|err|]; cbn [fst snd].
  - intros [= <-]. rewrite !listeners_of_ws_on.
    rewrite !(listeners_of_ext _ _ (set_sockets _ _) w) by reflexivity.
    rewrite !(listeners_of_new _ _ w Hfresh) by lia.
    rewrite !(bool_decide_eq_true_2 (sockets w = sockets w)) by reflexivity.
    now split.
  - destruct (is_ECONNREFUSED err && autoSpawn); [|intros [=]].
    unfold bind. rewrite spawn_spec.
    destruct (fork_outcome _) as [[]|err2|]; cbn [fst snd];
      [|intros Hr; discriminate Hr|intros Hr; discriminate Hr].
    rewrite request_spec.
    cbn [sockets port set_sockets set_children effect emit_effects set_trace
         ws_on set_listeners].
    destruct (connect_outcome (S (sockets w))) as [[]|err3|]; cbn [fst snd];
      [|intros Hr; discriminate Hr|intros Hr; discriminate Hr].
    intros [= <-]. rewrite !listeners_of_ws_on.
    rewrite !(listeners_of_ext _ _ (set_sockets _ _)
                (ws_on (sockets w) OnOpen RequestOpen
                   (ws_on (sockets w) OnError RequestError w))) by reflexivity.
    rewrite !listeners_of_ws_on.
    rewrite !(listeners_of_new _ _ w Hfresh) by lia.
    rewrite !(bool_decide_eq_false_2 (sockets w = S (sockets w))) by lia.
    rewrite !(bool_decide_eq_true_2 (S (sockets w) = S (sockets w))) by reflexivity.
    now split.
  - intros Hr; discriminate Hr.
Qed.

(** Without [autoSpawn], [open] is a single connection attempt. *)
Lemma open_no_spawn `{Env} (w : World) :
  new_effects w (open false w).2 = [NewWebSocket (port w) (sockets w)].
Proof.
  unfold new_effects, open, try_catch. rewrite request_spec.
  destruct (connect_outcome (sockets w)) as [[]|err|]; cbn [fst snd];
    rewrite ?andb_false_r; cbn; now rewrite drop_app_length.
Qed.

Lemma count_sockets_app (l1 l2 : list Effect) :
  count_sockets (l1 ++ l2) = count_sockets l1 + count_sockets l2.
Proof. unfold count_sockets. now rewrite omap_app, length_app. Qed.

Lemma open_forks `{Env} (autoSpawn : bool) (w : World) :
  count_forks (trace (open autoSpawn w).2) <= count_forks (trace w) + 1.
Proof.
  rewrite open_trace, count_forks_app.
  destruct (open_effects autoSpawn w) as [(-> & _) | [(-> & _) | (-> & _)]]; cbn; lia.
Qed.

Lemma open_returns `{Env} (autoSpawn : bool) (w : World) (ws : Conn) :
  (open autoSpawn w).1 = Fulfilled ws -> S ws = sockets (open autoSpawn w).2.
Proof.
  intros Hr.
  destruct (open_effects autoSpawn w)
    as [(_ & -> & _ & Hws) | [(_ & _ & _ & Hno) | (_ & -> & _ & Hws)]];
    [now rewrite (Hws ws Hr) | now destruct (Hno ws) | now rewrite (Hws ws Hr)].
Qed.

(** X2. [open] never loops: whatever the outside world does, it creates at
    most two sockets and forks at most one child. When it fulfils, the
    socket it returns is the last one created; on that socket each frame is
    handled by the listener of [request], once, and nothing listens to
    ['close']. *)
Theorem open_bounded `{Env} (autoSpawn : bool) (w : World) :
  let r := (open autoSpawn w).1 in
  let w' := (open autoSpawn w).2 in
  count_sockets (trace w') <= count_sockets (trace w) + 2
  /\ count_forks (trace w') <= count_forks (trace w) + 1
  /\ (autoSpawn = false -> count_forks (trace w') = count_forks (trace w)
                           /\ count_sockets (trace w') = count_sockets (trace w) + 1)
  /\ (forall ws, r = Fulfilled ws ->
        S ws = sockets w'
        /\ (sockets_fresh w ->
            listeners_of ws OnMessage w' = [RequestMessage]
            /\ listeners_of ws OnClose w' = [])).
Proof.
  intros r w'. pose proof (open_trace autoSpawn w) as Ht. fold w' in Ht.
  pose proof (open_effects autoSpawn w) as He. cbn zeta in He. fold w' r in He.
  split; [|split; [|split]].
  - rewrite Ht, count_sockets_app.
    destruct He as [(-> & _) | [(-> & _) | (-> & _)]]; cbn; lia.
  - apply open_forks.
  - intros ->. rewrite Ht, count_forks_app, count_sockets_app.
    subst w'. rewrite open_no_spawn. cbn. lia.
  - intros ws Hr. split.
    + now apply open_returns.
    + intros Hfresh. now apply open_listeners.
Qed.

(** The daemon is absent and one is forked: the socket returned is the
    second one. *)
Lemma open_bounded_witness :
  let env := Scenario.client
               (fun n => if Nat.eqb n 0 then Rejected Scenario.ECONNREFUSED
                         else Fulfilled tt)
               (fun _ => Fulfilled tt) (fun _ => 7%Z) (fun _ => []) in
  let w' := (open (H := env) true (new_Daemon 6532)).2 in
  sockets w' = 2
  /\ listeners_of 1 OnMessage w' = [RequestMessage]
  /\ listeners_of 1 OnClose w' = [].
Proof.
  intros env w'.
  destruct (open_bounded (H := env) true (new_Daemon 6532)) as (_ & _ & _ & Hws).
  destruct (Hws 1 eq_refl) as [Hs Hl].
  split; [symmetry; exact Hs|]. apply Hl. constructor.
Defined.

(** ** [stop], [start] and [restart] from a client *)

Lemma sent_on_app (ws : Conn) (l1 l2 : list Effect) :
  sent_on ws (l1 ++ l2) = sent_on ws l1 ++ sent_on ws l2.
Proof. apply omap_app. Qed.

Lemma new_effects_app (w w' : World) (es : list Effect) :
  trace w' = trace w ++ es -> new_effects w w' = es.
Proof. intros Ht. unfold new_effects. now rewrite Ht, drop_app_length. Qed.

(** X3. [stop] asks a daemon that is reachable to stop, with a single [stop]
    record on a socket that it closes at once, and does nothing else when
    none is reachable because the connection is refused: that is a success,
    not a failure. Any other failure to connect is passed on. It never forks
    a child. The daemon answers the record by closing its server and sends
    nothing back. Called inside the daemon, [stop] closes the server
    directly, without a socket. *)
Theorem stop_policy `{Runtime} `{Env} (w : World) :
  let r := (stop w).1 in
  let w' := (stop w).2 in
  count_forks (trace w') = count_forks (trace w)
  /\ (isInsideDaemon = true -> r = Fulfilled tt /\ w' = wss_close w)
  /\ (isInsideDaemon = false ->
      (forall err, connect_outcome (sockets w) = Rejected err ->
         trace w' = trace w ++ [NewWebSocket (port w) (sockets w)]
         /\ (is_ECONNREFUSED err = true -> r = Fulfilled tt)
         /\ (is_ECONNREFUSED err = false -> r = Rejected err))
      /\ (connect_outcome (sockets w) = Fulfilled tt ->
         r = Fulfilled tt
         /\ trace w' = trace w ++ [NewWebSocket (port w) (sockets w);
                                   WsSend (sockets w) Stop; WsClose (sockets w)]))
  /\ (forall ws wd,
        on_socket_message ws (Json Stop) wd = effect ServerClose wd
        /\ daemon_replies ws (Json Stop) wd = []).
Proof.
  intros r w'. split; [|split; [|split]].
  - destruct (stop_quiet w) as (_ & _ & Hq). exact Hq.
  - intros Hin. subst r w'. unfold stop. now rewrite Hin.
  - intros Hin. subst r w'. unfold stop, open, try_catch. rewrite Hin, request_spec.
    split.
    + intros err ->. cbn [fst snd]. rewrite andb_false_r. unfold throw.
      destruct (is_ECONNREFUSED err); cbn; repeat split; discriminate.
    + intros ->. cbn. rewrite <- !app_assoc. now split.
  - intros ws wd. split; [reflexivity|].
    unfold daemon_replies. now rewrite (new_effects_app _ _ [ServerClose]).
Qed.

Lemma stop_policy_witness :
  let absent := Scenario.client (fun _ => Rejected Scenario.ECONNREFUSED)
                  (fun _ => Fulfilled tt) (fun _ => 7%Z) (fun _ => []) in
  let running := Scenario.client (fun _ => Fulfilled tt)
                  (fun _ => Fulfilled tt) (fun _ => 7%Z) (fun _ => []) in
  stop (H := Scenario.engine) (H0 := absent) (new_Daemon 6532)
  = (Fulfilled tt, (stop (H := Scenario.engine) (H0 := absent) (new_Daemon 6532)).2)
  /\ trace (stop (H := Scenario.engine) (H0 := running) (new_Daemon 6532)).2
     = [NewWebSocket 6532 0; WsSend 0 Stop; WsClose 0].
Proof.
  intros absent running. split.
  - destruct (stop_policy (H := Scenario.engine) (H0 := absent) (new_Daemon 6532))
      as (_ & _ & Hclient & _).
    destruct (Hclient eq_refl) as [Hrefused _].
    destruct (Hrefused Scenario.ECONNREFUSED eq_refl) as (_ & Hok & _).
    rewrite <- (Hok eq_refl). now destruct (stop _).
  - destruct (stop_policy (H := Scenario.engine) (H0 := running) (new_Daemon 6532))
      as (_ & _ & Hclient & _).
    destruct (Hclient eq_refl) as [_ Hopen].
    exact (proj2 (Hopen eq_refl)).
Defined.

Lemma start_shape `{Runtime} `{Env} (w : World) :
  isInsideDaemon = false ->
  (exists ws, (open true w).1 = Fulfilled ws
              /\ start w = (Fulfilled tt, ws_close ws (open true w).2))
  \/ ((forall ws, (open true w).1 <> Fulfilled ws)
      /\ (start w).1 <> Fulfilled tt
      /\ (start w).2 = (open true w).2).
Proof.
  intros Hin. unfold start, bind. rewrite Hin.
  destruct (open true w) as [[ws|err|] w1]; cbn.
  - left. now exists ws.
  - right. repeat split; discriminate.
  - right. repeat split; discriminate.
Qed.

Lemma start_forks `{Runtime} `{Env} (w : World) :
  isInsideDaemon = false ->
  count_forks (trace (start w).2) <= count_forks (trace w) + 1.
Proof.
  intros Hin. pose proof (open_forks true w) as Hforks.
  destruct (start_shape w Hin) as [(ws & _ & ->) | (_ & _ & ->)]; [|exact Hforks].
  cbn [snd trace ws_close effect emit_effects set_trace].
  rewrite count_forks_app. cbn. lia.
Qed.

(** X4. [start] refuses to run inside the daemon, leaving everything as it
    is. From a client it sends no record at all; it forks at most one child;
    and when it fulfils, the last thing it did was to close the socket it
    had just opened. *)
Theorem start_policy `{Runtime} `{Env} (w : World) :
  let r := (start w).1 in
  let w' := (start w).2 in
  (isInsideDaemon = true ->
     start w = (Rejected (new_error ErrorK
                            "Cannot call .start() from within the daemon process"), w))
  /\ (isInsideDaemon = false ->
      (forall c, sent_on c (new_effects w w') = [])
      /\ count_forks (trace w') <= count_forks (trace w) + 1
      /\ (r = Fulfilled tt ->
          exists ws, S ws = sockets w' /\ last (trace w') = Some (WsClose ws))).
Proof.
  intros r w'. split.
  - intros Hin. unfold start. now rewrite Hin.
  - intros Hin.
    pose proof (open_trace true w) as Ht.
    pose proof (open_effects true w) as He. cbn zeta in He.
    destruct (start_shape w Hin) as [(ws & Hr & Hs) | (Hno & Hr & Hs)].
    + assert (Hw' : w' = ws_close ws (open true w).2) by (subst w'; now rewrite Hs).
      assert (Htr : trace w' = trace w ++ (new_effects w (open true w).2 ++ [WsClose ws])).
      { rewrite Hw'. cbn. rewrite Ht at 1. now rewrite <- app_assoc. }
      split; [|split].
      * intros c. rewrite (new_effects_app _ _ _ Htr), sent_on_app.
        destruct He as [(-> & _) | [(-> & _) | (-> & _)]]; reflexivity.
      * apply (start_forks w Hin).
      * intros _. exists ws. split.
        -- rewrite Hw'. cbn. now apply open_returns.
        -- rewrite Htr, app_assoc. apply last_snoc.
    + split; [|split].
      * intros c. subst w'. rewrite Hs.
        destruct He as [(-> & _) | [(-> & _) | (-> & _)]]; reflexivity.
      * apply (start_forks w Hin).
      * intros Hf. now destruct Hr.
Qed.

Lemma start_policy_witness :
  let env := Scenario.client
               (fun n => if Nat.eqb n 0 then Rejected Scenario.ECONNREFUSED
                         else Fulfilled tt)
               (fun _ => Fulfilled tt) (fun _ => 7%Z) (fun _ => []) in
  let w' := (start (H := Scenario.engine) (H0 := env) (new_Daemon 6532)).2 in
  (forall c, sent_on c (new_effects (new_Daemon 6532) w') = [])
  /\ exists ws, S ws = sockets w' /\ last (trace w') = Some (WsClose ws).
Proof.
  intros env w'.
  destruct (start_policy (H := Scenario.engine) (H0 := env) (new_Daemon 6532))
    as [_ Hclient].
  destruct (Hclient eq_refl) as (Hsent & _ & Hlast).
  split; [exact Hsent | apply Hlast; vm_compute; reflexivity].
Defined.

(** X5. From a client, [restart] is [stop] then [start]. It forks at most
    one child. If [stop] fails, [start] is not attempted. And if a daemon
    still accepts the connection that [start] makes right after the [stop]
    record was sent, no successor is forked: the client has then talked to
    the daemon it asked to stop. *)
Theorem client_restart_policy `{Runtime} `{Env} (w : World) :
  isInsideDaemon = false ->
  let n := sockets w in
  let r := (restart w).1 in
  let w' := (restart w).2 in
  count_forks (trace w') <= count_forks (trace w) + 1
  /\ (forall err, connect_outcome n = Rejected err -> is_ECONNREFUSED err = false ->
        r = Rejected err /\ trace w' = trace w ++ [NewWebSocket (port w) n])
  /\ (connect_outcome n = Fulfilled tt -> connect_outcome (S n) = Fulfilled tt ->
        r = Fulfilled tt
        /\ trace w' = trace w ++ [NewWebSocket (port w) n; WsSend n Stop; WsClose n;
                                  NewWebSocket (port w) (S n); WsClose (S n)]).
Proof.
  intros Hin n r w'. subst n r w'. split; [|split].
  - unfold restart, bind. rewrite Hin.
    destruct (stop_quiet w) as (_ & _ & Hstop).
    destruct (stop w) as [[[]|err|] w1]; cbn [fst snd] in *; try lia.
    pose proof (start_forks w1 Hin). lia.
  - intros err Hc Hne.
    unfold restart, bind, stop, open, try_catch. rewrite Hin, request_spec, Hc.
    cbn [fst snd]. rewrite andb_false_r. unfold throw. rewrite Hne. now split.
  - intros Hc1 Hc2.
    unfold restart, bind, stop, start, bind, open, try_catch, do.
    rewrite Hin, request_spec, Hc1. cbn [fst snd].
    rewrite request_spec.
    cbn [sockets port set_sockets effect emit_effects set_trace ws_on set_listeners
         ws_send ws_close].
    rewrite Hc2. cbn. rewrite <- !app_assoc. now split.
Qed.

Lemma client_restart_policy_witness :
  let env := Scenario.client (fun _ => Fulfilled tt)
               (fun _ => Fulfilled tt) (fun _ => 7%Z) (fun _ => []) in
  trace (restart (H := Scenario.engine) (H0 := env) (new_Daemon 6532)).2
  = [NewWebSocket 6532 0; WsSend 0 Stop; WsClose 0; NewWebSocket 6532 1; WsClose 1].
Proof.
  intros env.
  destruct (client_restart_policy (H := Scenario.engine) (H0 := env)
              (new_Daemon 6532) eq_refl) as (_ & _ & Hboth).
  exact (proj2 (Hboth eq_refl eq_refl)).
Defined.

(** ** [send] *)

(** The draw of an id only advances the random source. *)
Lemma allocate_draws `{Env} (fuel : nat) (w : World) :
  exists k, (allocate fuel w).2 = set_draws k w.
Proof.
  revert w. induction fuel as [|fuel IH]; intros w; cbn.
  - exists (draws w). now destruct w.
  - destruct (bool_decide _); [|eauto].
    destruct (IH (set_draws (S (draws w)) w)) as [k ->]. now exists k.
Qed.

(** The two halves of [request], and of [open], make the whole. *)
Lemma request_split `{Env} (w : World) :
  request w = request_finish (request_start w).1 (request_start w).2.
Proof.
  unfold request, request_finish, request_start. cbn [fst snd].
  now destruct (connect_outcome (sockets w)).
Qed.

Lemma open_split `{Env} (autoSpawn : bool) (w : World) :
  open autoSpawn w = open_finish autoSpawn (request_start w).1 (request_start w).2.
Proof. unfold open, open_finish, try_catch. now rewrite request_split. Qed.

(** The rest of [open] writes to the sockets, the children, the listeners
    and the trace only, and the socket it returns is the one it was
    waiting for or one created since. *)
Lemma open_finish_keeps `{Env} (autoSpawn : bool) (ws : Conn) (w : World) :
  let r := (open_finish autoSpawn ws w).1 in
  let w' := (open_finish autoSpawn ws w).2 in
  messages w' = messages w /\ promises w' = promises w
  /\ stream_sets w' = stream_sets w
  /\ (forall ws', r = Fulfilled ws' -> ws' = ws \/ sockets w <= ws').
Proof.
  unfold open_finish, try_catch, request_finish.
  destruct (connect_outcome ws) as [[]|err|]; cbn [fst snd].
  - repeat split. intros ws' [= <-]. now left.
  - destruct (is_ECONNREFUSED err && autoSpawn); [|repeat split; intros ws' [=]].
    unfold bind. rewrite spawn_spec.
    destruct (fork_outcome _) as [[]|err2|]; cbn [fst snd];
      [|repeat split; intros ws' [=]|repeat split; intros ws' [=]].
    rewrite request_spec. cbn [sockets set_children effect emit_effects set_trace].
    destruct (connect_outcome (sockets w)) as [[]|err3|]; cbn [fst snd];
      repeat split; intros ws' [=]. subst ws'. right. lia.
  - repeat split. intros ws' [=].
Qed.

(** X6. [send] in its two steps. The call draws an id that is not in the
    table at that moment, makes a fresh, empty [onMessage] set and starts
    the connection; it registers nothing and sends nothing. The entry is
    stored later, when the connection has opened, in whatever state the
    table is then: under the id drawn, with the set handed out and the two
    callbacks of a fresh, pending promise whose [finally] closes the socket
    opened, replacing an entry that has taken the same id in the meantime
    and leaving the other entries alone; the [message] record is the last
    thing sent, on that socket. When the connection fails or never settles,
    the table and the promises stay as they are. *)
Theorem send_registers `{Runtime} `{Env}
    (fuel : nat) (data : jsval) (autoSpawn : bool) :
  isInsideDaemon = false ->
  (forall w id s ws,
     (send fuel data autoSpawn w).1 = Fulfilled (id, s, ws) ->
     let w' := (send fuel data autoSpawn w).2 in
     messages w !! id = None
     /\ messages w' = messages w
     /\ promises w' = promises w
     /\ s = length (stream_sets w)
     /\ stream_sets w' = stream_sets w ++ [[]]
     /\ ws = sockets w
     /\ new_effects w w' = [NewWebSocket (port w) ws])
  /\ (forall w id s ws,
     let r := (send_opened id s data autoSpawn ws w).1 in
     let w' := (send_opened id s data autoSpawn ws w).2 in
     stream_sets w' = stream_sets w
     /\ (forall p, r = Fulfilled p ->
          messages w' = <[id := mkEntry s p p]> (messages w)
          /\ p = length (promises w)
          /\ exists ws', (ws' = ws \/ sockets w <= ws')
               /\ promises w' = promises w ++ [mkPromise Pending (Some ws')]
               /\ last (trace w') = Some (WsSend ws' (Message id data)))
     /\ ((forall p, r <> Fulfilled p) ->
          messages w' = messages w /\ promises w' = promises w)).
Proof.
  intros Hin. split.
  - intros w id s ws. unfold send, bind, send_begin. rewrite Hin.
    destruct (allocate_draws fuel w) as [k Hk].
    destruct (allocate fuel w) as [[id'|] w1] eqn:Ha; cbn [fst snd] in *;
      [|discriminate].
    apply allocate_fresh in Ha as [Hfree _]. subst w1.
    intros [= <- <- <-]. cbn [fst snd].
    repeat split; try assumption; try reflexivity.
    apply new_effects_app. reflexivity.
  - intros w id s ws r w'. subst r w'. unfold send_opened, bind.
    destruct (open_finish_keeps autoSpawn ws w) as (Hm & Hp & Hs & Hws).
    destruct (open_finish autoSpawn ws w) as [[ws'|err|] w1]; cbn [fst snd] in *.
    + unfold send_then, new_promise. cbn. rewrite Hm, Hp. split; [exact Hs|]. split.
      * intros p [= <-]. split; [reflexivity|]. split; [reflexivity|].
        exists ws'. split; [now apply Hws|]. split; [reflexivity|]. apply last_snoc.
      * intros Hno. now destruct (Hno (length (promises w))).
    + split; [exact Hs|]. split; [intros p [=]|]. intros _. now split.
    + split; [exact Hs|]. split; [intros p [=]|]. intros _. now split.
Qed.

(** Two requests are sent before either connection has opened, and the
    random source gives the same number twice: both get id 7, and once both
    connections are open the table holds the second request only. *)
Lemma send_registers_witness :
  let env := Scenario.client (fun _ => Fulfilled tt) (fun _ => Fulfilled tt)
               (fun _ => 7%Z) (fun _ => []) in
  let send1 := send (H := Scenario.engine) (H0 := env) 1 (JsVal "a") false
                 (new_Daemon 6532) in
  let send2 := send (H := Scenario.engine) (H0 := env) 1 (JsVal "b") false send1.2 in
  let open1 := send_opened (H := env) 7 0 (JsVal "a") false 0 send2.2 in
  let open2 := send_opened (H := env) 7 1 (JsVal "b") false 1 open1.2 in
  send1.1 = Fulfilled (7%Z, 0, 0)
  /\ send2.1 = Fulfilled (7%Z, 1, 1)
  /\ messages send2.2 = ∅
  /\ messages open1.2 = <[7%Z := mkEntry 0 0 0]> ∅
  /\ messages open2.2 = <[7%Z := mkEntry 1 1 1]> (<[7%Z := mkEntry 0 0 0]> ∅)
  /\ messages open2.2 !! 7%Z = Some (mkEntry 1 1 1).
Proof.
  intros env send1 send2 open1 open2.
  destruct (send_registers (H := Scenario.engine) (H0 := env) 1 (JsVal "a") false eq_refl)
    as [Hcall1 Hopen1].
  destruct (send_registers (H := Scenario.engine) (H0 := env) 1 (JsVal "b") false eq_refl)
    as [Hcall2 Hopen2].
  destruct (Hcall1 (new_Daemon 6532) 7%Z 0 0 eq_refl) as (_ & Hm1 & _).
  destruct (Hcall2 send1.2 7%Z 1 1 eq_refl) as (_ & Hm2 & _).
  destruct (Hopen1 send2.2 7%Z 0 0) as (_ & Hreg1 & _).
  destruct (Hreg1 0 eq_refl) as (Ht1 & _).
  destruct (Hopen2 open1.2 7%Z 1 1) as (_ & Hreg2 & _).
  destruct (Hreg2 1 eq_refl) as (Ht2 & _).
  fold send1 in Hm1. fold send2 in Hm2. fold open1 in Ht1. fold open2 in Ht2.
  split; [reflexivity|]. split; [reflexivity|].
  assert (He : messages send2.2 = ∅) by (rewrite Hm2, Hm1; reflexivity).
  split; [exact He|]. split; [now rewrite Ht1, He|].
  split; [now rewrite Ht2, Ht1, He|].
  rewrite Ht2. apply lookup_insert_eq.
Defined.

(** ** The server of the daemon *)

Lemma wss_status `{Runtime} `{Env} (w : World) :
  wss (status w).2 = wss w /\ port (status w).2 = port w.
Proof.
  unfold status. destruct (open_keeps false w) as (_ & _ & _ & _ & _ & Hw & _ & Hp).
  destruct (open false w) as [[ws|err|] w1]; cbn [fst snd] in *; try (now split).
  - destruct (status_query_shape ws w1) as (w2 & (Hp2 & Hw2 & _) & Hcase).
    cbn in Hp2, Hw2.
    destruct Hcase as [-> | ->]; cbn; rewrite ?Hp2, ?Hw2; now split.
  - destruct (is_ECONNREFUSED err); now split.
Qed.

Lemma wss_stop `{Runtime} `{Env} (w : World) :
  wss (stop w).2 = wss w /\ port (stop w).2 = port w.
Proof.
  unfold stop. destruct isInsideDaemon.
  - unfold do, wss_close; cbn. destruct (wss w) eqn:E; cbn; rewrite ?E; now split.
  - destruct (open_keeps false w) as (_ & _ & _ & _ & _ & Hw & _ & Hp).
    destruct (open false w) as [[ws|err|] w1]; cbn [fst snd] in *; try (now split).
    destruct (is_ECONNREFUSED err); now split.
Qed.

Lemma wss_restart `{Runtime} `{Env} (w : World) :
  isInsideDaemon = true ->
  wss (restart w).2 = wss w /\ port (restart w).2 = port w.
Proof.
  intros Hin. unfold restart. rewrite Hin.
  destruct (rebootInProgress w); cbn [negb]; [now split|].
  rewrite spawn_spec. unfold wss_close. cbn. destruct (wss w) eqn:E; cbn; rewrite ?E; now split.
Qed.

(** X7. A daemon only starts once. The first [runExit] of a daemon creates
    the server on the configured port; from then on every [runExit] rejects
    and changes nothing, for no step of the daemon ever forgets the server
    or changes the port. *)
Theorem runExit_once `{Runtime} `{Env} :
  isInsideDaemon = true ->
  (forall w, wss w = None ->
     (runExit w).1 = Fulfilled tt
     /\ wss (runExit w).2 = Some (port w)
     /\ new_effects w (runExit w).2 = [NewWebSocketServer (port w)])
  /\ (forall w p, wss w = Some p ->
     runExit w = (Rejected (new_error ErrorK "Daemons can only start once"), w))
  /\ (forall steps w p, wss w = Some p ->
     wss (daemon_run steps w) = Some p /\ port (daemon_run steps w) = port w).
Proof.
  intros Hin. split; [|split].
  - intros w Hw. unfold runExit. rewrite Hin. cbn [negb]. rewrite Hw. cbn [fst snd].
    repeat split. now apply new_effects_app.
  - intros w p Hw. unfold runExit. rewrite Hin. cbn [negb]. now rewrite Hw.
  - intros steps. induction steps as [|s steps IH]; intros w p Hw; cbn; [now split|].
    assert (Hstep : wss (daemon_step s w) = wss w /\ port (daemon_step s w) = port w).
    { unfold daemon_step. destruct (crashed w); [now split|].
      destruct s.
      - unfold runExit. rewrite Hin. cbn [negb]. rewrite Hw. now split.
      - now apply wss_restart.
      - apply wss_stop.
      - apply wss_status.
      - now rewrite (start_inside w Hin).
      - now rewrite (send_inside fuel data autoSpawn w Hin).
      - destruct (steady_server_event ev w) as (Hp & Hs & _). now split. }
    destruct Hstep as [Hs Hp].
    destruct (IH (daemon_step s w) p) as [Hs' Hp']; [congruence|].
    unfold daemon_run in *. split; congruence.
Qed.

(** A daemon is started twice, with a client coming and going in between:
    the second start is refused. *)
Lemma runExit_once_witness :
  let env := Scenario.worker (Some "1.0.0") (fun _ => Pending)
               (fun _ => Fulfilled tt) Scenario.command in
  let w := daemon_run (H := Scenario.engine) (H0 := env)
             [CallRunExit; Server Listening; Server (Connection 0);
              Server (SocketClose 0)] (new_Daemon 6532) in
  (runExit (H := Scenario.engine) (H0 := env) w).1
  = Rejected (new_error (H := Scenario.engine) ErrorK "Daemons can only start once").
Proof.
  intros env w.
  destruct (runExit_once (H := Scenario.engine) (H0 := env) eq_refl)
    as (Hfirst & Hsecond & Hkeeps).
  destruct (Hfirst (new_Daemon 6532) eq_refl) as (_ & Hwss & _).
  destruct (Hkeeps [Server Listening; Server (Connection 0); Server (SocketClose 0)]
              (runExit (H := Scenario.engine) (H0 := env) (new_Daemon 6532)).2
              6532%Z Hwss) as [Hw _].
  now rewrite (Hsecond w 6532%Z Hw).
Defined.

(** The shape of an async listener made of a loop over hooks and a final
    call. *)
Lemma hooks_then_spec `{Env} (fns : list Hook) (final : Effect) (w : World) :
  let loop := JsSet.for_of_await hook_outcome fns in
  trace (let '(e, w) := run_hooks fns w in after_loop e (effect final) w)
  = trace w ++ map CallHook loop.1
      ++ match loop.2 with
         | JsSet.Completed => [final]
         | JsSet.Aborted _ => [Uncaught]
         | JsSet.Blocked => []
         end.
Proof.
  intros loop. unfold run_hooks. fold loop.
  destruct loop as [started []]; cbn; rewrite <- ?app_assoc, ?app_nil_r; reflexivity.
Qed.

(** X8. The daemon tells its parent that it is ready only after every
    [onStart] hook has been called, in order, and has fulfilled; likewise
    the promise of [runExit] is resolved on the server's ['close'] only
    after every [onStop] hook. A hook that rejects or never settles is the
    last one called, and then the signal is never given. *)
Theorem lifecycle_hooks `{Env} (w : World) :
  (Forall (fun fn => hook_outcome fn = Fulfilled tt) onStart ->
     new_effects w (on_listening w) = map CallHook onStart ++ [ProcessSendReady])
  /\ (forall before fn after, onStart = before ++ fn :: after ->
        Forall (fun fn => hook_outcome fn = Fulfilled tt) before ->
        hook_outcome fn <> Fulfilled tt ->
        hook_calls (new_effects w (on_listening w)) = before ++ [fn]
        /\ ProcessSendReady ∉ new_effects w (on_listening w))
  /\ (Forall (fun fn => hook_outcome fn = Fulfilled tt) onStop ->
     new_effects w (on_server_close w) = map CallHook onStop ++ [ResolveRunExit])
  /\ (forall before fn after, onStop = before ++ fn :: after ->
        Forall (fun fn => hook_outcome fn = Fulfilled tt) before ->
        hook_outcome fn <> Fulfilled tt ->
        hook_calls (new_effects w (on_server_close w)) = before ++ [fn]
        /\ ResolveRunExit ∉ new_effects w (on_server_close w)).
Proof.
  assert (Hall : forall fns final,
    Forall (fun fn => hook_outcome fn = Fulfilled tt) fns ->
    new_effects w (let '(e, w) := run_hooks fns w in after_loop e (effect final) w)
    = map CallHook fns ++ [final]).
  { intros fns final Hf. apply new_effects_app.
    rewrite hooks_then_spec, (for_of_await_fulfilled _ _ Hf). reflexivity. }
  assert (Hstop : forall fns final before fn after,
    (forall h, final <> CallHook h) -> final <> Uncaught ->
    fns = before ++ fn :: after ->
    Forall (fun fn => hook_outcome fn = Fulfilled tt) before ->
    hook_outcome fn <> Fulfilled tt ->
    let new := new_effects w
                 (let '(e, w) := run_hooks fns w in after_loop e (effect final) w) in
    hook_calls new = before ++ [fn] /\ final ∉ new).
  { intros fns final before fn after Hnh Hnu -> Hb Hfn new. subst new.
    erewrite new_effects_app; [|apply hooks_then_spec].
    rewrite (for_of_await_stops _ _ _ _ Hb).
    destruct (hook_outcome fn) as [[]| |]; [congruence| |]; cbn [fst snd]; split;
      try (rewrite hook_calls_app, hook_calls_map; cbn; now rewrite ?app_nil_r).
    - intros [Hin | Hin%list_elem_of_singleton]%elem_of_app; [|congruence].
      apply list_elem_of_fmap in Hin as (h & -> & _). now apply (Hnh h).
    - rewrite app_nil_r. intros Hin.
      apply list_elem_of_fmap in Hin as (h & -> & _). now apply (Hnh h). }
  split; [|split; [|split]].
  - apply Hall.
  - intros before fn after. now apply Hstop.
  - apply Hall.
  - intros before fn after. now apply Hstop.
Qed.

(** Two start hooks, of which the second never settles: the first two
    calls are made and the parent is never told that the daemon is ready. *)
Lemma lifecycle_hooks_witness :
  let env : Env :=
    {| isInsideDaemon := true;
       connect_outcome := fun _ => Rejected Scenario.ECONNREFUSED;
       fork_outcome := fun _ => Pending;
       random_id := fun n => Z.of_nat n;
       frames_received := fun _ => [];
       stream_handler := fun _ _ => Fulfilled tt;
       binaryVersion := Some "1.0.0";
       onMessage_handler := None;
       cli_run := Scenario.command;
       onStart := [1; 2; 3];
       onStop := [4];
       hook_outcome := fun h => if Nat.eqb h 2 then Pending else Fulfilled tt |} in
  let w := new_Daemon 6532 in
  hook_calls (new_effects w (on_listening (H := env) w)) = [1; 2]
  /\ (ProcessSendReady ∉ new_effects w (on_listening (H := env) w))
  /\ new_effects w (on_server_close (H := env) w) = [CallHook 4; ResolveRunExit].
Proof.
  intros env w.
  destruct (lifecycle_hooks (H := env) w) as (_ & Hstart & Hstop & _).
  destruct (Hstart [1] 2 [3] eq_refl) as [Hcalls Hready].
  - repeat constructor.
  - discriminate.
  - split; [exact Hcalls|]. split; [exact Hready|].
    apply Hstop. repeat constructor.
Defined.

(** ** A custom request, from the client to the daemon and back *)

Lemma sent_on_map {A} (ws : Conn) (f : A -> payload) (l : list A) :
  sent_on ws (map (fun a => WsSend ws (f a)) l) = map f l.
Proof.
  induction l as [|a l IH]; [reflexivity|].
  cbn. rewrite bool_decide_eq_true_2 by reflexivity. cbn. f_equal. exact IH.
Qed.

(** The records with which the daemon answers a [message] record. *)
Lemma daemon_replies_message `{Runtime} `{Env} (ws : Conn) (id : Z) (data : jsval)
    (w : World) :
  daemon_replies ws (Json (Message id data)) w
  = match onMessage_handler with
    | None => [MessageResolve id undefined]
    | Some handler =>
        map (MessageYield id) (h_sent (handler data))
          ++ match h_result (handler data) with
             | Fulfilled res => [MessageResolve id res]
             | Rejected error => [MessageReject id (errorToSerializable error)]
             | Pending => []
             end
    end.
Proof.
  unfold daemon_replies, on_socket_message. cbn [JSON_parse].
  destruct onMessage_handler as [handler|].
  - set (tail := match h_result (handler data) with
                 | Fulfilled res => [WsSend ws (MessageResolve id res)]
                 | Rejected error =>
                     [WsSend ws (MessageReject id (errorToSerializable error))]
                 | Pending => []
                 end).
    rewrite (new_effects_app _ _
               ([CallOnMessage data]
                  ++ map (fun d => WsSend ws (MessageYield id d)) (h_sent (handler data))
                  ++ tail)).
    + rewrite !sent_on_app, sent_on_map. subst tail. cbn.
      destruct (h_result (handler data)); cbn;
        rewrite ?bool_decide_eq_true_2 by reflexivity; reflexivity.
    + subst tail. destruct (h_result (handler data)); cbn;
        rewrite <- ?app_assoc, ?app_nil_r; reflexivity.
  - rewrite (new_effects_app _ _ [WsSend ws (MessageResolve id undefined)]) by reflexivity.
    cbn. now rewrite bool_decide_eq_true_2.
Qed.

Lemma emit_effects_app (es1 es2 : list Effect) (w : World) :
  emit_effects es2 (emit_effects es1 w) = emit_effects (es1 ++ es2) w.
Proof. unfold emit_effects. destruct w; cbn. now rewrite app_assoc. Qed.

Lemma emit_effects_nil (w : World) : emit_effects [] w = w.
Proof. unfold emit_effects. destruct w; cbn. now rewrite app_nil_r. Qed.

Lemma client_receives_app `{Runtime} `{Env} (l1 l2 : list payload) (w : World) :
  client_receives (l1 ++ l2) w = client_receives l2 (client_receives l1 w).
Proof. unfold client_receives, table_run. now rewrite map_app, foldl_app. Qed.

(** Partial results reach every callback of the request's [onMessage] set,
    record by record. *)
Lemma client_receives_yields `{Runtime} `{Env} (id : Z) (m : Entry) (sent : list jsval)
    (w : World) :
  messages w !! id = Some m ->
  crashed w = false ->
  let fns := default [] (stream_sets w !! onMessage m) in
  (forall fn d, fn ∈ fns -> d ∈ sent -> stream_handler fn d = Fulfilled tt) ->
  client_receives (map (MessageYield id) sent) w
  = emit_effects (flat_map (fun d => map (fun fn => CallStream fn d) fns) sent) w.
Proof.
  intros Hm Hc fns Hfns. revert Hfns. induction sent as [|d sent IH] using rev_ind; intros Hfns.
  - cbn. now rewrite emit_effects_nil.
  - rewrite map_app, client_receives_app, IH, flat_map_app
      by (intros fn d' Hfn Hd; apply Hfns; [exact Hfn | apply elem_of_app; now left]).
    cbn [map flat_map]. rewrite app_nil_r, <- emit_effects_app.
    unfold client_receives, table_run, table_step. cbn [map foldl crashed emit_effects set_trace].
    rewrite Hc. unfold request_on_message. cbn [JSON_parse messages stream_sets emit_effects set_trace].
    rewrite Hm. fold fns.
    rewrite for_of_await_fulfilled; [reflexivity|].
    apply Forall_forall. intros fn Hfn. apply Hfns; [exact Hfn|].
    apply elem_of_app. right. now apply list_elem_of_singleton.
Qed.

(** Settling a pending promise through its resolving function. *)
Lemma settle_pending (p : PromiseId) (r : settle JsError jsresult) (fin : option Conn)
    (w : World) :
  promises w !! p = Some (mkPromise Pending fin) ->
  crashed w = false ->
  let w' := settle_promise p r w in
  trace w' = trace w ++ closing fin
  /\ (await p w').1 = r
  /\ messages w' = messages w
  /\ crashed w' = false.
Proof.
  intros Hp Hc w'. subst w'. unfold settle_promise, await. rewrite Hp.
  assert (Hlt : p < length (promises w)) by (now apply lookup_lt_Some in Hp).
  destruct fin as [ws|]; cbn; rewrite Hc, list_lookup_insert_eq by exact Hlt; cbn;
    rewrite ?app_nil_r; now repeat split.
Qed.

(** X9. A custom request end to end. The daemon answers a [message] record
    on the socket it came from; the client that holds the entry of the
    request in its table receives the answer, record by record. Every
    partial result the handler hands out reaches every callback of the
    request's [onMessage] set, in the order sent, before the request is
    settled (the callbacks being done with a record when the next arrives);
    what the handler returns fulfils [done]; what it throws rejects [done],
    carried by the error codec; the entry then leaves the table and the
    [finally] callback of [done] closes the socket. A daemon without handler
    answers [undefined]. And while the handler has not returned, the request
    stays pending, in the table. *)
Theorem request_round_trip (Rc Rd : Runtime) (client daemon : Env)
    (id : Z) (data : jsval) (m : Entry) (fin : option Conn) (ws : Conn)
    (wd w : World) :
  messages w !! id = Some m ->
  reject m = resolve m ->
  promises w !! resolve m = Some (mkPromise Pending fin) ->
  crashed w = false ->
  let fns := default [] (stream_sets w !! onMessage m) in
  let run := match onMessage_handler (Env := daemon) with
             | Some handler => handler data
             | None => mkHandlerRun [] [] (Fulfilled undefined)
             end in
  let replies := daemon_replies (H := Rd) (H0 := daemon) ws (Json (Message id data)) wd in
  let w' := client_receives (H := Rc) (H0 := client) replies w in
  let streamed := flat_map (fun d => map (fun fn => CallStream fn d) fns) (h_sent run) in
  (forall fn d, fn ∈ fns -> d ∈ h_sent run ->
     stream_handler (Env := client) fn d = Fulfilled tt) ->
  match h_result run with
  | Fulfilled res =>
      new_effects w w' = streamed ++ CallResolve (resolve m) (Data res) :: closing fin
      /\ (await (resolve m) w').1 = Fulfilled (Data res)
      /\ messages w' = delete id (messages w)
  | Rejected error =>
      let e := serializableToError (H := Rc) (errorToSerializable (H := Rd) error) in
      new_effects w w' = streamed ++ CallReject (resolve m) e :: closing fin
      /\ (await (resolve m) w').1 = Rejected e
      /\ messages w' = delete id (messages w)
  | Pending =>
      new_effects w w' = streamed
      /\ (await (resolve m) w').1 = Pending
      /\ messages w' = messages w
  end.
Proof.
  intros Hm Hrej Hp Hc fns run replies w' streamed Hfns.
  assert (Hreplies : replies
    = map (MessageYield id) (h_sent run)
        ++ match h_result run with
           | Fulfilled res => [MessageResolve id res]
           | Rejected error => [MessageReject id (errorToSerializable (H := Rd) error)]
           | Pending => []
           end).
  { subst replies run. rewrite daemon_replies_message.
    now destruct (onMessage_handler (Env := daemon)). }
  subst w'. rewrite Hreplies, client_receives_app.
  rewrite (client_receives_yields (H := Rc) (H0 := client) id m (h_sent run) w Hm Hc Hfns).
  fold fns. fold streamed.
  set (w1 := emit_effects streamed w).
  assert (Hm1 : messages w1 !! id = Some m) by exact Hm.
  assert (Hc1 : crashed w1 = false) by exact Hc.
  destruct (h_result run) as [res|error|].
  - unfold client_receives, table_run, table_step. cbn [map foldl]. rewrite Hc1.
    destruct (request_on_message_resolve (H := Rc) (H0 := client) id res m w1 Hm1)
      as (-> & _ & _).
    unfold call_resolve.
    destruct (settle_pending (resolve m) (Fulfilled (Data res)) fin
                (effect (CallResolve (resolve m) (Data res))
                   (set_messages (delete id (messages w1)) w1)) Hp Hc)
      as (Ht & Ha & Hms & _).
    split; [|split]; [|exact Ha|exact Hms].
    apply new_effects_app. rewrite Ht. cbn. now rewrite <- !app_assoc.
  - unfold client_receives, table_run, table_step. cbn [map foldl]. rewrite Hc1.
    destruct (request_on_message_reject (H := Rc) (H0 := client) id
                (errorToSerializable (H := Rd) error) m w1 Hm1) as (-> & _ & _).
    rewrite Hrej. unfold call_reject. cbn zeta.
    destruct (settle_pending (resolve m)
                (Rejected (serializableToError (H := Rc)
                             (errorToSerializable (H := Rd) error))) fin
                (effect (CallReject (resolve m)
                           (serializableToError (H := Rc)
                              (errorToSerializable (H := Rd) error)))
                   (set_messages (delete id (messages w1)) w1)) Hp Hc)
      as (Ht & Ha & Hms & _).
    split; [|split]; [|exact Ha|exact Hms].
    apply new_effects_app. rewrite Ht. cbn. now rewrite <- !app_assoc.
  - cbn. split; [|split].
    + now apply new_effects_app.
    + unfold await. cbn. now rewrite Hc, Hp.
    + reflexivity.
Qed.

(** A request is sent, a callback is added to its [onMessage] set, the
    connection opens, and the daemon's handler hands out two partial
    results before it returns. *)
Lemma request_round_trip_witness :
  let handler := fun data : jsval =>
    mkHandlerRun [JsVal "1"; JsVal "2"] [] (Fulfilled (JsVal "3")) in
  let daemon := Scenario.worker_with_handler handler in
  let client := Scenario.client (fun _ => Fulfilled tt) (fun _ => Fulfilled tt)
                  (fun _ => 7%Z) (fun _ => []) in
  let w := (send_opened (H := client) 7 0 (JsVal "42") false 0
              (onMessage_add 0 5
                 (send (H := Scenario.engine) (H0 := client) 1 (JsVal "42") false
                    (new_Daemon 6532)).2)).2 in
  let replies := daemon_replies (H := Scenario.engine) (H0 := daemon) 0
                   (Json (Message 7 (JsVal "42"))) (new_Daemon 6532) in
  let w' := client_receives (H := Scenario.engine) (H0 := client) replies w in
  new_effects w w' = [CallStream 5 (JsVal "1"); CallStream 5 (JsVal "2");
                      CallResolve 0 (Data (JsVal "3")); WsClose 0]
  /\ (await 0 w').1 = Fulfilled (Data (JsVal "3"))
  /\ messages w' = delete 7%Z (messages w).
Proof.
  intros handler daemon client w replies w'.
  apply (request_round_trip Scenario.engine Scenario.engine client daemon
           7%Z (JsVal "42") (mkEntry 0 0 0) (Some 0) 0 (new_Daemon 6532) w
           eq_refl eq_refl eq_refl eq_refl).
  intros fn d _ _. reflexivity.
Defined.

(** ** A wrapped command, from the client to the daemon and back *)

(** The records with which the daemon answers a [cli] record. *)
Lemma daemon_replies_cli `{Runtime} `{Env} (ws : Conn) (args context : jsval)
    (version : option string) (w : World) :
  daemon_replies ws (Json (Cli args version context)) w
  = if bool_decide (version ≠ binaryVersion) then
      [Error (errorToSerializable
                (ThrownError (new_error UsageErrorK (mismatch version binaryVersion))))]
    else
      map (fun b => Stdout (toString_base64 b)) (c_written (cli_run args context))
        ++ match c_result (cli_run args context) with
           | Fulfilled exitCode => [Exit exitCode]
           | Rejected err => [Error (errorToSerializable err)]
           | Pending => []
           end.
Proof.
  unfold daemon_replies, on_socket_message. cbn [JSON_parse].
  destruct (bool_decide (version ≠ binaryVersion)).
  - unfold sendError, ws_send.
    rewrite (new_effects_app _ _ [WsSend ws (Error (errorToSerializable
               (ThrownError (new_error UsageErrorK (mismatch version binaryVersion)))))])
      by reflexivity.
    cbn. now rewrite bool_decide_eq_true_2.
  - set (run := cli_run args context).
    set (tail := match c_result run with
                 | Fulfilled exitCode => [WsSend ws (Exit exitCode)]
                 | Rejected err => [WsSend ws (Error (errorToSerializable err))]
                 | Pending => []
                 end).
    rewrite (new_effects_app _ _
               ([CallCliRun args context]
                  ++ map (fun b => WsSend ws (Stdout (toString_base64 b))) (c_written run)
                  ++ tail)).
    + rewrite !sent_on_app, (sent_on_map ws (fun b => Stdout (toString_base64 b))).
      subst tail. cbn.
      destruct (c_result run); cbn;
        rewrite ?bool_decide_eq_true_2 by reflexivity; reflexivity.
    + subst tail. unfold sendError. destruct (c_result run); cbn;
        rewrite <- ?app_assoc, ?app_nil_r; reflexivity.
Qed.

(** The client of a command writes the output records to its [stdout] as
    they come and goes on listening. *)
Lemma deliver_stdout `{Runtime} `{Env} (ws : Conn) (p : PromiseId) (outs : list string)
    (rest : list frame) (w : World) :
  listeners_of ws OnMessage w = [RequestMessage; RegisterMessage p] ->
  crashed w = false ->
  promises w !! p = Some (mkPromise Pending None) ->
  deliver_until_settled ws p (map (fun d => Json (Stdout d)) outs ++ rest) w
  = deliver_until_settled ws p rest (emit_effects (map StdoutWrite outs) w).
Proof.
  revert w. induction outs as [|d outs IH]; intros w Hl Hc Hp.
  - cbn. now rewrite emit_effects_nil.
  - cbn [map app deliver_until_settled].
    assert (He : emit ws (EvMessage (Json (Stdout d))) w = effect (StdoutWrite d) w).
    { unfold emit. cbn [event_name]. rewrite Hl. cbn [foldl]. rewrite Hc.
      cbn [run_listener]. unfold request_on_message. cbn [JSON_parse]. rewrite Hc.
      reflexivity. }
    rewrite He. unfold is_settled. cbn [crashed promises effect emit_effects set_trace].
    rewrite Hc, Hp. cbn [orb].
    rewrite IH by assumption.
    unfold effect. now rewrite emit_effects_app.
Qed.

Lemma await_snd (p : PromiseId) (w : World) : (await p w).2 = w.
Proof. unfold await. destruct (crashed w); [reflexivity|]. now destruct (promises w !! p). Qed.

(** The last record of a command settles the promise of the client. *)
Lemma deliver_last `{Runtime} `{Env} (ws : Conn) (p : PromiseId) (f : frame) (w : World) :
  deliver_until_settled ws p [f] w = emit ws (EvMessage f) w.
Proof. cbn. now destruct (crashed _ || is_settled p _). Qed.

Lemma emit_command_end `{Runtime} `{Env} (ws : Conn) (p : PromiseId) (f : frame)
    (w : World) :
  listeners_of ws OnMessage w = [RequestMessage; RegisterMessage p] ->
  crashed w = false ->
  (exists code, f = Json (Exit code)) \/ (exists error, f = Json (Error error)) ->
  emit ws (EvMessage f) w = register_on_message ws p f w.
Proof.
  intros Hl Hc Hf. unfold emit. cbn [event_name]. rewrite Hl. cbn [foldl]. rewrite Hc.
  cbn [run_listener].
  destruct Hf as [[code ->] | [error ->]]; unfold request_on_message; cbn [JSON_parse];
    now rewrite Hc.
Qed.

(** X10. A wrapped command end to end. The client sends one [cli] record on
    the socket it has opened and receives what the daemon answers to it. A
    daemon of another version runs nothing, and the command fails on the
    client with a [UsageError] that names the two versions. Otherwise each
    chunk of output of the command is written to the client's [stdout], in
    order, before the command settles; the exit code of the command is the
    result; a failure of the command is a failure on the client, carried by
    the error codec; in both cases the socket is closed first. And while the
    command has not ended on the daemon, the client waits. *)
Theorem command_round_trip (Rc Rd : Runtime) (client daemon : Env)
    (fn : Async jsresult) (args context : jsval) (version : option string)
    (ws wsd : Conn) (wd w : World) :
  isInsideDaemon (Env := client) = false ->
  sockets_fresh w ->
  crashed w = false ->
  (open (H := client) true w).1 = Fulfilled ws ->
  frames_received (Env := client) ws
    = map Json (daemon_replies (H := Rd) (H0 := daemon) wsd
                  (Json (Cli args version context)) wd) ->
  let run := cli_run (Env := daemon) args context in
  let theirs := binaryVersion (Env := daemon) in
  let r := (register (H := Rc) (H0 := client) fn args context version w).1 in
  let w' := (register (H := Rc) (H0 := client) fn args context version w).2 in
  let p := length (promises w) in
  let asked := WsSend ws (Cli args version context) in
  let written := map (fun b => StdoutWrite (toString_base64 b)) (c_written run) in
  let new := new_effects (open (H := client) true w).2 w' in
  if bool_decide (version ≠ theirs) then
    let e := mkError UsageErrorK (mismatch version theirs)
               (captureStackTrace (Runtime := Rd) UsageErrorK (mismatch version theirs)) in
    r = Rejected e /\ new = [asked; WsClose ws; CallReject p e]
  else
    match c_result run with
    | Fulfilled exitCode =>
        r = Fulfilled (Code exitCode)
        /\ new = asked :: written ++ [WsClose ws; CallResolve p (Code exitCode)]
    | Rejected err =>
        let e := serializableToError (H := Rc) (errorToSerializable (H := Rd) err) in
        r = Rejected e /\ new = asked :: written ++ [WsClose ws; CallReject p e]
    | Pending =>
        r = Pending /\ new = asked :: written
    end.
Proof.
  intros Hin Hfresh Hc Hopen Hframes run theirs r w' p asked written new.
  subst r w' new. unfold register, bind. rewrite Hin.
  destruct (open_keeps (H := client) true w) as (_ & Hp & _ & _ & Hc1 & _).
  destruct (open_listeners (H := client) true w ws Hfresh Hopen) as [Hl _].
  destruct (open (H := client) true w) as [r1 w1]. cbn [fst snd] in *. subst r1.
  rewrite Hc in Hc1. unfold new_promise. cbn zeta.
  change (promises (ws_send ws (Cli args version context) w1)) with (promises w1).
  rewrite Hp. fold p.
  set (w2 := ws_on ws OnMessage (RegisterMessage p)
               (set_promises (promises w ++ [mkPromise Pending None])
                  (ws_send ws (Cli args version context) w1))).
  assert (Hl2 : listeners_of ws OnMessage w2 = [RequestMessage; RegisterMessage p]).
  { subst w2. rewrite listeners_of_ws_on.
    rewrite (listeners_of_ext _ _ _ w1) by reflexivity. rewrite Hl.
    now rewrite !bool_decide_eq_true_2. }
  assert (Hc2 : crashed w2 = false) by exact Hc1.
  assert (Hp2 : promises w2 !! p = Some (mkPromise Pending None)).
  { subst w2 p. cbn. now rewrite lookup_app_r, Nat.sub_diag by lia. }
  assert (Ht2 : trace w2 = trace w1 ++ [asked]) by reflexivity.
  rewrite Hframes, daemon_replies_cli. fold theirs run.
  assert (Hend : forall outs (f : frame) (r : settle JsError jsresult) (call : Effect),
    register_on_message (H := Rc) ws p f (emit_effects (map StdoutWrite outs) w2)
    = settle_promise p r
        (effect call (ws_close ws (emit_effects (map StdoutWrite outs) w2))) ->
    (exists code, f = Json (Exit code)) \/ (exists error, f = Json (Error error)) ->
    let w3 := deliver_until_settled (H := Rc) (H0 := client) ws p
                (map (fun d => Json (Stdout d)) outs ++ [f]) w2 in
    (await p w3).1 = r
    /\ new_effects w1 w3 = asked :: map StdoutWrite outs ++ [WsClose ws; call]).
  { intros outs f r call Hreg Hf w3. subst w3.
    rewrite (deliver_stdout (H := Rc) (H0 := client) ws p outs [f] w2 Hl2 Hc2 Hp2).
    rewrite deliver_last.
    rewrite (emit_command_end (H := Rc) (H0 := client) ws p f
               (emit_effects (map StdoutWrite outs) w2) Hl2 Hc2 Hf).
    rewrite Hreg.
    destruct (settle_pending p r None
                (effect call (ws_close ws (emit_effects (map StdoutWrite outs) w2))))
      as (Ht & Ha & _); [exact Hp2 | exact Hc2 |].
    split; [exact Ha|]. apply new_effects_app. rewrite Ht. cbn.
    rewrite <- !app_assoc. reflexivity. }
  destruct (bool_decide (version ≠ theirs)).
  - cbn zeta.
    set (e := mkError UsageErrorK (mismatch version theirs)
                (captureStackTrace (Runtime := Rd) UsageErrorK (mismatch version theirs))).
    destruct (Hend [] (Json (Error (errorToSerializable (H := Rd)
                (ThrownError (new_error (H := Rd) UsageErrorK (mismatch version theirs))))))
                (Rejected e) (CallReject p e)) as [Ha Hn].
    + cbn [map]. rewrite emit_effects_nil. reflexivity.
    + right. eauto.
    + cbn [map app] in Ha, Hn. cbn [map]. rewrite await_snd. now split.
  - rewrite map_app, map_map.
    destruct (c_result run) as [code|err|].
    + destruct (Hend (map toString_base64 (c_written run)) (Json (Exit code))
                  (Fulfilled (Code code)) (CallResolve p (Code code))) as [Ha Hn].
      * reflexivity.
      * left. eauto.
      * rewrite map_map in Ha, Hn. rewrite await_snd.
        split; [exact Ha|]. etransitivity; [exact Hn|].
        unfold written. now rewrite map_map.
    + destruct (Hend (map toString_base64 (c_written run))
                  (Json (Error (errorToSerializable (H := Rd) err)))
                  (Rejected (serializableToError (H := Rc)
                               (errorToSerializable (H := Rd) err)))
                  (CallReject p (serializableToError (H := Rc)
                                   (errorToSerializable (H := Rd) err)))) as [Ha Hn].
      * reflexivity.
      * right. eauto.
      * rewrite map_map in Ha, Hn. rewrite await_snd.
        split; [exact Ha|]. etransitivity; [exact Hn|].
        unfold written. now rewrite map_map.
    + change (map Json []) with (@nil frame).
      rewrite <- (map_map toString_base64 (fun d => Json (Stdout d))).
      rewrite (deliver_stdout (H := Rc) (H0 := client) ws p _ [] w2 Hl2 Hc2 Hp2).
      cbn [deliver_until_settled]. rewrite await_snd. unfold await.
      cbn [crashed promises emit_effects set_trace].
      rewrite Hc2. unfold PromiseId. rewrite Hp2. cbn [fst snd p_state].
      split; [reflexivity|].
      apply new_effects_app. cbn. rewrite <- !app_assoc. unfold written.
      now rewrite map_map.
Qed.

(** A command that writes one chunk and exits with 3, asked for by a client
    of the same version. *)
Lemma command_round_trip_witness :
  let daemon := Scenario.worker (Some "1.0.0") (fun _ => Pending) (fun _ => Fulfilled tt)
                  (fun _ _ => mkCliRun [mkBuffer "aGk="] [] (Fulfilled 3%Z)) in
  let asked := Cli Scenario.argv (Some "1.0.0") Scenario.context in
  let client := Scenario.client (fun _ => Fulfilled tt) (fun _ => Fulfilled tt)
                  (fun _ => 7%Z)
                  (fun _ => map Json
                     (daemon_replies (H := Scenario.engine) (H0 := daemon) 0
                        (Json asked) (new_Daemon 6532))) in
  let run := register (H := Scenario.engine) (H0 := client) (ret (Code 1))
               Scenario.argv Scenario.context (Some "1.0.0") (new_Daemon 6532) in
  run.1 = Fulfilled (Code 3)
  /\ new_effects (open (H := client) true (new_Daemon 6532)).2 run.2
     = [WsSend 0 asked; StdoutWrite "aGk="; WsClose 0; CallResolve 0 (Code 3)].
Proof.
  intros daemon asked client run.
  exact (command_round_trip Scenario.engine Scenario.engine client daemon (ret (Code 1))
           Scenario.argv Scenario.context (Some "1.0.0") 0 0
           (new_Daemon 6532) (new_Daemon 6532)
           eq_refl (Forall_nil_2 _) eq_refl eq_refl eq_refl).
Defined.

(** ** The [status] command, from the client to the daemon and back *)

(** The record with which the daemon answers a [status] record. *)
Lemma daemon_replies_status `{Runtime} `{Env} (ws : Conn) (version : option string)
    (w : World) :
  daemon_replies ws (Json (Status version)) w
  = [Status (Some (default "<unknown>" binaryVersion))].
Proof.
  unfold daemon_replies, on_socket_message. cbn [JSON_parse].
  rewrite (new_effects_app _ _
             [WsSend ws (Status (Some (default "<unknown>" binaryVersion)))])
    by reflexivity.
  cbn. now rewrite bool_decide_eq_true_2.
Qed.

Lemma settle_pending_settled (p : PromiseId) (r : settle JsError jsresult)
    (fin : option Conn) (w : World) :
  promises w !! p = Some (mkPromise Pending fin) ->
  r <> Pending ->
  is_settled p (settle_promise p r w) = true.
Proof.
  intros Hp Hr. unfold settle_promise, is_settled. rewrite Hp.
  assert (Hlt : p < length (promises w)) by (now apply lookup_lt_Some in Hp).
  destruct fin as [ws|]; cbn; rewrite list_lookup_insert_eq by exact Hlt;
    now destruct r.
Qed.

(** X11. What [status] gives against the daemon's own answer, and what the
    [status] command prints. The client sends one [status] record on a
    socket of its own, is answered with the version that the daemon
    declares, or [<unknown>] when it declares none, and closes the socket;
    the command prints that version on a line, quoted when [--json] is
    given. When the connection is refused, the command prints that the
    daemon is down, or [null], instead of failing. *)
Theorem status_round_trip (Rc Rd : Runtime) (client daemon : Env)
    (quote : string -> string) (json : bool) (wsd : Conn) (wd w : World) :
  let ws := sockets w in
  let printed := (Control.execute (H := Rc) (H0 := client) quote
                    (Control.StatusCommand json) w).1 in
  (sockets_fresh w ->
   crashed w = false ->
   connect_outcome (Env := client) ws = Fulfilled tt ->
   frames_received (Env := client) ws
     = map Json (daemon_replies (H := Rd) (H0 := daemon) wsd (Json (Status None)) wd) ->
   let v := default "<unknown>" (binaryVersion (Env := daemon)) in
   let run := status (H := Rc) (H0 := client) w in
   run.1 = Fulfilled (VersionField (Some v))
   /\ new_effects w run.2
      = [NewWebSocket (port w) ws; WsSend ws (Status None);
         CallResolve (length (promises w)) (Version (Some v)); WsClose ws]
   /\ printed = Fulfilled [((if json then quote v else v) ++ Control.newline)%string])
  /\ (forall err, connect_outcome (Env := client) ws = Rejected err ->
        is_ECONNREFUSED err = true ->
        printed = Fulfilled [((if json then "null" else "The daemon is down")
                                ++ Control.newline)%string]).
Proof.
  intros ws printed. split.
  - intros Hfresh Hc Hconn Hframes v run.
    assert (Hopen : (open (H := client) false w).1 = Fulfilled ws).
    { unfold open, try_catch. rewrite request_spec. fold ws. now rewrite Hconn. }
    assert (Hnew : new_effects w (open (H := client) false w).2
                   = [NewWebSocket (port w) ws]) by apply open_no_spawn.
    pose proof (open_trace (H := client) false w) as Ht1. rewrite Hnew in Ht1.
    destruct (open_keeps (H := client) false w) as (_ & Hp & _ & _ & Hc1 & _).
    destruct (open_listeners (H := client) false w ws Hfresh Hopen) as [Hl _].
    assert (Hrun : run.1 = Fulfilled (VersionField (Some v))
                   /\ new_effects w run.2
                      = [NewWebSocket (port w) ws; WsSend ws (Status None);
                         CallResolve (length (promises w)) (Version (Some v));
                         WsClose ws]).
    { subst run. unfold status.
      destruct (open (H := client) false w) as [r1 w1]. cbn [fst snd] in *. subst r1.
      rewrite Hc in Hc1. unfold status_query, new_promise. cbn zeta.
      change (promises (ws_send ws (Status None) w1)) with (promises w1).
      rewrite Hp. set (p := length (promises w)).
      set (w2 := ws_on ws OnMessage (StatusMessage p)
                   (set_promises (promises w ++ [mkPromise Pending None])
                      (ws_send ws (Status None) w1))).
      assert (Hl2 : listeners_of ws OnMessage w2 = [RequestMessage; StatusMessage p]).
      { subst w2. rewrite listeners_of_ws_on.
        rewrite (listeners_of_ext _ _ _ w1) by reflexivity. rewrite Hl.
        now rewrite !bool_decide_eq_true_2. }
      assert (Hc2 : crashed w2 = false) by exact Hc1.
      assert (Hp2 : promises w2 !! p = Some (mkPromise Pending None)).
      { subst w2 p. cbn. now rewrite lookup_app_r, Nat.sub_diag by lia. }
      rewrite Hframes, daemon_replies_status. fold v. cbn [map].
      rewrite deliver_last.
      assert (He : emit (H := Rc) (H0 := client) ws (EvMessage (Json (Status (Some v)))) w2
                   = settle_promise p (Fulfilled (Version (Some v)))
                       (effect (CallResolve p (Version (Some v))) w2)).
      { unfold emit. cbn [event_name]. rewrite Hl2. cbn [foldl]. rewrite Hc2.
        cbn [run_listener]. unfold request_on_message. cbn [JSON_parse]. rewrite Hc2.
        reflexivity. }
      rewrite He.
      destruct (settle_pending p (Fulfilled (Version (Some v))) None
                  (effect (CallResolve p (Version (Some v))) w2) Hp2 Hc2)
        as (Ht & Ha & _ & Hc3).
      rewrite (settle_pending_settled p (Fulfilled (Version (Some v))) None
                 (effect (CallResolve p (Version (Some v))) w2) Hp2) by discriminate.
      rewrite orb_true_r.
      set (w3 := settle_promise p (Fulfilled (Version (Some v))) _) in *.
      unfold try_finally, bind.
      pose proof (await_snd p w3) as Hs.
      destruct (await p w3) as [r3 w3']. cbn [fst snd] in *. subst r3 w3'.
      unfold ret. cbn [fst snd as_status_answer]. split; [reflexivity|].
      apply new_effects_app. cbn [trace ws_close effect emit_effects set_trace].
      rewrite Ht. subst w2.
      cbn [trace ws_on ws_send effect emit_effects set_trace set_listeners set_promises
           closing].
      rewrite Ht1, <- !app_assoc. reflexivity. }
    destruct Hrun as [Hr Hn]. split; [exact Hr|]. split; [exact Hn|].
    subst printed. unfold Control.execute, bind. fold run.
    destruct run as [r w']. cbn [fst snd] in *. subst r. cbn.
    now destruct json.
  - intros err Hconn Href. subst printed.
    unfold Control.execute, bind, status, open, try_catch. rewrite request_spec.
    fold ws. rewrite Hconn. cbn [fst snd]. rewrite andb_false_r. unfold throw.
    rewrite Href. cbn. now destruct json.
Qed.

(** A daemon that declares no version, asked by the [status] command
    without [--json]. *)
Lemma status_round_trip_witness :
  let daemon := Scenario.worker None (fun _ => Pending) (fun _ => Fulfilled tt)
                  Scenario.command in
  let client := Scenario.client (fun _ => Fulfilled tt) (fun _ => Fulfilled tt)
                  (fun _ => 7%Z)
                  (fun _ => map Json
                     (daemon_replies (H := Scenario.engine) (H0 := daemon) 0
                        (Json (Status None)) (new_Daemon 6532))) in
  (Control.execute (H := Scenario.engine) (H0 := client) (fun s => s)
     (Control.StatusCommand false) (new_Daemon 6532)).1
  = Fulfilled [("<unknown>" ++ Control.newline)%string].
Proof.
  intros daemon client.
  destruct (status_round_trip Scenario.engine Scenario.engine client daemon
              (fun s => s) false 0 (new_Daemon 6532) (new_Daemon 6532)) as [Hup _].
  destruct (Hup (Forall_nil_2 _) eq_refl eq_refl eq_refl) as (_ & _ & Hprinted).
  exact Hprinted.
Defined.

(** ** Disconnect hooks belong to a connection *)

Lemma foldl_add_fresh (l hs : list Hook) :
  NoDup (l ++ hs) ->
  foldl (fun acc fn => JsSet.add fn acc) l hs = l ++ hs.
Proof.
  revert l. induction hs as [|fn hs IH]; intros l Hnd; cbn.
  - now rewrite app_nil_r.
  - assert (Hfn : fn ∉ l).
    { apply NoDup_app in Hnd as (_ & Hdisj & _). intros Hin.
      apply (Hdisj fn Hin). now left. }
    unfold JsSet.add at 2. rewrite decide_False by exact Hfn.
    rewrite IH by (now rewrite <- app_assoc). now rewrite <- app_assoc.
Qed.

(** Handling a frame touches the session of its own socket only, and only
    to add the hooks registered on the way. *)
Lemma sessions_on_socket_message `{Runtime} `{Env} (ws : Conn) (f : frame) (w : World) :
  sessions (on_socket_message ws f w) = sessions (add_hooks ws (registers f) w).
Proof.
  assert (Hnone : sessions (add_hooks ws [] w) = sessions w).
  { unfold add_hooks. cbn. apply map_eq. intros c. rewrite lookup_alter.
    destruct (decide (ws = c)) as [->|]; [|reflexivity].
    now destruct (sessions w !! c) as [[]|]. }
  unfold on_socket_message, registers.
  destruct (JSON_parse f) as [[]|]; try (now rewrite Hnone).
  - destruct (bool_decide (version ≠ binaryVersion)); [now rewrite Hnone|].
    now destruct (c_result (cli_run args context)).
  - destruct onMessage_handler as [handler|]; [|now rewrite Hnone].
    now destruct (h_result (handler data)).
Qed.

Lemma new_effects_same (w : World) : new_effects w w = [].
Proof. unfold new_effects. apply drop_all. Qed.

(** What the close of a socket adds to the trace depends on the session of
    that socket only. *)
Lemma on_socket_close_session `{Env} (ws : Conn) (w1 w2 : World) :
  sessions w1 !! ws = sessions w2 !! ws ->
  new_effects w1 (on_socket_close ws w1) = new_effects w2 (on_socket_close ws w2).
Proof.
  intros Hs. destruct (sessions w2 !! ws) as [s|] eqn:H2.
  - destruct (on_socket_close_spec ws s w1 Hs) as [_ Ht1].
    destruct (on_socket_close_spec ws s w2 H2) as [_ Ht2].
    now rewrite (new_effects_app _ _ _ Ht1), (new_effects_app _ _ _ Ht2).
  - unfold on_socket_close. rewrite Hs, H2. now rewrite !new_effects_same.
Qed.

(** X12. The hooks that a command or a message handler registers for the
    disconnection of its client are called when the socket of that client
    closes, in the order registered, and at no other socket's close: what
    the close of another socket does is not affected. Until then the client
    is reported as connected. *)
Theorem disconnect_hooks_per_connection `{Runtime} `{Env}
    (ws : Conn) (f : frame) (w : World) :
  NoDup (registers f) ->
  Forall (fun fn => hook_outcome fn = Fulfilled tt) (registers f) ->
  let w1 := on_socket_message ws f (on_connection ws w) in
  connected <$> (sessions w1 !! ws) = Some true
  /\ new_effects w1 (on_socket_close ws w1)
     = ClientStatusConnected ws false :: map CallHook (registers f) ++ [ResolveRunExit]
  /\ (forall ws', ws' <> ws ->
        sessions w1 !! ws' = sessions w !! ws'
        /\ new_effects w1 (on_socket_close ws' w1)
           = new_effects w (on_socket_close ws' w)).
Proof.
  intros Hnd Hall w1.
  assert (Hs : sessions w1 = alter (fun s => mkSession (connected s)
                                     (foldl (fun acc fn => JsSet.add fn acc)
                                        (onClientDisconnect s) (registers f)))
                               ws (<[ws := mkSession true []]> (sessions w))).
  { subst w1. now rewrite sessions_on_socket_message. }
  assert (Hws : sessions w1 !! ws = Some (mkSession true (registers f))).
  { rewrite Hs, lookup_alter_eq, lookup_insert_eq. cbn.
    now rewrite (foldl_add_fresh [] (registers f) Hnd). }
  assert (Hother : forall ws', ws' <> ws -> sessions w1 !! ws' = sessions w !! ws').
  { intros ws' Hne. rewrite Hs, lookup_alter_ne, lookup_insert_ne by congruence.
    reflexivity. }
  split; [now rewrite Hws|]. split.
  - destruct (on_socket_close_spec ws _ w1 Hws) as [_ Ht]. cbn [onClientDisconnect] in Ht.
    rewrite (for_of_await_fulfilled _ _ Hall) in Ht.
    now apply new_effects_app.
  - intros ws' Hne. split; [now apply Hother|].
    apply on_socket_close_session. now apply Hother.
Qed.

(** A command that registers hooks 1 and 2: they are called when its
    client goes, and the hooks of another client are left alone. *)
Lemma disconnect_hooks_per_connection_witness :
  let env := Scenario.worker (Some "1.0.0") (fun _ => Pending) (fun _ => Fulfilled tt)
               Scenario.command in
  let f := Json (Cli Scenario.argv (Some "1.0.0") Scenario.context) in
  let w1 := on_socket_message (H := Scenario.engine) (H0 := env) 0 f
              (on_connection 0 (new_Daemon 6532)) in
  new_effects w1 (on_socket_close (H := env) 0 w1)
  = [ClientStatusConnected 0 false; CallHook 1; CallHook 2; ResolveRunExit].
Proof.
  intros env f w1.
  destruct (disconnect_hooks_per_connection (H := Scenario.engine) (H0 := env)
              0 f (new_Daemon 6532)) as (_ & Hclose & _).
  - apply NoDup_cons. split; [|apply NoDup_singleton].
    intros Hin%list_elem_of_singleton. discriminate Hin.
  - repeat constructor.
  - exact Hclose.
Defined.
